(** * ts-playwright-lighthouse: metrics extraction, evaluation,
      aggregation and comparison

    A shallow embedding of the arithmetic core of the tool:
    [src/webVitals.ts] (extractor, evaluator, recommendations),
    the comparison reporter (score and Web-Vitals diffs, table rows,
    summary counts), the data preparation of [src/reportGenerator.ts]
    and the run loop of the entry point [runLighthouseTest].

    Conventions of the embedding.
    - A JavaScript [number] is a rational ([Q]), every finite double
      being one; infinities and [NaN] are not numbers of the model.
      Comparisons are exact.  In the run loop (the rescaling of the
      scores, their sum and their average, the scores of the comparison
      audit) and in [formatTime] (the minutes of a duration), [*], [+]
      and [/] are the operations of [Double], which round the exact
      result to the nearest double as the program does.  In the
      comparison reporter, the radar chart and the progress bar they are
      the rational operations.  The decimal literals of the source
      ([0.1], [0.25]) are the rationals they denote.
    - [number | null] is [option Q], [None] being [null]; an optional
      property ([numericValue?]) is also an [option], [None] being
      [undefined].
    - A [Record<string, T>] is a [gmap string T]; the fixed-shape
      [WebVitalsMetrics] interface is a record of seven fields.
    - HTML templates are not rendered: a table is the list of its rows,
      each row carrying the values the template interpolates. *)

From Stdlib Require Import Ascii QArith Qabs Qround Qminmax Qpower Lqa.
From Stdlib Require Qcanon.
From stdpp Require Import gmap strings list fin_maps pretty.

Open Scope Q_scope.

(** ** JavaScript numbers *)

Abbreviation number := Q.

(** [a < b] on numbers. *)
Definition lt (a b : number) : bool := negb (Qle_bool b a).

(** [a > b] on numbers. *)
Definition gt (a b : number) : bool := lt b a.

(** [a !== 0] on numbers. *)
Definition nonzero (a : number) : bool := negb (Qeq_bool a 0).

(** [Math.abs]. *)
Definition Math_abs (a : number) : number := Qabs.Qabs a.

(** *** Double arithmetic *)

(** The arithmetic of IEEE 754 binary64 on the finite doubles, seen as
    rationals: the exact result, rounded to the nearest double, ties to
    even, with gradual underflow.  A result beyond the largest double,
    which the program turns into an infinity, is outside the model. *)
Module Double.

(** [2^e] *)
Definition pow2 (e : Z) : Q := 2 ^ e.

(** The integer part of the binary logarithm of a positive rational:
    [2^(flog2 q) <= q < 2^(flog2 q + 1)]. *)
Definition flog2 (q : Q) : Z :=
  let k := (Z.log2 (Qnum q) - Z.log2 (Zpos (Qden q)))%Z in
  if Qle_bool (pow2 k) q then k else (k - 1)%Z.

(** The nearest integer, ties to even. *)
Definition rne (q : Q) : Z :=
  let f := Qfloor q in
  match Qcompare (q - inject_Z f) (1 # 2) with
  | Lt => f
  | Gt => (f + 1)%Z
  | Eq => if Z.even f then f else (f + 1)%Z
  end.

(** The exponent of the last place of the doubles around [q]: 53
    significant bits, and no exponent below that of the subnormal
    numbers. *)
Definition ulp_exponent (q : Q) : Z := Z.max (flog2 (Qabs.Qabs q) - 52) (-1074).

(** The double nearest to [q]. *)
Definition round (q : Q) : number :=
  if Qeq_bool q 0 then 0
  else
    let e := ulp_exponent q in
    Qred (inject_Z (rne (q / pow2 e)) * pow2 e).

(** [a * b], [a + b] and [a / b] on doubles. *)
Definition mul (a b : number) : number := round (a * b).

Definition add (a b : number) : number := round (a + b).

Definition div (a b : number) : number := round (a / b).

End Double.

Arguments Double.round : simpl never.
Arguments Double.mul : simpl never.
Arguments Double.add : simpl never.
Arguments Double.div : simpl never.

(** ** webVitals.ts *)

Module WebVitals.

(** [interface WebVitalsMetrics]. *)
Record WebVitalsMetrics := mkMetrics {
  FCP : option number;
  LCP : option number;
  CLS : option number;
  FID : option number;
  TTI : option number;
  TBT : option number;
  TTFB : option number
}.

(** The property names of a [WebVitalsMetrics] object, in the order in
    which [extractWebVitals] creates them ([Object.keys] order). *)
Inductive MetricKey := kFCP | kLCP | kCLS | kFID | kTTI | kTBT | kTTFB.

#[export] Instance MetricKey_eq_dec : EqDecision MetricKey.
Proof. solve_decision. Defined.

Definition Object_keys : list MetricKey :=
  [kFCP; kLCP; kCLS; kFID; kTTI; kTBT; kTTFB].

Definition key_name (k : MetricKey) : string :=
  match k with
  | kFCP => "FCP" | kLCP => "LCP" | kCLS => "CLS" | kFID => "FID"
  | kTTI => "TTI" | kTBT => "TBT" | kTTFB => "TTFB"
  end.

(** [metrics[key]]. *)
Definition get (k : MetricKey) (m : WebVitalsMetrics) : option number :=
  match k with
  | kFCP => FCP m | kLCP => LCP m | kCLS => CLS m | kFID => FID m
  | kTTI => TTI m | kTBT => TBT m | kTTFB => TTFB m
  end.

(** One entry of [lhr.audits]: [score: number | null] and the optional
    [numericValue]. *)
Record Audit := mkAudit {
  score : option number;
  numericValue : option number
}.

(** The part of the Lighthouse result read by the tool: [lhr.audits]
    (possibly missing, hence the [|| {}] of the extractor) and
    [lhr.categories], each category with its [0,1] score. *)
Record Lhr := mkLhr {
  audits : option (gmap string Audit);
  categories : gmap string number
}.

(** [getMetricValue(audit)]: [audit] is [audits[id]], [None] when the
    property is missing. *)
Definition getMetricValue (audit : option Audit) : option number :=
  match audit with
  | None => None
  | Some a =>
      match score a with
      | None => None
      | Some _ =>
          match numericValue a with
          | Some v => Some v
          | None => None
          end
      end
  end.

(** The audit id looked up for each metric. *)
Definition audit_id (k : MetricKey) : string :=
  match k with
  | kFCP => "first-contentful-paint"
  | kLCP => "largest-contentful-paint"
  | kCLS => "cumulative-layout-shift"
  | kFID => "max-potential-fid"
  | kTTI => "interactive"
  | kTBT => "total-blocking-time"
  | kTTFB => "server-response-time"
  end.

Definition extractWebVitals (lhr : Lhr) : WebVitalsMetrics :=
  let audits : gmap string Audit := default ∅ (audits lhr) in
  {| FCP := getMetricValue (audits !! "first-contentful-paint");
     LCP := getMetricValue (audits !! "largest-contentful-paint");
     CLS := getMetricValue (audits !! "cumulative-layout-shift");
     FID := getMetricValue (audits !! "max-potential-fid");
     TTI := getMetricValue (audits !! "interactive");
     TBT := getMetricValue (audits !! "total-blocking-time");
     TTFB := getMetricValue (audits !! "server-response-time") |}.

(** The three evaluation labels of the source. *)
Definition label_good : string := "良好".
Definition label_needs_improvement : string := "需要改进".
Definition label_poor : string := "较差".

Definition evaluateWebVitals (metrics : WebVitalsMetrics) : gmap string string :=
  let evaluations : gmap string string := ∅ in
  let evaluations :=
    match FCP metrics with
    | Some v =>
        if lt v 1800 then <["FCP" := label_good]> evaluations
        else if lt v 3000 then <["FCP" := label_needs_improvement]> evaluations
        else <["FCP" := label_poor]> evaluations
    | None => evaluations
    end in
  let evaluations :=
    match LCP metrics with
    | Some v =>
        if lt v 2500 then <["LCP" := label_good]> evaluations
        else if lt v 4000 then <["LCP" := label_needs_improvement]> evaluations
        else <["LCP" := label_poor]> evaluations
    | None => evaluations
    end in
  let evaluations :=
    match CLS metrics with
    | Some v =>
        if lt v 0.1 then <["CLS" := label_good]> evaluations
        else if lt v 0.25 then <["CLS" := label_needs_improvement]> evaluations
        else <["CLS" := label_poor]> evaluations
    | None => evaluations
    end in
  let evaluations :=
    match FID metrics with
    | Some v =>
        if lt v 100 then <["FID" := label_good]> evaluations
        else if lt v 300 then <["FID" := label_needs_improvement]> evaluations
        else <["FID" := label_poor]> evaluations
    | None => evaluations
    end in
  let evaluations :=
    match TTI metrics with
    | Some v =>
        if lt v 3800 then <["TTI" := label_good]> evaluations
        else if lt v 7300 then <["TTI" := label_needs_improvement]> evaluations
        else <["TTI" := label_poor]> evaluations
    | None => evaluations
    end in
  let evaluations :=
    match TBT metrics with
    | Some v =>
        if lt v 200 then <["TBT" := label_good]> evaluations
        else if lt v 600 then <["TBT" := label_needs_improvement]> evaluations
        else <["TBT" := label_poor]> evaluations
    | None => evaluations
    end in
  let evaluations :=
    match TTFB metrics with
    | Some v =>
        if lt v 800 then <["TTFB" := label_good]> evaluations
        else if lt v 1800 then <["TTFB" := label_needs_improvement]> evaluations
        else <["TTFB" := label_poor]> evaluations
    | None => evaluations
    end in
  evaluations.

(** [interface WebVitalsResult]; the timestamp of a result is not
    modelled. *)
Record WebVitalsResult := mkResult {
  url : string;
  metrics : WebVitalsMetrics;
  device : string
}.

(** [metrics.M !== null && evaluations.M !== label_good]: a missing
    evaluation ([undefined]) differs from every label. *)
Definition needs_advice (value : option number) (evaluation : option string) : bool :=
  match value with
  | Some _ => negb (bool_decide (evaluation = Some label_good))
  | None => false
  end.

Definition generateWebVitalsRecommendations (metrics : WebVitalsMetrics)
    (evaluations : gmap string string) : gmap string (list string) :=
  let recommendations : gmap string (list string) := ∅ in
  let recommendations :=
    if needs_advice (FCP metrics) (evaluations !! "FCP")
    then insert "FCP" ["优化服务器响应时间"; "移除阻塞渲染的资源"; "优化关键渲染路径"] recommendations
    else recommendations in
  let recommendations :=
    if needs_advice (LCP metrics) (evaluations !! "LCP")
    then insert "LCP" ["优化最大内容元素的加载"; "使用图片懒加载"; "优化服务器响应时间"; "预加载关键资源"] recommendations
    else recommendations in
  let recommendations :=
    if needs_advice (CLS metrics) (evaluations !! "CLS")
    then insert "CLS" ["为图片和视频元素设置明确的宽高"; "避免在已有内容上方插入内容"; "使用transform动画代替影响布局的属性"] recommendations
    else recommendations in
  let recommendations :=
    if needs_advice (FID metrics) (evaluations !! "FID")
    then insert "FID" ["减少JavaScript执行时间"; "拆分长任务"; "优化事件处理程序"] recommendations
    else recommendations in
  let recommendations :=
    if needs_advice (TTI metrics) (evaluations !! "TTI")
    then insert "TTI" ["减少JavaScript的体积"; "移除未使用的JavaScript"; "使用代码分割"; "延迟加载非关键JavaScript"] recommendations
    else recommendations in
  let recommendations :=
    if needs_advice (TBT metrics) (evaluations !! "TBT")
    then insert "TBT" ["减少主线程工作"; "减少JavaScript执行时间"; "优化第三方脚本的影响"] recommendations
    else recommendations in
  let recommendations :=
    if needs_advice (TTFB metrics) (evaluations !! "TTFB")
    then insert "TTFB" ["优化服务器处理时间"; "使用CDN"; "预连接到所需的源"; "使用缓存"] recommendations
    else recommendations in
  recommendations.

End WebVitals.

Import WebVitals.

(** ** The aggregated result of a test session *)

(** [interface TestResult] of the entry point, which is also the shape of
    both sides of [interface ComparisonData] and of the [results] argument
    of the report generators.  Timestamps are not modelled. *)
Module TestResult.
Record t := mk {
  url : string;
  device : string;
  scores : gmap string number;
  webVitals : WebVitalsMetrics
}.
End TestResult.

Abbreviation TestResult := TestResult.t.

(** ** The comparison reporter *)

Module ComparisonReporter.

Record ComparisonData := mkComparisonData {
  baseline : TestResult;
  current : TestResult
}.

(** [scores[category] || 0]: a missing score and a score equal to zero
    both give [0]. *)
Definition or_zero (v : option number) : number :=
  match v with
  | Some x => if nonzero x then x else 0
  | None => 0
  end.

(** [Object.entries(scores)]; the enumeration order of the properties is
    not modelled. *)
Definition Object_entries {A} (o : gmap string A) : list (string * A) :=
  map_to_list o.

(** [Object.values(o)]. *)
Definition Object_values {A} (o : gmap string A) : list A :=
  (map_to_list o).*2.

Definition calculateScoreDiffs (baselineScores currentScores : gmap string number)
    : gmap string number :=
  foldl (fun (diffs : gmap string number) '(category, score) =>
           let currentScore := or_zero (currentScores !! category) in
           <[category := currentScore - score]> diffs)
        ∅ (Object_entries baselineScores).

(** An entry of the Web-Vitals diff map. *)
Record VitalDiff := mkDiff {
  absolute : number;
  percentage : number;
  improved : bool
}.

Definition calculateWebVitalsDiffs (baselineWebVitals currentWebVitals : WebVitalsMetrics)
    : gmap string VitalDiff :=
  foldl (fun (diffs : gmap string VitalDiff) key =>
           match get key baselineWebVitals, get key currentWebVitals with
           | Some baselineValue, Some currentValue =>
               let absoluteDiff := currentValue - baselineValue in
               let percentageDiff :=
                 if nonzero baselineValue
                 then (absoluteDiff / baselineValue) * 100
                 else 0 in
               let improved := lt absoluteDiff 0 in
               <[key_name key := {| absolute := absoluteDiff;
                                    percentage := percentageDiff;
                                    improved := improved |}]> diffs
           | _, _ => diffs
           end)
        ∅ Object_keys.

(** The CSS class of a change cell. *)
Inductive DiffClass := improvement | regression | neutral.

(** [Math.round]: the nearest integer, halves rounded up. *)
Definition Math_round (v : number) : Z := Qfloor (v + (1 # 2)).

(** A formatted value of the Web-Vitals table: [v.toFixed(3)] for CLS
    (kept symbolic) or [Math.round(v)] followed by the unit. *)
Inductive Display :=
| toFixed3 (v : number)
| rounded (v : Z) (unit : string).

(** The entries of [webVitalsInfo], in source order. *)
Definition webVitalsInfo : list (MetricKey * (string * string)) :=
  [ (kFCP, ("First Contentful Paint", "ms"));
    (kLCP, ("Largest Contentful Paint", "ms"));
    (kCLS, ("Cumulative Layout Shift", ""));
    (kFID, ("First Input Delay", "ms"));
    (kTTI, ("Time to Interactive", "ms"));
    (kTBT, ("Total Blocking Time", "ms"));
    (kTTFB, ("Time to First Byte", "ms")) ].

(** One [<tr>] of the Web-Vitals comparison table. *)
Record VitalRow := mkVitalRow {
  row_key : MetricKey;
  row_name : string;
  baselineDisplay : Display;
  currentDisplay : Display;
  diffClass : DiffClass;
  diffPrefix : string;
  diffDisplay : Display;
  percentDiff : number
}.

Definition generateWebVitalsComparisonRows
    (baselineWebVitals currentWebVitals : WebVitalsMetrics) : list VitalRow :=
  foldl (fun rows '(key, (name, unit)) =>
           match get key baselineWebVitals, get key currentWebVitals with
           | Some baselineValue, Some currentValue =>
               let diff := currentValue - baselineValue in
               let percentDiff :=
                 if nonzero baselineValue then (diff / baselineValue) * 100 else 0 in
               let diffClass :=
                 if lt diff 0 then improvement
                 else if gt diff 0 then regression else neutral in
               let diffPrefix := if lt diff 0 then "" else "+" in
               let display v :=
                 match key with
                 | kCLS => toFixed3 v
                 | _ => rounded (Math_round v) unit
                 end in
               rows ++ [ {| row_key := key; row_name := name;
                            baselineDisplay := display baselineValue;
                            currentDisplay := display currentValue;
                            diffClass := diffClass;
                            diffPrefix := diffPrefix;
                            diffDisplay := display diff;
                            percentDiff := percentDiff |} ]
           | _, _ => rows
           end)
        [] webVitalsInfo.

(** The four counters interpolated by [generateSummaryStats]. *)
Record SummaryStats := mkStats {
  improvedScores : nat;
  regressedScores : nat;
  improvedWebVitals : nat;
  regressedWebVitals : nat
}.

Definition generateSummaryStats (scoreDiffs : gmap string number)
    (webVitalsDiffs : gmap string VitalDiff) : SummaryStats :=
  let '(improvedScores, regressedScores) :=
    foldl (fun '(improvedScores, regressedScores) diff =>
             if gt diff 1 then (S improvedScores, regressedScores)
             else if lt diff (-1) then (improvedScores, S regressedScores)
             else (improvedScores, regressedScores))
          (0%nat, 0%nat) (Object_values scoreDiffs) in
  let '(improvedWebVitals, regressedWebVitals) :=
    foldl (fun '(improvedWebVitals, regressedWebVitals) diff =>
             if improved diff then (S improvedWebVitals, regressedWebVitals)
             else if negb (improved diff) && gt (Math_abs (percentage diff)) 1
                  then (improvedWebVitals, S regressedWebVitals)
             else (improvedWebVitals, regressedWebVitals))
          (0%nat, 0%nat) (Object_values webVitalsDiffs) in
  {| improvedScores := improvedScores;
     regressedScores := regressedScores;
     improvedWebVitals := improvedWebVitals;
     regressedWebVitals := regressedWebVitals |}.

Definition getCategoryName (category : string) : string :=
  if bool_decide (category = "performance") then "性能"
  else if bool_decide (category = "accessibility") then "可访问性"
  else if bool_decide (category = "best-practices") then "最佳实践"
  else if bool_decide (category = "seo") then "SEO"
  else category.

(** One [<tr>] of the Lighthouse score table. *)
Record ScoreRow := mkScoreRow {
  categoryName : string;
  score : number;
  currentScore : number;
  diff : number;
  scoreDiffClass : DiffClass;
  scoreDiffPrefix : string
}.

(** The data interpolated into the template of [generateComparisonHtml]:
    the summary counters, the score table and the Web-Vitals table.  The
    chart script of the page runs in the browser and is not modelled. *)
Record ComparisonHtml := mkHtml {
  summary : SummaryStats;
  scoreRows : list ScoreRow;
  webVitalsRows : list VitalRow
}.

Definition scoreRow (data : ComparisonData) (entry : string * number) : ScoreRow :=
  let '(category, score) := entry in
  let currentScore := or_zero (TestResult.scores (current data) !! category) in
  let diff := currentScore - score in
  let diffClass :=
    if gt diff 1 then improvement
    else if lt diff (-1) then regression else neutral in
  let diffPrefix := if gt diff 0 then "+" else "" in
  {| categoryName := getCategoryName category;
     score := score;
     currentScore := currentScore;
     diff := diff;
     scoreDiffClass := diffClass;
     scoreDiffPrefix := diffPrefix |}.

Definition generateComparisonHtml (data : ComparisonData) : ComparisonHtml :=
  let scoreDiffs :=
    calculateScoreDiffs (TestResult.scores (baseline data))
                        (TestResult.scores (current data)) in
  let webVitalsDiffs :=
    calculateWebVitalsDiffs (TestResult.webVitals (baseline data))
                            (TestResult.webVitals (current data)) in
  {| summary := generateSummaryStats scoreDiffs webVitalsDiffs;
     scoreRows := scoreRow data <$> Object_entries (TestResult.scores (baseline data));
     webVitalsRows :=
       generateWebVitalsComparisonRows (TestResult.webVitals (baseline data))
                                       (TestResult.webVitals (current data)) |}.

(** The data preparation of [generateComparisonReport]: both results are
    copied field by field into the comparison data. *)
Definition comparisonData (baselineResults currentResults : TestResult) : ComparisonData :=
  {| baseline := {| TestResult.url := TestResult.url baselineResults;
                    TestResult.device := TestResult.device baselineResults;
                    TestResult.scores := TestResult.scores baselineResults;
                    TestResult.webVitals := TestResult.webVitals baselineResults |};
     current := {| TestResult.url := TestResult.url currentResults;
                   TestResult.device := TestResult.device currentResults;
                   TestResult.scores := TestResult.scores currentResults;
                   TestResult.webVitals := TestResult.webVitals currentResults |} |}.

End ComparisonReporter.

(** ** The detailed report *)

Module ReportGenerator.

Record ReportData := mkReportData {
  url : string;
  device : string;
  scores : gmap string number;
  webVitals : WebVitalsMetrics;
  evaluations : gmap string string;
  recommendations : gmap string (list string)
}.

(** [webVitalsResults[webVitalsResults.length - 1]]: [None] is the
    [undefined] read from an empty array. *)
Definition last_result (webVitalsResults : list WebVitalsResult) : option WebVitalsResult :=
  webVitalsResults !! (length webVitalsResults - 1)%nat.

(** The report data prepared by [generateDetailedReport]; [None] is the
    [TypeError] raised by reading [.metrics] of [undefined] when there
    is no run. *)
Definition reportData (results : TestResult) (webVitalsResults : list WebVitalsResult)
    : option ReportData :=
  match last_result webVitalsResults with
  | None => None
  | Some r =>
      Some {| url := TestResult.url results;
              device := TestResult.device results;
              scores := TestResult.scores results;
              webVitals := metrics r;
              evaluations := evaluateWebVitals (metrics r);
              recommendations :=
                generateWebVitalsRecommendations (metrics r)
                                                 (evaluateWebVitals (metrics r)) |}
  end.

(** One card of [generateWebVitalCards]: the metric, its value, the
    evaluation label shown, its CSS class and the advice list. *)
Record VitalCard := mkCard {
  card_key : MetricKey;
  card_value : number;
  evaluation : string;
  evaluationClass : string;
  recommendationList : list string
}.

Definition generateWebVitalCards (metrics : WebVitalsMetrics)
    (evaluations : gmap string string)
    (recommendations : gmap string (list string)) : list VitalCard :=
  foldl (fun html key =>
           match get key metrics with
           | None => html
           | Some value =>
               let evaluation :=
                 match evaluations !! key_name key with
                 | Some e => if bool_decide (e = "") then "未评估" else e
                 | None => "未评估"
                 end in
               let recommendationList := default [] (recommendations !! key_name key) in
               let evaluationClass :=
                 if bool_decide (evaluation = label_good) then "good"
                 else if bool_decide (evaluation = label_needs_improvement)
                      then "needs-improvement"
                 else if bool_decide (evaluation = label_poor) then "poor"
                 else "" in
               html ++ [ {| card_key := key; card_value := value;
                            evaluation := evaluation;
                            evaluationClass := evaluationClass;
                            recommendationList := recommendationList |} ]
           end)
        [] Object_keys.

End ReportGenerator.

(** ** The entry point: [runLighthouseTest] *)

Module Index.

(** [interface TestConfig], after the command line and the configuration
    file have been merged.  The throttling profile is only handed to the
    audit engine and is left out. *)
Record TestConfig := mkConfig {
  url : string;
  testCount : nat;
  categories : list string;
  device : string;
  compareUrl : option string;
  saveHistory : bool
}.

(** The calls to external collaborators; each of them may reject. *)
Inductive Call :=
| ParseArgs
| LaunchChrome
| EnsureDirs
| Lighthouse (i : nat)
| WriteLighthouseReport (i : nat)
| WriteWebVitals (i : nat)
| WriteAccessibilityIssues (i : nat)
| Screenshot
| WriteHistory
| ReadHistory
| WriteTrendReport
| WriteDetailedReport
| CompareLighthouse
| WriteComparisonReport
| KillChrome.

(** What is thrown: the rejection of an external call, or the
    [TypeError] of a property read on [undefined]. *)
Inductive Error :=
| Rejected (c : Call)
| TypeError.

(** The world outside the program: which calls reject, the audit result
    of each run, the audit result of the comparison URL, and the history
    entries already on disk. *)
Record World := mkWorld {
  rejects : Call -> bool;
  audit : nat -> Lhr;
  compareAudit : Lhr;
  history : list TestResult
}.

(** The observable effects of a session. *)
Inductive Event :=
| Called (c : Call)
| HistorySaved (r : TestResult)
| TrendReport (historyData : list TestResult)
| DetailedReport (d : ReportGenerator.ReportData)
| ComparisonReport (h : ComparisonReporter.ComparisonHtml)
| LoggedError (e : Error)
| ConsoleError (e : Error)
| Exit (code : Z).

(** Computations: the events performed, then a thrown error or a value. *)
Definition M (A : Type) : Type := list Event * (Error + A).

Definition ret {A} (a : A) : M A := ([], inr a).

Definition throw {A} (e : Error) : M A := ([], inl e).

Definition emit (ev : Event) : M unit := ([ev], inr tt).

Definition bind {A B} (m : M A) (f : A -> M B) : M B :=
  match m with
  | (t1, inl e) => (t1, inl e)
  | (t1, inr a) => let '(t2, r) := f a in (t1 ++ t2, r)
  end.

#[export] Instance M_ret : MRet M := @ret.
#[export] Instance M_bind : MBind M := fun A B f m => bind m f.

(** [await c]: the call is made; it rejects when the world says so. *)
Definition call (w : World) (c : Call) : M unit :=
  ([Called c], if rejects w c then inl (Rejected c) else inr tt).

(** [try { body } catch (error) { handler } finally { finalizer }]. *)
Definition try_catch_finally (body : M unit) (handler : Error -> M unit)
    (finalizer : M unit) : M unit :=
  let '(t1, r1) :=
    match body with
    | (t, inl e) => let '(t', r) := handler e in (t ++ t', r)
    | (t, inr a) => (t, inr a)
    end in
  match finalizer with
  | (t2, inl e) => (t1 ++ t2, inl e)
  | (t2, inr _) => (t1 ++ t2, r1)
  end.

(** A property read [o[k]] followed by a use of the value, which throws
    when the property is missing. *)
Definition defined {A} (o : option A) : M A :=
  match o with
  | Some a => ret a
  | None => throw TypeError
  end.

(** The state of the run loop: the per-category score lists and the
    Web-Vitals result of each run. *)
Record Collected := mkCollected {
  scores : gmap string (list number);
  webVitalsResults : list WebVitalsResult
}.

(** The initial [scores] object. *)
Definition initial_scores : gmap string (list number) :=
  <["seo" := []]> (<["best-practices" := []]> (<["accessibility" := []]>
    (<["performance" := []]> ∅))).

(** The score collection of one run: for each configured category that
    the audit result has, [scores[category].push(score * 100)]. *)
Fixpoint collect_scores (cats : list string) (lhr : Lhr)
    (scores : gmap string (list number)) : M (gmap string (list number)) :=
  match cats with
  | [] => ret scores
  | category :: rest =>
      match WebVitals.categories lhr !! category with
      | Some score =>
          l ← defined (scores !! category);
          collect_scores rest lhr (<[category := l ++ [Double.mul score 100]]> scores)
      | None => collect_scores rest lhr scores
      end
  end.

(** The accessibility audits of a run that are reported as issues. *)
Definition accessibilityIssues (lhr : Lhr) : list (string * Audit) :=
  match audits lhr with
  | None => []
  | Some audits =>
      List.filter (fun '(id, audit) =>
                     String.prefix "accessibility/" id
                     && match score audit with
                        | Some s => negb (Qeq_bool s 1)
                        | None => false
                        end)
                  (map_to_list audits)
  end.

(** One iteration of the run loop, for the run number [i]. *)
Definition run_once (w : World) (config : TestConfig) (i : nat) (st : Collected)
    : M Collected :=
  call w (Lighthouse i);;
  let lhr := audit w i in
  call w (WriteLighthouseReport i);;
  let webVitalsMetrics := extractWebVitals lhr in
  let webVitalsResult :=
    {| WebVitals.url := url config;
       metrics := webVitalsMetrics;
       WebVitals.device := device config |} in
  let webVitalsResults := webVitalsResults st ++ [webVitalsResult] in
  call w (WriteWebVitals i);;
  (if bool_decide (accessibilityIssues lhr = [])
   then ret tt
   else call w (WriteAccessibilityIssues i));;
  scores ← collect_scores (categories config) lhr (scores st);
  ret {| scores := scores; webVitalsResults := webVitalsResults |}.

(** [for (let i = ...; i <= config.testCount; i++)], with [n] iterations
    left. *)
Fixpoint run_loop (w : World) (config : TestConfig) (n i : nat) (st : Collected)
    : M Collected :=
  match n with
  | O => ret st
  | S n' =>
      st' ← run_once w config i st;
      run_loop w config n' (S i) st'
  end.

(** [scores.reduce((sum, score) => sum + score, 0)]. *)
Definition reduce_sum (l : list number) : number :=
  foldl (fun sum score => Double.add sum score) 0 l.

(** The averaging loop over [config.categories]. *)
Fixpoint average (cats : list string) (scores : gmap string (list number))
    (avgScores : gmap string number) : M (gmap string number) :=
  match cats with
  | [] => ret avgScores
  | category :: rest =>
      l ← defined (scores !! category);
      if bool_decide (0 < length l)%nat
      then
        let avgScore := Double.div (reduce_sum l) (inject_Z (Z.of_nat (length l))) in
        average rest scores (<[category := avgScore]> avgScores)
      else average rest scores avgScores
  end.

(** The scores of the comparison audit, which is run once. *)
Definition compareScores (cats : list string) (lhr : Lhr) : gmap string number :=
  foldl (fun (compareScores : gmap string number) category =>
           match WebVitals.categories lhr !! category with
           | Some score => <[category := Double.mul score 100]> compareScores
           | None => compareScores
           end)
        ∅ cats.

(** [generateDetailedReport]: the data are prepared, then the file is
    written. *)
Definition generateDetailedReport (w : World) (results : TestResult)
    (webVitalsResults : list WebVitalsResult) : M unit :=
  reportData ← defined (ReportGenerator.reportData results webVitalsResults);
  call w WriteDetailedReport;;
  emit (DetailedReport reportData).

(** [generateComparisonReport]. *)
Definition generateComparisonReport (w : World)
    (baselineResults currentResults : TestResult) : M unit :=
  let comparisonData := ComparisonReporter.comparisonData baselineResults currentResults in
  let htmlContent := ComparisonReporter.generateComparisonHtml comparisonData in
  call w WriteComparisonReport;;
  emit (ComparisonReport htmlContent).

(** The body of the [try] block of [runLighthouseTest]. *)
Definition session (w : World) (config : TestConfig) : M unit :=
  call w EnsureDirs;;
  st ← run_loop w config (testCount config) 1
         {| scores := initial_scores; webVitalsResults := [] |};
  avgScores ← average (categories config) (scores st) ∅;
  call w Screenshot;;
  last ← defined (ReportGenerator.last_result (webVitalsResults st));
  let testResult :=
    {| TestResult.url := url config;
       TestResult.device := device config;
       TestResult.scores := avgScores;
       TestResult.webVitals := metrics last |} in
  (if saveHistory config
   then
     call w WriteHistory;;
     emit (HistorySaved testResult);;
     call w ReadHistory;;
     let historyData := history w ++ [testResult] in
     if bool_decide (1 < length historyData)%nat
     then call w WriteTrendReport;; emit (TrendReport historyData)
     else ret tt
   else ret tt);;
  generateDetailedReport w testResult (webVitalsResults st);;
  match compareUrl config with
  | Some _ =>
      call w CompareLighthouse;;
      let compareResult := compareAudit w in
      let compareWebVitalsMetrics := extractWebVitals compareResult in
      let compareTestResult :=
        {| TestResult.url := default "" (compareUrl config);
           TestResult.device := device config;
           TestResult.scores := compareScores (categories config) compareResult;
           TestResult.webVitals := compareWebVitalsMetrics |} in
      generateComparisonReport w testResult compareTestResult
  | None => ret tt
  end.

(** [runLighthouseTest]: the arguments are parsed and Chrome is launched
    before the [try]; the [catch] logs the error and the [finally] kills
    Chrome. *)
Definition runLighthouseTest (w : World) (config : TestConfig) : M unit :=
  call w ParseArgs;;
  call w LaunchChrome;;
  try_catch_finally
    (session w config)
    (fun error => emit (LoggedError error))
    (call w KillChrome).

(** The program: [runLighthouseTest().catch(error => { console.error(...);
    process.exit(1) })].  When the promise resolves the process ends by
    itself, with the exit code 0. *)
Definition main (w : World) (config : TestConfig) : list Event :=
  match runLighthouseTest w config with
  | (t, inl error) => t ++ [ConsoleError error; Exit 1]
  | (t, inr _) => t ++ [Exit 0]
  end.

(** The exit code of a finished trace. *)
Definition exit_code (t : list Event) : option Z :=
  match last t with
  | Some (Exit code) => Some code
  | _ => None
  end.

End Index.

(** ** Vocabulary of the specification *)

Module Spec.

(** The three bands of the evaluator. *)
Inductive Band := good | needs_improvement | poor.

(** The label under which the source stores each band; the report cards
    map these labels to the CSS classes [good], [needs-improvement] and
    [poor]. *)
Definition band_label (b : Band) : string :=
  match b with
  | good => label_good
  | needs_improvement => label_needs_improvement
  | poor => label_poor
  end.

(** The threshold table of the specification: lower and upper bound. *)
Definition thresholds (k : MetricKey) : number * number :=
  match k with
  | kFCP => (1800, 3000)
  | kLCP => (2500, 4000)
  | kCLS => (0.1, 0.25)
  | kFID => (100, 300)
  | kTTI => (3800, 7300)
  | kTBT => (200, 600)
  | kTTFB => (800, 1800)
  end.

(** One block of [evaluateWebVitals], with its name and constants as
    parameters. *)
Definition eval_step (name : string) (lo hi : number) (value : option number)
    (evaluations : gmap string string) : gmap string string :=
  match value with
  | Some v =>
      if lt v lo then <[name := label_good]> evaluations
      else if lt v hi then <[name := label_needs_improvement]> evaluations
      else <[name := label_poor]> evaluations
  | None => evaluations
  end.

(** The label chosen by one block. *)
Definition classify (lo hi v : number) : string :=
  if lt v lo then label_good
  else if lt v hi then label_needs_improvement
  else label_poor.

(** The body of the loop of [calculateWebVitalsDiffs]. *)
Definition diff_step (baselineWebVitals currentWebVitals : WebVitalsMetrics)
    (diffs : gmap string ComparisonReporter.VitalDiff) (key : MetricKey)
    : gmap string ComparisonReporter.VitalDiff :=
  match get key baselineWebVitals, get key currentWebVitals with
  | Some baselineValue, Some currentValue =>
      let absoluteDiff := currentValue - baselineValue in
      <[key_name key :=
          {| ComparisonReporter.absolute := absoluteDiff;
             ComparisonReporter.percentage :=
               if nonzero baselineValue
               then (absoluteDiff / baselineValue) * 100 else 0;
             ComparisonReporter.improved := lt absoluteDiff 0 |}]> diffs
  | _, _ => diffs
  end.

(** The rows the loop of [generateWebVitalsComparisonRows] appends for
    one entry of [webVitalsInfo]: one row, or none. *)
Definition row_step (baselineWebVitals currentWebVitals : WebVitalsMetrics)
    (rows : list ComparisonReporter.VitalRow)
    (entry : MetricKey * (string * string)) : list ComparisonReporter.VitalRow :=
  let '(key, (name, unit)) := entry in
           match get key baselineWebVitals, get key currentWebVitals with
           | Some baselineValue, Some currentValue =>
               let diff := currentValue - baselineValue in
               let percentDiff :=
                 if nonzero baselineValue then (diff / baselineValue) * 100 else 0 in
               let diffClass :=
                 if lt diff 0 then ComparisonReporter.improvement
                 else if gt diff 0 then ComparisonReporter.regression
                 else ComparisonReporter.neutral in
               let diffPrefix := if lt diff 0 then "" else "+" in
               let display v :=
                 match key with
                 | kCLS => ComparisonReporter.toFixed3 v
                 | _ => ComparisonReporter.rounded (ComparisonReporter.Math_round v) unit
                 end in
               rows ++ [ {| ComparisonReporter.row_key := key;
                            ComparisonReporter.row_name := name;
                            ComparisonReporter.baselineDisplay := display baselineValue;
                            ComparisonReporter.currentDisplay := display currentValue;
                            ComparisonReporter.diffClass := diffClass;
                            ComparisonReporter.diffPrefix := diffPrefix;
                            ComparisonReporter.diffDisplay := display diff;
                            ComparisonReporter.percentDiff := percentDiff |} ]
           | _, _ => rows
           end.

(** The band the evaluator stores for metric [k] of [metrics], if any. *)
Definition band_of (metrics : WebVitalsMetrics) (k : MetricKey) (b : Band) : Prop :=
  evaluateWebVitals metrics !! key_name k = Some (band_label b).

(** The audit record the extractor reads for metric [k]: [None] when
    [lhr.audits] or the named audit is missing. *)
Definition named_audit (lhr : Lhr) (k : MetricKey) : option Audit :=
  match audits lhr with
  | Some a => a !! audit_id k
  | None => None
  end.

(** Both sides have a value for metric [k]. *)
Definition both_present (baseline current : WebVitalsMetrics) (k : MetricKey) : Prop :=
  is_Some (get k baseline) /\ is_Some (get k current).

(** The order of the rationals is decidable. *)
#[export] Instance Qlt_dec : RelDecision Qlt.
Proof.
  intros a b. destruct (Qlt_le_dec a b) as [H|H]; [left; exact H|right].
  apply Qle_not_lt, H.
Defined.

(** The number of elements of a list that satisfy a property. *)
Definition count {A} (P : A -> Prop) `{!forall x, Decision (P x)} (l : list A) : nat :=
  length (filter P l).

(** The classification of a category delta, with its dead zone of one
    point on each side. *)
Definition category_class (delta : number) : ComparisonReporter.DiffClass :=
  if decide (1 < delta) then ComparisonReporter.improvement
  else if decide (delta < -1) then ComparisonReporter.regression
  else ComparisonReporter.neutral.

(** The arithmetic mean of a non-empty list of numbers, in double
    arithmetic: the numbers are added up from the first to the last, and
    the sum is divided by their count. *)
Definition mean (l : list number) : number :=
  Double.div (foldl Double.add 0 l) (inject_Z (Z.of_nat (length l))).

(** The rescaled scores of category [c] in the runs that have it. *)
Definition present_scores (c : string) (runs : list Lhr) : list number :=
  omap (fun lhr => (fun s => Double.mul s 100) <$> (categories lhr !! c)) runs.

(** The scores collected for category [c]: those of the runs that have
    it, each as often as [c] is listed in the configured categories. *)
Definition collected_scores (cats : list string) (c : string) (runs : list Lhr)
    : list number :=
  flat_map (replicate (count (fun c' => c' = c) cats)) (present_scores c runs).

(** The audit results of the [n] runs of a session, in order. *)
Definition runs_of (w : Index.World) (n : nat) : list Lhr :=
  Index.audit w <$> seq 1 n.

(** What one run adds to the score list of category [c]: its rescaled
    score, once for each occurrence of [c] in the configured list. *)
Definition contribution (cats : list string) (c : string) (lhr : Lhr) : list number :=
  match categories lhr !! c with
  | Some s => replicate (count (fun c' => c' = c) cats) (Double.mul s 100)
  | None => []
  end.

(** The score lists after the score collection of one run, when no
    property read fails. *)
Definition pushed (cats : list string) (lhr : Lhr) (scores : gmap string (list number))
    : gmap string (list number) :=
  foldl (fun (scores : gmap string (list number)) category =>
           match categories lhr !! category with
           | Some score => alter (fun l => l ++ [Double.mul score 100]) category scores
           | None => scores
           end)
        scores cats.

(** The averages after the averaging loop, when no property read
    fails. *)
Definition averaged (cats : list string) (scores : gmap string (list number))
    (avgScores : gmap string number) : gmap string number :=
  foldl (fun (avgScores : gmap string number) category =>
           match scores !! category with
           | Some (x :: l) =>
               <[category := Double.div (Index.reduce_sum (x :: l))
                                        (inject_Z (Z.of_nat (length (x :: l))))]>
                 avgScores
           | _ => avgScores
           end)
        avgScores cats.

(** The score lists when the run loop of a session has completed. *)
Definition final_scores (w : Index.World) (config : Index.TestConfig)
    : gmap string (list number) :=
  foldl (fun s lhr => pushed (Index.categories config) lhr s) Index.initial_scores
        (runs_of w (Index.testCount config)).

(** The Web-Vitals result recorded for one run. *)
Definition result_of (config : Index.TestConfig) (lhr : Lhr) : WebVitalsResult :=
  {| WebVitals.url := Index.url config;
     metrics := extractWebVitals lhr;
     WebVitals.device := Index.device config |}.

(** The aggregated result of a session of at least one run. *)
Definition aggregated (w : Index.World) (config : Index.TestConfig) : TestResult :=
  {| TestResult.url := Index.url config;
     TestResult.device := Index.device config;
     TestResult.scores := averaged (Index.categories config) (final_scores w config) ∅;
     TestResult.webVitals := extractWebVitals (Index.audit w (Index.testCount config)) |}.

(** The result of the comparison audit. *)
Definition compared (w : Index.World) (config : Index.TestConfig) : TestResult :=
  {| TestResult.url := default "" (Index.compareUrl config);
     TestResult.device := Index.device config;
     TestResult.scores :=
       Index.compareScores (Index.categories config) (Index.compareAudit w);
     TestResult.webVitals := extractWebVitals (Index.compareAudit w) |}.

(** The categories for which the tool keeps a score list. *)
Definition known_category (c : string) : Prop :=
  c = "performance" \/ c = "accessibility" \/ c = "best-practices" \/ c = "seo".

(** Every configured category is one the tool keeps a score list for. *)
Definition all_known (config : Index.TestConfig) : Prop :=
  forall c, c ∈ Index.categories config -> known_category c.

(** The aggregated scores are the means of the present scores: a
    configured category gets the mean of its rescaled scores over the
    runs that have it, and no score when no run has it; other keys get
    no score.  The mean is the one the program stores, computed in double
    arithmetic.  When a category is listed more than once its scores are
    collected once for each occurrence, and the mean is taken over that
    longer list. *)
Definition mean_of_present (cats : list string) (runs : list Lhr)
    (avgScores : gmap string number) : Prop :=
  forall c : string,
    (c ∈ cats -> present_scores c runs <> [] ->
     exists v, avgScores !! c = Some v
               /\ v = mean (collected_scores cats c runs)
               /\ (NoDup cats -> v = mean (present_scores c runs)))
    /\ (c ∉ cats \/ present_scores c runs = [] -> avgScores !! c = None).

(** What an event of a session may be: a report carries the aggregated
    result of the session, which then has at least one run. *)
Definition expected_event (w : Index.World) (config : Index.TestConfig)
    (ev : Index.Event) : Prop :=
  match ev with
  | Index.Called _ => True
  | Index.HistorySaved r =>
      (0 < Index.testCount config)%nat /\ all_known config
      /\ r = aggregated w config
  | Index.TrendReport historyData =>
      (0 < Index.testCount config)%nat /\ all_known config
      /\ historyData = Index.history w ++ [aggregated w config]
  | Index.DetailedReport d =>
      (0 < Index.testCount config)%nat /\ all_known config
      /\ ReportGenerator.reportData
           (aggregated w config)
           (result_of config <$> runs_of w (Index.testCount config)) = Some d
  | Index.ComparisonReport h =>
      (0 < Index.testCount config)%nat /\ all_known config
      /\ h = ComparisonReporter.generateComparisonHtml
               (ComparisonReporter.comparisonData (aggregated w config)
                                                  (compared w config))
  | Index.LoggedError _ | Index.ConsoleError _ | Index.Exit _ => False
  end.

(** The events that write a report or a history entry. *)
Definition is_report (ev : Index.Event) : Prop :=
  match ev with
  | Index.HistorySaved _ | Index.TrendReport _
  | Index.DetailedReport _ | Index.ComparisonReport _ => True
  | _ => False
  end.

(** The external calls of the run number [i]. *)
Definition run_call (i : nat) (c : Index.Call) : Prop :=
  c = Index.Lighthouse i \/ c = Index.WriteLighthouseReport i
  \/ c = Index.WriteWebVitals i \/ c = Index.WriteAccessibilityIssues i.

(** The events that follow the failure of the audit of run [i]: no
    report, no comparison audit and no audit of a later run. *)
Definition aborted_at (i : nat) (ev : Index.Event) : Prop :=
  ~ is_report ev
  /\ ev <> Index.Called Index.CompareLighthouse
  /\ forall j, (i < j)%nat -> ev <> Index.Called (Index.Lighthouse j).

(** An error was raised during the session: it was logged by the
    [catch] of [runLighthouseTest] or reached the top-level handler. *)
Definition error_raised (w : Index.World) (config : Index.TestConfig) : Prop :=
  exists e, Index.LoggedError e ∈ Index.main w config
            \/ Index.ConsoleError e ∈ Index.main w config.

(** The claim that every raised error makes the process exit with a
    non-zero code. *)
Definition exits_nonzero_on_error (w : Index.World) (config : Index.TestConfig) : Prop :=
  error_raised w config ->
  exists code, Index.exit_code (Index.main w config) = Some code /\ code <> 0%Z.

(** How the process ends once Chrome has been killed. *)
Definition ending (w : Index.World) : list Index.Event :=
  if Index.rejects w Index.KillChrome
  then [Index.ConsoleError (Index.Rejected Index.KillChrome); Index.Exit 1]
  else [Index.Exit 0].

(** The error [e], thrown after the events [t], was raised where [t]
    ends: when it is the rejection of a call, that call is the last event
    of [t], and nothing was done after it. *)
Definition raised_at_end (w : Index.World) (e : Index.Error) (t : list Index.Event)
    : Prop :=
  match e with
  | Index.Rejected c =>
      Index.rejects w c = true /\ exists t', t = t' ++ [Index.Called c]
  | Index.TypeError => True
  end.

(** No audit, of a run or of the comparison URL, and no report among the
    events [t]. *)
Definition no_audit_or_report (t : list Index.Event) : Prop :=
  forall ev, ev ∈ t ->
             ~ is_report ev
             /\ ev <> Index.Called Index.CompareLighthouse
             /\ forall i, ev <> Index.Called (Index.Lighthouse i).

End Spec.

(** ** Example data *)

Module Examples.

Definition no_metrics : WebVitalsMetrics :=
  mkMetrics None None None None None None None.

(** A performance score of 70 against 70.5. *)
Definition scores_70 : ComparisonReporter.ComparisonData :=
  {| ComparisonReporter.baseline :=
       TestResult.mk "https://a.example" "Desktop"
                     (<["performance" := 70]> ∅) no_metrics;
     ComparisonReporter.current :=
       TestResult.mk "https://b.example" "Desktop"
                     (<["performance" := 70.5]> ∅) no_metrics |}.

(** The default configuration, for [n] runs. *)
Definition config_of (n : nat) : Index.TestConfig :=
  {| Index.url := "https://playwright.dev";
     Index.testCount := n;
     Index.categories := ["performance"; "accessibility"; "best-practices"; "seo"];
     Index.device := "Desktop";
     Index.compareUrl := None;
     Index.saveHistory := true |}.

(** An audit result with a performance score, an accessibility score
    when [acc] is given, and a First Contentful Paint. *)
Definition lhr_of (perf : number) (acc : option number) (fcp : number) : Lhr :=
  {| audits := Some (<["first-contentful-paint" := mkAudit (Some 1) (Some fcp)]> ∅);
     categories :=
       match acc with
       | Some a => <["accessibility" := a]> (<["performance" := perf]> ∅)
       | None => <["performance" := perf]> ∅
       end |}.

(** Three runs scoring 0.8, 1 and 0.6 in performance (the doubles that
    these literals denote); the second run has no accessibility category;
    the First Contentful Paint is 1000, 2000 and 3000. *)
Definition three_runs (i : nat) : Lhr :=
  match i with
  | 1%nat => lhr_of (Double.round 0.8) (Some (Double.round 0.9)) 1000
  | 2%nat => lhr_of 1 None 2000
  | _ => lhr_of (Double.round 0.6) (Some (Double.round 0.7)) 3000
  end.

(** A world in which no call is rejected. *)
Definition calm : Index.World :=
  {| Index.rejects := fun _ => false;
     Index.audit := three_runs;
     Index.compareAudit := lhr_of 1 None 0;
     Index.history := [] |}.

(** A world in which the audit of the second run fails. *)
Definition second_audit_fails : Index.World :=
  {| Index.rejects :=
       fun c => match c with Index.Lighthouse 2 => true | _ => false end;
     Index.audit := three_runs;
     Index.compareAudit := lhr_of 1 None 0;
     Index.history := [] |}.

(** A world in which the write of the detailed report fails. *)
Definition report_write_fails : Index.World :=
  {| Index.rejects :=
       fun c => match c with Index.WriteDetailedReport => true | _ => false end;
     Index.audit := three_runs;
     Index.compareAudit := lhr_of 1 None 0;
     Index.history := [] |}.

(** A session of one run scoring 0.58 in performance, compared with a
    page scoring 0.59. *)
Definition one_run_058 : Index.World :=
  {| Index.rejects := fun _ => false;
     Index.audit := fun _ => lhr_of (Double.round 0.58) None 0;
     Index.compareAudit := lhr_of (Double.round 0.59) None 0;
     Index.history := [] |}.

Definition compared_config : Index.TestConfig :=
  {| Index.url := "https://a.example";
     Index.testCount := 1;
     Index.categories := ["performance"; "accessibility"; "best-practices"; "seo"];
     Index.device := "Desktop";
     Index.compareUrl := Some "https://b.example";
     Index.saveHistory := false |}.

End Examples.

(** ** cli.ts *)

Module Cli.

(** The colours of the console output. *)
Inductive Colour := green | yellow | red | blue | cyan | gray.

(** [a >= b] on numbers. *)
Definition ge (a b : number) : bool := Qle_bool b a.

(** The text of a formatted value: [v.toFixed(digits)] (kept symbolic),
    [Math.round(v)] followed by the unit, the number itself followed by
    the unit, or [N/A]. *)
Inductive Text :=
| fixed (digits : nat) (v : number)
| rounded (v : Z) (unit : string)
| plain (v : number) (unit : string)
| not_available.

(** A name (empty for a bare value) and a coloured value. *)
Record Coloured := mkColoured {
  label : string;
  colour : Colour;
  text : Text
}.

Definition formatScore (score : number) : Coloured :=
  let colorFn :=
    if ge score 90 then green
    else if ge score 50 then yellow
    else red in
  {| label := ""; colour := colorFn; text := fixed 1 score |}.

(** The branch of [formatWebVital] shared by the six time metrics. *)
Definition timed (name : string) (lo hi value : number) (unit : string) : Coloured :=
  {| label := name;
     colour := if lt value lo then green else if lt value hi then yellow else red;
     text := rounded (ComparisonReporter.Math_round value) unit |}.

Definition formatWebVital (name : string) (value : option number) (unit : string)
    : Coloured :=
  match value with
  | None => {| label := name; colour := gray; text := not_available |}
  | Some value =>
      if bool_decide (name = "FCP") then timed name 1800 3000 value unit
      else if bool_decide (name = "LCP") then timed name 2500 4000 value unit
      else if bool_decide (name = "CLS") then
        {| label := name;
           colour := if lt value 0.1 then green
                     else if lt value 0.25 then yellow else red;
           text := fixed 3 value |}
      else if bool_decide (name = "FID") then timed name 100 300 value unit
      else if bool_decide (name = "TTI") then timed name 3800 7300 value unit
      else if bool_decide (name = "TBT") then timed name 200 600 value unit
      else if bool_decide (name = "TTFB") then timed name 800 1800 value unit
      else {| label := name; colour := blue; text := plain value unit |}
  end.

(** [Math.floor]. *)
Definition Math_floor (v : number) : Z := Qfloor v.

(** The integer part of a number, rounded towards zero. *)
Definition trunc (v : number) : Z :=
  if Qle_bool 0 v then Qfloor v else Qceiling v.

(** [a % b] for a divisor that is not zero: the remainder has the sign of
    the dividend.  The remainder of two doubles is a double, and is not
    rounded. *)
Definition rem (a b : number) : number := a - b * inject_Z (trunc (a / b)).

(** [s.padStart(targetLength, c)] for a one-character pad string. *)
Definition padStart (targetLength : nat) (c : Ascii.ascii) (s : string) : string :=
  String.string_of_list_ascii (replicate (targetLength - String.length s) c) +:+ s.

(** [n.toString()] for a whole number whose digits are printed in full
    (one of magnitude below [2^53]). *)
Definition toString (n : Z) : string := pretty n.

(** The text [`${mins}:${secs}`] that [formatTime] returns: the minutes
    are kept as the whole number that the template prints, the seconds
    are the text made of them. *)
Record Time := mkTime {
  minutes : Z;
  seconds_text : string
}.

Definition formatTime (seconds : number) : Time :=
  let mins := Math_floor (Double.div seconds 60) in
  let secs := Math_floor (rem seconds 60) in
  {| minutes := mins; seconds_text := padStart 2 "0"%char (toString secs) |}.

(** The fields of [class ProgressBar] that [update] reads; [barLength] is
    an integer (30 by default). *)
Record ProgressBar := mkProgressBar {
  barLength : Z;
  total : number;
  startTime : number
}.

(** What [update] draws: the numbers of filled and empty cells, the
    fraction done ([None] when it is infinite or not a number), the elapsed
    seconds and the estimated remaining seconds ([None] when not finite, in
    which case no estimate is shown). *)
Record Bar := mkBar {
  filledLength : Z;
  emptyLength : Z;
  percent : option number;
  elapsed : number;
  eta : option number
}.

(** The result of [update]: a bar, or the [RangeError] of
    [String.prototype.repeat] on a negative or infinite count. *)
Inductive Update :=
| Drawn (bar : Bar)
| RangeError.

(** [update(current)] at the time [now].  A zero [total] is written out:
    with [current] zero the fraction is [NaN], which [Math.round] keeps and
    [repeat] takes as zero; otherwise the fraction is infinite, and so is
    the number of filled cells, unless the bar has no cell (zero times
    infinity is [NaN]). *)
Definition update (pb : ProgressBar) (now : number) (current : number) : Update :=
  let elapsed := (now - startTime pb) / 1000 in
  let eta :=
    if nonzero current then Some (elapsed / current * (total pb - current)) else None in
  if nonzero (total pb)
  then
    let percent := current / total pb in
    let filledLength := ComparisonReporter.Math_round (inject_Z (barLength pb) * percent) in
    let emptyLength := (barLength pb - filledLength)%Z in
    if (filledLength <? 0)%Z || (emptyLength <? 0)%Z
    then RangeError
    else Drawn {| filledLength := filledLength; emptyLength := emptyLength;
                  percent := Some percent; elapsed := elapsed; eta := eta |}
  else if nonzero current
  then
    if (barLength pb =? 0)%Z
    then Drawn {| filledLength := 0; emptyLength := 0; percent := None;
                  elapsed := elapsed; eta := eta |}
    else RangeError
  else Drawn {| filledLength := 0; emptyLength := 0; percent := None;
                elapsed := elapsed; eta := None |}.

(** [enum LogLevel], with its numeric values. *)
Inductive LogLevel := DEBUG | INFO | SUCCESS | WARNING | ERROR.

Definition level_value (l : LogLevel) : Z :=
  match l with
  | DEBUG => 0 | INFO => 1 | SUCCESS => 2 | WARNING => 3 | ERROR => 4
  end.

(** A line written to the console: to [console.error] or [console.log],
    in a colour. *)
Record Line := mkLine {
  to_stderr : bool;
  line_colour : Colour;
  line_text : string
}.

(** The level of a [Logger] is at most [l]. *)
Definition enabled (level l : LogLevel) : bool :=
  (level_value level <=? level_value l)%Z.

Definition debug (level : LogLevel) (message : string) : list Line :=
  if enabled level DEBUG then [mkLine false gray ("[调试] " +:+ message)] else [].

Definition info (level : LogLevel) (message : string) : list Line :=
  if enabled level INFO then [mkLine false blue ("[信息] " +:+ message)] else [].

Definition success (level : LogLevel) (message : string) : list Line :=
  if enabled level SUCCESS then [mkLine false green ("[成功] " +:+ message)] else [].

Definition warning (level : LogLevel) (message : string) : list Line :=
  if enabled level WARNING then [mkLine false yellow ("[警告] " +:+ message)] else [].

(** [error(message, error?)]: the optional error is given by its stack or
    message. *)
Definition error (level : LogLevel) (message : string) (error : option string)
    : list Line :=
  if enabled level ERROR
  then mkLine true red ("[错误] " +:+ message)
       :: match error with
          | Some stack => [mkLine true red stack]
          | None => []
          end
  else [].

End Cli.

(** ** The score cards of the detailed report *)

Module DetailedHtml.

(** One score card of [generateHtmlReport]. *)
Record ScoreCard := mkScoreCard {
  scoreClass : string;
  categoryName : string;
  score : number
}.

Definition getCategoryName (category : string) : string :=
  if bool_decide (category = "performance") then "性能"
  else if bool_decide (category = "accessibility") then "可访问性"
  else if bool_decide (category = "best-practices") then "最佳实践"
  else if bool_decide (category = "seo") then "SEO"
  else category.

Definition scoreCard (entry : string * number) : ScoreCard :=
  let '(category, score) := entry in
  let scoreClass :=
    if Cli.ge score 90 then "good"
    else if Cli.ge score 50 then "needs-improvement"
    else "poor" in
  {| scoreClass := scoreClass;
     categoryName := getCategoryName category;
     score := score |}.

(** The score cards of the report, one for each entry of [data.scores]. *)
Definition scoreCards (data : ReportGenerator.ReportData) : list ScoreCard :=
  scoreCard <$> ComparisonReporter.Object_entries (ReportGenerator.scores data).

End DetailedHtml.

(** ** The radar chart of the comparison report *)

(** The script of the comparison page that prepares the radar chart, from
    the two metrics records embedded in the page. *)
Module ComparisonChart.

(** [v || 0] on a metric value. *)
Definition or_zero (v : option number) : number :=
  match v with
  | Some x => if nonzero x then x else 0
  | None => 0
  end.

(** The metrics drawn: those that both records have a value for. *)
Definition webVitalsKeys (baselineWebVitals currentWebVitals : WebVitalsMetrics)
    : list MetricKey :=
  List.filter (fun key =>
                 match get key baselineWebVitals, get key currentWebVitals with
                 | Some _, Some _ => true
                 | _, _ => false
                 end)
              Object_keys.

Definition maxValues (baselineWebVitals currentWebVitals : WebVitalsMetrics)
    (key : MetricKey) : number :=
  Qmax (or_zero (get key baselineWebVitals)) (or_zero (get key currentWebVitals)).

(** The table [referenceValues]; it has no entry for CLS. *)
Definition referenceValues (key : MetricKey) : option number :=
  match key with
  | kFCP => Some 3000
  | kLCP => Some 4000
  | kTTI => Some 7300
  | kTBT => Some 600
  | kTTFB => Some 1800
  | kFID => Some 300
  | kCLS => None
  end.

(** The value drawn for [value], the value of metric [key] in one of the
    two records. *)
Definition normalized (baselineWebVitals currentWebVitals : WebVitalsMetrics)
    (key : MetricKey) (value : number) : number :=
  match key with
  | kCLS => 100 - (value / 0.25 * 100)
  | _ =>
      let refValue :=
        match referenceValues key with
        | Some r => if nonzero r then r else maxValues baselineWebVitals currentWebVitals key
        | None => maxValues baselineWebVitals currentWebVitals key
        end in
      Qmax 0 (Qmin 100 (100 - (value / refValue * 100)))
  end.

(** The labels and the two data sets of the radar chart. *)
Record Radar := mkRadar {
  labels : list MetricKey;
  baselineData : list number;
  currentData : list number
}.

Definition radar (baselineWebVitals currentWebVitals : WebVitalsMetrics) : Radar :=
  let keys := webVitalsKeys baselineWebVitals currentWebVitals in
  {| labels := keys;
     baselineData :=
       (fun key => normalized baselineWebVitals currentWebVitals key
                              (default 0 (get key baselineWebVitals))) <$> keys;
     currentData :=
       (fun key => normalized baselineWebVitals currentWebVitals key
                              (default 0 (get key currentWebVitals))) <$> keys |}.

End ComparisonChart.

(** ** The configuration of a session *)

(** The start of [runLighthouseTest]: the command line, the configuration
    file and their merge. *)
Module Options.

(** [argv], the parsed command line, typed by the declared options;
    [argv_count] is [None] when the text given for [--count] is not a
    number. *)
Record Argv := mkArgv {
  argv_url : string;
  argv_count : option number;
  argv_device : string;
  argv_config : option string;
  argv_compare : option string;
  argv_verbose : bool;
  argv_save_history : option bool
}.

(** The keys of [TestConfig] that the configuration file sets, with values
    of their declared types.  The throttling profile is left out, as in
    [Index.TestConfig]. *)
Record FileConfig := mkFileConfig {
  file_url : option string;
  file_testCount : option number;
  file_categories : option (list string);
  file_device : option string;
  file_compareUrl : option string;
  file_saveHistory : option bool
}.

(** [{}] *)
Definition empty : FileConfig :=
  {| file_url := None; file_testCount := None; file_categories := None;
     file_device := None; file_compareUrl := None; file_saveHistory := None |}.

(** [s] is a truthy string. *)
Definition truthy (s : option string) : bool :=
  match s with
  | Some s => negb (bool_decide (s = ""))
  | None => false
  end.

(** [fileConfig]: the content of the file named by [--config]; [read] is
    the value read from it, [None] when the file does not exist or
    reading it throws (the error is logged and the configuration stays
    empty). *)
Definition fileConfig (argv : Argv) (read : option FileConfig) : FileConfig :=
  if truthy (argv_config argv) then default empty read else empty.

(** [s || d] on strings. *)
Definition or_string (s d : string) : string :=
  if bool_decide (s = "") then d else s.

(** The merged [testCount], a number: that of the file, or
    [argv.count || 5]. *)
Definition testCount (argv : Argv) (fileConfig : FileConfig) : number :=
  match file_testCount fileConfig with
  | Some n => n
  | None =>
      match argv_count argv with
      | Some c => if nonzero c then c else 5
      | None => 5
      end
  end.

(** The number of passes of [for (let i = 1; i <= testCount; i++)]. *)
Definition passes (testCount : number) : nat := Z.to_nat (Qfloor testCount).

(** The merged [compareUrl]: that of the file, or [argv.compare]. *)
Definition compareUrl (argv : Argv) (fileConfig : FileConfig) : option string :=
  match file_compareUrl fileConfig with
  | Some u => Some u
  | None => argv_compare argv
  end.

(** [config]: the defaults and the command line, overridden by the keys of
    the file ([...fileConfig]).  The count is kept as the number of passes
    of the run loop; a [compareUrl] that is not truthy, which the session
    only tests, is kept as [None]. *)
Definition config (argv : Argv) (fileConfig : FileConfig) : Index.TestConfig :=
  {| Index.url :=
       default (or_string (argv_url argv) "https://playwright.dev") (file_url fileConfig);
     Index.testCount := passes (testCount argv fileConfig);
     Index.categories :=
       default ["performance"; "accessibility"; "best-practices"; "seo"]
               (file_categories fileConfig);
     Index.device :=
       default (or_string (argv_device argv) "Desktop") (file_device fileConfig);
     Index.compareUrl :=
       if truthy (compareUrl argv fileConfig) then compareUrl argv fileConfig else None;
     Index.saveHistory :=
       default (default true (argv_save_history argv)) (file_saveHistory fileConfig) |}.

End Options.

(** Example command lines. *)
Module CommandLines.

(** [--count 0 --verbose] *)
Definition count_zero : Options.Argv :=
  Options.mkArgv "https://playwright.dev" (Some 0) "Desktop" None None true (Some true).

(** [--count 2.5] *)
Definition count_fraction : Options.Argv :=
  Options.mkArgv "https://playwright.dev" (Some 2.5) "Desktop" None None false (Some true).

End CommandLines.

Import Spec.

(** ** Further vocabulary *)

Module Vocabulary.

(** One block of [generateWebVitalsRecommendations]. *)
Definition rec_step (name : string) (advice : list string) (value : option number)
    (evaluations : gmap string string) (recommendations : gmap string (list string))
    : gmap string (list string) :=
  if needs_advice value (evaluations !! name)
  then insert name advice recommendations
  else recommendations.

(** The body of the loop of [generateWebVitalCards]. *)
Definition card_step (metrics : WebVitalsMetrics) (evaluations : gmap string string)
    (recommendations : gmap string (list string))
    (html : list ReportGenerator.VitalCard) (key : MetricKey)
    : list ReportGenerator.VitalCard :=
  match get key metrics with
  | None => html
  | Some value =>
      let evaluation :=
        match evaluations !! key_name key with
        | Some e => if bool_decide (e = "") then "未评估" else e
        | None => "未评估"
        end in
      let recommendationList := default [] (recommendations !! key_name key) in
      let evaluationClass :=
        if bool_decide (evaluation = label_good) then "good"
        else if bool_decide (evaluation = label_needs_improvement)
             then "needs-improvement"
        else if bool_decide (evaluation = label_poor) then "poor"
        else "" in
      html ++ [ {| ReportGenerator.card_key := key;
                   ReportGenerator.card_value := value;
                   ReportGenerator.evaluation := evaluation;
                   ReportGenerator.evaluationClass := evaluationClass;
                   ReportGenerator.recommendationList := recommendationList |} ]
  end.

(** The cards of the detailed report, as the report generator calls the
    three functions of [webVitals.ts]. *)
Definition report_cards (metrics : WebVitalsMetrics) : list ReportGenerator.VitalCard :=
  ReportGenerator.generateWebVitalCards
    metrics (evaluateWebVitals metrics)
    (generateWebVitalsRecommendations metrics (evaluateWebVitals metrics)).

(** The metric has a value. *)
Definition present (metrics : WebVitalsMetrics) (key : MetricKey) : bool :=
  match get key metrics with
  | Some _ => true
  | None => false
  end.

(** The CSS class of each band. *)
Definition band_class (b : Band) : string :=
  match b with
  | good => "good"
  | needs_improvement => "needs-improvement"
  | poor => "poor"
  end.

(** The console colour of each band. *)
Definition band_colour (b : Band) : Cli.Colour :=
  match b with
  | good => Cli.green
  | needs_improvement => Cli.yellow
  | poor => Cli.red
  end.

Import Index.

(** The run numbers of the audits in a trace, in the order of the calls. *)
Definition audit_calls (t : list Index.Event) : list nat :=
  omap (fun ev => match ev with
                  | Index.Called (Index.Lighthouse i) => Some i
                  | _ => None
                  end) t.

(** The part of the [try] block that follows the run loop. *)
Definition after_loop (w : Index.World) (config : Index.TestConfig)
    (st : Index.Collected) : Index.M unit :=
  avgScores ← Index.average (Index.categories config) (Index.scores st) ∅;
  Index.call w Index.Screenshot;;
  last ← Index.defined (ReportGenerator.last_result (Index.webVitalsResults st));
  let testResult :=
    {| TestResult.url := Index.url config;
       TestResult.device := Index.device config;
       TestResult.scores := avgScores;
       TestResult.webVitals := metrics last |} in
  (if Index.saveHistory config
   then
     Index.call w Index.WriteHistory;;
     Index.emit (Index.HistorySaved testResult);;
     Index.call w Index.ReadHistory;;
     let historyData := Index.history w ++ [testResult] in
     if bool_decide (1 < length historyData)%nat
     then Index.call w Index.WriteTrendReport;; Index.emit (Index.TrendReport historyData)
     else Index.ret tt
   else Index.ret tt);;
  Index.generateDetailedReport w testResult (Index.webVitalsResults st);;
  match Index.compareUrl config with
  | Some _ =>
      Index.call w Index.CompareLighthouse;;
      let compareResult := Index.compareAudit w in
      let compareWebVitalsMetrics := extractWebVitals compareResult in
      let compareTestResult :=
        {| TestResult.url := default "" (Index.compareUrl config);
           TestResult.device := Index.device config;
           TestResult.scores :=
             Index.compareScores (Index.categories config) compareResult;
           TestResult.webVitals := compareWebVitalsMetrics |} in
      Index.generateComparisonReport w testResult compareTestResult
  | None => Index.ret tt
  end.

(** What an event that follows the run loop may be: not an audit of a run,
    not a launch or a kill of Chrome; history events only when the history
    is saved, a trend report only over two entries or more, comparison
    events only when a comparison URL is configured. *)
Definition after_loop_event (config : Index.TestConfig) (ev : Index.Event) : Prop :=
  match ev with
  | Index.Called Index.Screenshot | Index.Called Index.WriteDetailedReport
  | Index.DetailedReport _ => True
  | Index.Called Index.WriteHistory | Index.Called Index.ReadHistory
  | Index.HistorySaved _ => Index.saveHistory config = true
  | Index.Called Index.WriteTrendReport => Index.saveHistory config = true
  | Index.TrendReport historyData =>
      Index.saveHistory config = true /\ (2 <= length historyData)%nat
  | Index.Called Index.CompareLighthouse | Index.Called Index.WriteComparisonReport
  | Index.ComparisonReport _ => is_Some (Index.compareUrl config)
  | _ => False
  end.

(** A world in which no call is rejected. *)
Definition accepts_all (w : Index.World) : Prop := forall c, Index.rejects w c = false.

End Vocabulary.

Import Vocabulary.

(** * Properties *)

(** ** Numbers *)

Lemma lt_true a b : lt a b = true <-> a < b.
Proof.
  unfold lt. rewrite negb_true_iff, <- not_true_iff_false, Qle_bool_iff.
  split; [apply Qnot_le_lt | apply Qlt_not_le].
Qed.

Lemma lt_false a b : lt a b = false <-> b <= a.
Proof.
  unfold lt. rewrite negb_false_iff. apply Qle_bool_iff.
Qed.

Lemma nonzero_true a : nonzero a = true <-> ~ a == 0.
Proof.
  unfold nonzero. rewrite negb_true_iff, <- not_true_iff_false, Qeq_bool_iff.
  reflexivity.
Qed.

Lemma nonzero_false a : nonzero a = false <-> a == 0.
Proof.
  unfold nonzero. rewrite negb_false_iff. apply Qeq_bool_iff.
Qed.

(** ** Double arithmetic *)

Section DoubleFacts.
Import Double.

Lemma pow2_pos e : 0 < pow2 e.
Proof. apply Qpower_0_lt. reflexivity. Qed.

Lemma pow2_add a b : pow2 (a + b) == pow2 a * pow2 b.
Proof. apply Qpower_plus. discriminate. Qed.

Lemma pow2_lt a b : (a < b)%Z -> pow2 a < pow2 b.
Proof. intros H. apply Qpower_lt_compat_l; [done|reflexivity]. Qed.

Lemma pow2_le a b : (a <= b)%Z -> pow2 a <= pow2 b.
Proof. intros H. apply Qpower_le_compat_l; [done|discriminate]. Qed.

Lemma pow2_lt_inv a b : pow2 a < pow2 b -> (a < b)%Z.
Proof. intros H. eapply Qpower_lt_compat_l_inv; [exact H|reflexivity]. Qed.

Lemma pow2_Z e : (0 <= e)%Z -> pow2 e == inject_Z (2 ^ e).
Proof. intros H. unfold pow2. by rewrite Zpower_Qpower. Qed.

Lemma pow2_opp e : pow2 (- e) * pow2 e == 1.
Proof. rewrite <- pow2_add. by replace (- e + e)%Z with 0%Z by lia. Qed.

(** Division by a power of two is multiplication by the opposite power. *)
Lemma div_pow2 x e : x / pow2 e == x * pow2 (- e).
Proof. unfold Qdiv, pow2. by rewrite Qpower_opp. Qed.

(** *** The binary logarithm *)

Lemma flog2_spec (q : Q) :
  0 < q -> pow2 (flog2 q) <= q /\ q < pow2 (flog2 q + 1).
Proof.
  intros Hq. destruct q as [n d]. unfold flog2. simpl Qnum. simpl Qden.
  assert (0 < n)%Z as Hn by (unfold Qlt in Hq; simpl in Hq; lia).
  pose proof (Z.log2_spec n Hn) as [Hn1 Hn2].
  pose proof (Z.log2_spec (Zpos d) (Pos2Z.is_pos d)) as [Hd1 Hd2].
  pose proof (Z.log2_nonneg n) as Hln. pose proof (Z.log2_nonneg (Zpos d)) as Hld.
  set (ln := Z.log2 n) in *. set (ld := Z.log2 (Zpos d)) in *.
  assert (inject_Z n == (n # d) * inject_Z (Zpos d)) as Hnd.
  { unfold Qeq. simpl. lia. }
  assert (0 < inject_Z (Zpos d)) as Hdpos by (unfold Qlt; simpl; lia).
  assert (pow2 ln <= inject_Z n) as A1 by (rewrite pow2_Z, <- Zle_Qle; done).
  assert (inject_Z n < pow2 (ln + 1)) as A2.
  { rewrite pow2_Z, <- Zlt_Qlt by lia. by rewrite <- Z.add_1_r in Hn2. }
  assert (pow2 ld <= inject_Z (Zpos d)) as B1 by (rewrite pow2_Z, <- Zle_Qle; done).
  assert (inject_Z (Zpos d) < pow2 (ld + 1)) as B2.
  { rewrite pow2_Z, <- Zlt_Qlt by lia. by rewrite <- Z.add_1_r in Hd2. }
  assert (pow2 (ln - ld - 1) < n # d) as Hlow.
  { replace (ln - ld - 1)%Z with (ln + - (ld + 1))%Z by lia.
    rewrite pow2_add, <- div_pow2.
    pose proof (pow2_pos (ld + 1)). pose proof (pow2_pos ln).
    apply Qlt_shift_div_r; [done|]. nra. }
  assert ((n # d) < pow2 (ln - ld + 1)) as Hhigh.
  { replace (ln - ld + 1)%Z with (ln + 1 + - ld)%Z by lia.
    rewrite pow2_add, <- div_pow2.
    pose proof (pow2_pos ld). pose proof (pow2_pos (ln + 1)).
    apply Qlt_shift_div_l; [done|]. nra. }
  destruct (Qle_bool (pow2 (ln - ld)) (n # d)) eqn:E.
  - apply Qle_bool_iff in E. split; [done|]. done.
  - assert (n # d < pow2 (ln - ld)) as E'.
    { apply Qnot_le_lt. intros H. apply Qle_bool_iff in H. congruence. }
    split; [by apply Qlt_le_weak|]. by replace (ln - ld - 1 + 1)%Z with (ln - ld)%Z by lia.
Qed.

Lemma flog2_unique (q : Q) (k : Z) :
  pow2 k <= q -> q < pow2 (k + 1) -> flog2 q = k.
Proof.
  intros H1 H2. pose proof (pow2_pos k).
  destruct (flog2_spec q) as [H3 H4]; [lra|].
  assert (pow2 k < pow2 (flog2 q + 1)) as A by lra.
  assert (pow2 (flog2 q) < pow2 (k + 1)) as B by lra.
  apply pow2_lt_inv in A, B. lia.
Qed.

(** *** Rounding to the nearest integer *)

Lemma rne_floor (q : Q) : (Qfloor q <= rne q <= Qfloor q + 1)%Z.
Proof.
  unfold rne. destruct (Qcompare _ _); [destruct (Z.even _)|..]; lia.
Qed.

Lemma rne_near (q : Q) : inject_Z (rne q) - q <= 1 # 2 /\ q - inject_Z (rne q) <= 1 # 2.
Proof.
  pose proof (Qfloor_le q) as H1. pose proof (Qlt_floor q) as H2.
  rewrite inject_Z_plus in H2. change (inject_Z 1) with 1 in H2.
  unfold rne. destruct (Qcompare (q - inject_Z (Qfloor q)) (1 # 2)) eqn:E.
  - apply Qeq_alt in E. destruct (Z.even _).
    + lra.
    + rewrite inject_Z_plus. change (inject_Z 1) with 1. lra.
  - apply Qlt_alt in E. lra.
  - apply Qgt_alt in E. rewrite inject_Z_plus. change (inject_Z 1) with 1. lra.
Qed.

#[local] Instance rne_proper : Proper (Qeq ==> eq) rne.
Proof.
  intros x y Hxy. unfold rne. rewrite (Qfloor_comp x y Hxy).
  assert (x - inject_Z (Qfloor y) == y - inject_Z (Qfloor y)) as H by lra.
  by rewrite (Qcompare_comp _ _ H _ _ (Qeq_refl _)).
Qed.

(** *** Rounding to the nearest double *)

Lemma round_zero (q : Q) : q == 0 -> round q = 0.
Proof. intros H. unfold round. apply Qeq_bool_iff in H. by rewrite H. Qed.

Lemma round_nonzero (q : Q) :
  ~ q == 0 ->
  round q == inject_Z (rne (q / pow2 (ulp_exponent q))) * pow2 (ulp_exponent q).
Proof.
  intros H. unfold round. destruct (Qeq_bool q 0) eqn:E.
  - by apply Qeq_bool_iff in E.
  - apply Qred_correct.
Qed.

Lemma flog2_ext (x y : Q) : 0 < x -> x == y -> flog2 x = flog2 y.
Proof.
  intros Hx Hxy. destruct (flog2_spec x Hx) as [H1 H2].
  symmetry. apply flog2_unique; by rewrite <- Hxy.
Qed.

Lemma ulp_exponent_pos (x : Q) :
  0 < x -> ulp_exponent x = Z.max (flog2 x - 52) (-1074).
Proof.
  intros Hx. unfold ulp_exponent. f_equal. f_equal. symmetry.
  apply flog2_ext; [done|]. symmetry. apply Qabs_pos. lra.
Qed.

(** A number below [2^53] has its last place at an exponent of at most 0:
    the whole numbers are on its grid. *)
Lemma ulp_exponent_small (x : Q) : 0 < x -> x < pow2 53 -> (ulp_exponent x <= 0)%Z.
Proof.
  intros Hx Hhi. rewrite ulp_exponent_pos by done.
  destruct (flog2_spec x Hx) as [H1 _].
  assert (pow2 (flog2 x) < pow2 53) as H by lra.
  apply pow2_lt_inv in H. lia.
Qed.

Lemma on_grid (k e : Z) : (e <= 0)%Z -> inject_Z k == inject_Z (k * 2 ^ (- e)) * pow2 e.
Proof.
  intros He. rewrite inject_Z_mult, <- pow2_Z by lia.
  rewrite <- Qmult_assoc, pow2_opp. ring.
Qed.

(** Rounding a number below [2^53] does not cross a whole number. *)
Lemma round_ge_int (x : Q) (k : Z) :
  0 < x -> x < pow2 53 -> inject_Z k <= x -> inject_Z k <= round x.
Proof.
  intros Hx Hhi Hk. rewrite round_nonzero by lra.
  pose proof (ulp_exponent_small x Hx Hhi) as He.
  set (e := ulp_exponent x) in *. pose proof (pow2_pos e) as Hp.
  rewrite (on_grid k e He) at 1. apply Qmult_le_compat_r; [|lra].
  rewrite <- Zle_Qle. etrans; [|apply rne_floor].
  rewrite <- (Qfloor_Z (k * 2 ^ (- e))). apply Qfloor_resp_le.
  apply Qle_shift_div_l; [done|]. by rewrite <- on_grid.
Qed.

(** A double below an integer on its grid is below it by one unit of its
    last place at least. *)
Lemma grid_gap (s : Q) (n : Z) :
  0 < s -> s < pow2 53 -> round s == s -> s < inject_Z n ->
  s + pow2 (ulp_exponent s) <= inject_Z n.
Proof.
  intros Hs Hhi Hd Hn. rewrite round_nonzero in Hd by lra.
  pose proof (ulp_exponent_small s Hs Hhi) as He.
  set (e := ulp_exponent s) in *. pose proof (pow2_pos e) as Hp.
  set (m := rne (s / pow2 e)) in *.
  rewrite (on_grid n e He) in Hn |- *. rewrite <- Hd in Hn |- *.
  assert (inject_Z m < inject_Z (n * 2 ^ (- e))) as Hlt by nra.
  rewrite <- Zlt_Qlt in Hlt.
  assert (inject_Z (m + 1) <= inject_Z (n * 2 ^ (- e))) as Hle by (rewrite <- Zle_Qle; lia).
  rewrite inject_Z_plus in Hle. change (inject_Z 1) with 1 in Hle. nra.
Qed.

(** Multiplying by 60 moves the binary logarithm up by 5 at least. *)
Lemma flog2_times_60 (x s : Q) : 0 < x -> s == x * 60 -> (flog2 x + 5 <= flog2 s)%Z.
Proof.
  intros Hx Hs. destruct (flog2_spec x Hx) as [H1 _].
  destruct (flog2_spec s) as [_ H2]; [lra|].
  assert (pow2 (flog2 x + 5) < pow2 (flog2 s + 1)) as H.
  { rewrite pow2_add. change (pow2 5) with 32. lra. }
  apply pow2_lt_inv in H. lia.
Qed.

(** The quotient of a double below [2^53] by 60, rounded, has the whole
    part of the exact quotient. *)
Lemma floor_div_60 (s : Q) :
  0 <= s -> s < pow2 53 -> round s == s ->
  Qfloor (div s 60) = Qfloor (s / 60).
Proof.
  intros H0 Hhi Hd. unfold div.
  destruct (Qeq_dec s 0) as [Hz|Hz].
  { rewrite round_zero; [|rewrite Hz; reflexivity]. apply Qfloor_comp.
    rewrite Hz. reflexivity. }
  assert (0 < s) as Hs by lra. clear H0 Hz.
  set (x := s / 60) in *.
  assert (s == x * 60) as Hsx by (unfold x; field).
  assert (0 < x) as Hx by lra.
  assert (x < pow2 53) as Hxhi by lra.
  pose proof (Qfloor_le x) as Hf1. pose proof (Qlt_floor x) as Hf2.
  set (k1 := Qfloor x) in *.
  assert (0 <= k1)%Z as Hk1.
  { subst k1. change 0%Z with (Qfloor 0). apply Qfloor_resp_le. lra. }
  assert (inject_Z k1 <= round x) as Hlow by (by apply round_ge_int).
  assert (round x < inject_Z (k1 + 1)) as Hup; [|].
  2: { pose proof (Qfloor_le (round x)) as G1. pose proof (Qlt_floor (round x)) as G2.
       assert (inject_Z (Qfloor (round x)) < inject_Z (k1 + 1)) as G3 by lra.
       assert (inject_Z k1 < inject_Z (Qfloor (round x) + 1)) as G4 by lra.
       rewrite <- Zlt_Qlt in G3, G4. lia. }
  set (k := (k1 + 1)%Z) in *.
  rewrite round_nonzero by lra.
  pose proof (ulp_exponent_small x Hx Hxhi) as He.
  set (e := ulp_exponent x) in *. pose proof (pow2_pos e) as Hp.
  set (y := x / pow2 e).
  assert (x == y * pow2 e) as Hxy by (unfold y; field; lra).
  set (K := (k * 2 ^ (- e))%Z).
  assert (inject_Z k == inject_Z K * pow2 e) as HK by (by apply on_grid).
  assert (pow2 e <= 1) as Hp1 by (change 1 with (pow2 0); by apply pow2_le).
  assert (rne y < K)%Z as Hr; [|].
  2: { rewrite HK. apply Qmult_lt_compat_r; [done|]. by rewrite <- Zlt_Qlt. }
  destruct (Z.lt_ge_cases (rne y) K) as [|Hge]; [done|exfalso].
  rewrite Zle_Qle in Hge. pose proof (rne_near y) as [Hn _].
  assert (inject_Z K - (1 # 2) <= y) as Hy by lra.
  assert (1 <= inject_Z k) as Hk.
  { change 1 with (inject_Z 1). rewrite <- Zle_Qle. lia. }
  assert (1 # 2 <= x) as Hhalf by nra.
  (* the exponent of the last place of [x] is not clamped *)
  assert (-1 <= flog2 x)%Z as Hlog.
  { destruct (flog2_spec x Hx) as [_ H2].
    assert (pow2 (-1) < pow2 (flog2 x + 1)) as H by (change (pow2 (-1)) with (1 # 2); lra).
    apply pow2_lt_inv in H. lia. }
  assert (e = (flog2 x - 52)%Z) as Ee by (unfold e; rewrite ulp_exponent_pos by done; lia).
  pose proof (flog2_times_60 x s Hx Hsx) as H60.
  assert (e + 5 <= ulp_exponent s)%Z as Hes by (rewrite ulp_exponent_pos by done; lia).
  assert (s < inject_Z (60 * k)) as Hsk.
  { rewrite inject_Z_mult. change (inject_Z 60) with 60. lra. }
  pose proof (grid_gap s (60 * k) Hs Hhi Hd Hsk) as Hgap.
  assert (32 * pow2 e <= pow2 (ulp_exponent s)) as H32.
  { change 32 with (pow2 5). rewrite <- pow2_add, Z.add_comm. by apply pow2_le. }
  rewrite inject_Z_mult in Hgap. change (inject_Z 60) with 60 in Hgap.
  nra.
Qed.

(** *** Whole numbers *)

Lemma rne_Z (k : Z) : rne (inject_Z k) = k.
Proof.
  pose proof (rne_near (inject_Z k)) as [H1 H2].
  assert (inject_Z (rne (inject_Z k)) < inject_Z (k + 1)) as A.
  { rewrite inject_Z_plus. change (inject_Z 1) with 1. lra. }
  assert (inject_Z (k - 1) < inject_Z (rne (inject_Z k))) as B.
  { unfold Z.sub. rewrite inject_Z_plus, inject_Z_opp. change (inject_Z 1) with 1. lra. }
  rewrite <- Zlt_Qlt in A, B. lia.
Qed.

(** A whole number below [2^53] is a double. *)
Lemma round_whole (x : Q) (k : Z) :
  x == inject_Z k -> (0 <= k < 2 ^ 53)%Z -> round x = inject_Z k.
Proof.
  intros Hx Hk. destruct (Z.eq_dec k 0%Z) as [->|Hne].
  { by apply round_zero. }
  assert (0 < x) as Hpos.
  { rewrite Hx. change 0 with (inject_Z 0). rewrite <- Zlt_Qlt. lia. }
  assert (x < pow2 53) as Hhi.
  { rewrite Hx. change (pow2 53) with (inject_Z (2 ^ 53)). rewrite <- Zlt_Qlt. lia. }
  pose proof (ulp_exponent_small x Hpos Hhi) as He.
  unfold round. destruct (Qeq_bool x 0) eqn:E.
  { apply Qeq_bool_iff in E. lra. }
  set (e := ulp_exponent x) in *. pose proof (pow2_pos e) as Hp.
  rewrite <- (Qcanon.Qred_identity (inject_Z k)) by (simpl; apply Z.gcd_1_r).
  apply Qred_complete.
  assert (x / pow2 e == inject_Z (k * 2 ^ (- e))) as Hy.
  { rewrite Hx, (on_grid k e He). field. lra. }
  rewrite (rne_proper _ _ Hy), rne_Z. symmetry. by apply on_grid.
Qed.

End DoubleFacts.

(** ** The evaluator *)

Section Evaluator.

Lemma evaluateWebVitals_steps metrics :
  evaluateWebVitals metrics =
  eval_step "TTFB" 800 1800 (TTFB metrics)
    (eval_step "TBT" 200 600 (TBT metrics)
      (eval_step "TTI" 3800 7300 (TTI metrics)
        (eval_step "FID" 100 300 (FID metrics)
          (eval_step "CLS" 0.1 0.25 (CLS metrics)
            (eval_step "LCP" 2500 4000 (LCP metrics)
              (eval_step "FCP" 1800 3000 (FCP metrics) ∅)))))).
Proof. reflexivity. Qed.

Lemma lookup_eval_step name lo hi value evaluations (s : string) :
  eval_step name lo hi value evaluations !! s =
  if decide (s = name)
  then match value with
       | Some v => Some (classify lo hi v)
       | None => evaluations !! s
       end
  else evaluations !! s.
Proof.
  unfold eval_step, classify.
  destruct value as [v|]; [|by case_decide].
  case_decide as Hs.
  - subst s. destruct (lt v lo); [|destruct (lt v hi)]; by rewrite lookup_insert_eq.
  - destruct (lt v lo); [|destruct (lt v hi)]; by rewrite lookup_insert_ne.
Qed.

(** The entry of the evaluation map under the name of a metric. *)
Lemma lookup_evaluateWebVitals metrics k :
  evaluateWebVitals metrics !! key_name k =
  (fun v => classify (thresholds k).1 (thresholds k).2 v) <$> get k metrics.
Proof.
  rewrite evaluateWebVitals_steps, !lookup_eval_step.
  destruct k; simpl; repeat case_decide; try congruence;
    match goal with |- context [?f metrics] => destruct (f metrics) end;
    simpl; rewrite ?lookup_empty; reflexivity.
Qed.

(** A key that is not the name of a metric has no entry. *)
Lemma lookup_evaluateWebVitals_other metrics (s : string) :
  (forall k, s <> key_name k) -> evaluateWebVitals metrics !! s = None.
Proof.
  intros Hs. rewrite evaluateWebVitals_steps, !lookup_eval_step.
  pose proof (Hs kFCP). pose proof (Hs kLCP). pose proof (Hs kCLS).
  pose proof (Hs kFID). pose proof (Hs kTTI). pose proof (Hs kTBT).
  pose proof (Hs kTTFB). simpl in *.
  repeat case_decide; try congruence. apply lookup_empty.
Qed.

End Evaluator.

Lemma labels_distinct :
  label_good <> label_needs_improvement /\ label_good <> label_poor
  /\ label_needs_improvement <> label_poor.
Proof. repeat split; discriminate. Qed.

Lemma thresholds_ordered k : (thresholds k).1 < (thresholds k).2.
Proof. destruct k; reflexivity. Qed.

Lemma key_name_inj k1 k2 : key_name k1 = key_name k2 -> k1 = k2.
Proof. destruct k1, k2; simpl; congruence. Qed.

Lemma key_name_cases (s : string) :
  {k | s = key_name k} + {forall k, s <> key_name k}.
Proof.
  destruct (decide (s = "FCP")) as [->|]; [left; by exists kFCP|].
  destruct (decide (s = "LCP")) as [->|]; [left; by exists kLCP|].
  destruct (decide (s = "CLS")) as [->|]; [left; by exists kCLS|].
  destruct (decide (s = "FID")) as [->|]; [left; by exists kFID|].
  destruct (decide (s = "TTI")) as [->|]; [left; by exists kTTI|].
  destruct (decide (s = "TBT")) as [->|]; [left; by exists kTBT|].
  destruct (decide (s = "TTFB")) as [->|]; [left; by exists kTTFB|].
  right. intros []; assumption.
Qed.

(** The label stored by a block, read back as a band. *)
Lemma classify_band lo hi v :
  lo < hi ->
  (classify lo hi v = band_label good <-> v < lo)
  /\ (classify lo hi v = band_label needs_improvement <-> lo <= v /\ v < hi)
  /\ (classify lo hi v = band_label poor <-> hi <= v).
Proof.
  intros Hlh. destruct labels_distinct as (Hgn & Hgp & Hnp).
  unfold classify; simpl.
  destruct (lt v lo) eqn:E1; [|destruct (lt v hi) eqn:E2].
  - apply lt_true in E1. repeat split; try done; try congruence; intros; lra.
  - apply lt_false in E1. apply lt_true in E2.
    repeat split; try done; try congruence; intros; lra.
  - apply lt_false in E1. apply lt_false in E2.
    repeat split; try done; try congruence; intros; lra.
Qed.

(** C1: for every metrics record and every present metric value, the
    evaluator stores the band [good] iff the value is strictly below the
    lower threshold of the metric, [needs-improvement] iff it is at least
    the lower and strictly below the upper threshold, and [poor] otherwise,
    with the thresholds FCP 1800/3000, LCP 2500/4000, CLS 0.1/0.25,
    FID 100/300, TTI 3800/7300, TBT 200/600, TTFB 800/1800.  Some band is
    always stored; a value equal to the lower threshold is
    [needs-improvement] and a value equal to the upper threshold is
    [poor]. *)
Theorem evaluator_bands (metrics : WebVitalsMetrics) (k : MetricKey) (v : number) :
  get k metrics = Some v ->
  let lo := (thresholds k).1 in
  let hi := (thresholds k).2 in
  (band_of metrics k good <-> v < lo)
  /\ (band_of metrics k needs_improvement <-> lo <= v /\ v < hi)
  /\ (band_of metrics k poor <-> ~ v < lo /\ ~ (lo <= v /\ v < hi))
  /\ (exists b, band_of metrics k b)
  /\ (v == lo -> band_of metrics k needs_improvement)
  /\ (v == hi -> band_of metrics k poor).
Proof.
  intros Hv lo hi. unfold band_of.
  rewrite lookup_evaluateWebVitals, Hv. simpl. fold lo hi.
  pose proof (thresholds_ordered k) as Hlh. fold lo hi in Hlh.
  destruct (classify_band lo hi v Hlh) as (Hg & Hn & Hp).
  assert (Hinj : forall l, Some (classify lo hi v) = Some l <-> classify lo hi v = l).
  { intros l. split; congruence. }
  rewrite !Hinj, Hg, Hn, Hp.
  split; [reflexivity|]. split; [reflexivity|].
  split; [split; intros; [split|]; lra|].
  split.
  - destruct (Qlt_le_dec v lo) as [H1|H1]; [exists good; rewrite Hinj; by apply Hg|].
    destruct (Qlt_le_dec v hi) as [H2|H2].
    + exists needs_improvement. rewrite Hinj. by apply Hn.
    + exists poor. rewrite Hinj. by apply Hp.
  - split; intros; [split|]; lra.
Qed.

Lemma evaluator_bands_witness :
  band_of (mkMetrics (Some 1800) None (Some 0.25) None None None None) kFCP
          needs_improvement.
Proof.
  apply (evaluator_bands (mkMetrics (Some 1800) None (Some 0.25) None None None None)
                         kFCP 1800); [reflexivity | simpl; lra].
Defined.

(** C2: the evaluation map has an entry under a key iff the key names a
    metric whose value is present; no key of an absent metric, and no
    other key, occurs in it. *)
Theorem evaluator_keys (metrics : WebVitalsMetrics) (s : string) :
  is_Some (evaluateWebVitals metrics !! s)
  <-> exists k, s = key_name k /\ is_Some (get k metrics).
Proof.
  destruct (key_name_cases s) as [[k ->]|Hno].
  - rewrite lookup_evaluateWebVitals. split.
    + intros Hs. exists k. split; [done|]. by apply fmap_is_Some in Hs.
    + intros (k' & Hk & Hs). apply key_name_inj in Hk. subst k'.
      by apply fmap_is_Some.
  - rewrite lookup_evaluateWebVitals_other by done. split.
    + intros [? ?]. discriminate.
    + intros (k & Hk & _). by destruct (Hno k).
Qed.

(** ** The extractor *)

Lemma get_extractWebVitals lhr k :
  get k (extractWebVitals lhr) = getMetricValue (named_audit lhr k).
Proof.
  unfold named_audit, extractWebVitals.
  destruct (audits lhr) as [a|]; destruct k; simpl; rewrite ?lookup_empty; reflexivity.
Qed.

(** C3: for every audit result, each metric of the extracted record is
    absent exactly when its named audit is missing, or the score of that
    audit is null, or its numeric value is undefined, and is the numeric
    value of the audit otherwise.  The extractor is a total function: no
    input makes it fail. *)
Theorem extractor_absent_or_value (lhr : Lhr) (k : MetricKey) :
  (get k (extractWebVitals lhr) = None
   <-> named_audit lhr k = None
       \/ exists a, named_audit lhr k = Some a /\ (score a = None \/ numericValue a = None))
  /\ (forall a v, named_audit lhr k = Some a -> is_Some (score a) ->
                  numericValue a = Some v ->
                  get k (extractWebVitals lhr) = Some v).
Proof.
  rewrite get_extractWebVitals. unfold getMetricValue.
  destruct (named_audit lhr k) as [a|]; [|split; [split; auto|intros; discriminate]].
  split.
  - split.
    + intros H. right. exists a. split; [done|].
      destruct (score a); [|by left]. destruct (numericValue a); [discriminate|by right].
    + intros [H|(a' & [= <-] & [H|H])]; [discriminate| |]; rewrite H; [done|].
      by destruct (score a).
  - intros a' v [= <-] [s Hs] Hn. by rewrite Hs, Hn.
Qed.

(** ** The comparator: Web-Vitals diffs *)

Section VitalDiffs.

Import ComparisonReporter.

Variables baselineWebVitals currentWebVitals : WebVitalsMetrics.

Lemma calculateWebVitalsDiffs_fold :
  calculateWebVitalsDiffs baselineWebVitals currentWebVitals =
  foldl (diff_step baselineWebVitals currentWebVitals) ∅ Object_keys.
Proof. reflexivity. Qed.

Lemma lookup_diff_step diffs key (s : string) :
  s <> key_name key ->
  diff_step baselineWebVitals currentWebVitals diffs key !! s = diffs !! s.
Proof.
  intros Hs. unfold diff_step.
  destruct (get key baselineWebVitals), (get key currentWebVitals); try done.
  by rewrite lookup_insert_ne.
Qed.

(** Keys that the loop does not visit keep their entry. *)
Lemma lookup_diffs_unvisited keys diffs (s : string) :
  (forall k, k ∈ keys -> s <> key_name k) ->
  foldl (diff_step baselineWebVitals currentWebVitals) diffs keys !! s = diffs !! s.
Proof.
  revert diffs. induction keys as [|k keys IH]; intros diffs Hs; [done|].
  simpl. rewrite IH.
  - apply lookup_diff_step, Hs. left.
  - intros k' Hk'. apply Hs. by right.
Qed.

(** The entry of a visited key. *)
Lemma lookup_diffs_visited keys diffs k :
  NoDup keys -> k ∈ keys ->
  foldl (diff_step baselineWebVitals currentWebVitals) diffs keys !! key_name k =
  diff_step baselineWebVitals currentWebVitals diffs k !! key_name k.
Proof.
  revert diffs. induction keys as [|k' keys IH]; intros diffs Hnd Hk.
  - by apply elem_of_nil in Hk.
  - apply NoDup_cons in Hnd as [Hk' Hnd]. simpl.
    apply elem_of_cons in Hk as [->|Hk].
    + apply lookup_diffs_unvisited. intros k Hk ?%key_name_inj. by subst k.
    + rewrite IH by done.
      assert (k <> k') by (intros ->; done).
      assert (key_name k <> key_name k') by (intros ?%key_name_inj; done).
      unfold diff_step at 1 3.
      destruct (get k baselineWebVitals), (get k currentWebVitals);
        rewrite ?lookup_insert_eq; try done; by apply lookup_diff_step.
Qed.

Lemma Object_keys_NoDup : NoDup Object_keys.
Proof. by apply (bool_decide_unpack _). Qed.

Lemma Object_keys_all k : k ∈ Object_keys.
Proof. destruct k; by apply (bool_decide_unpack _). Qed.

(** The entry of the diff map under the name of a metric. *)
Lemma lookup_calculateWebVitalsDiffs k :
  calculateWebVitalsDiffs baselineWebVitals currentWebVitals !! key_name k =
  match get k baselineWebVitals, get k currentWebVitals with
  | Some baselineValue, Some currentValue =>
      Some {| absolute := currentValue - baselineValue;
              percentage :=
                if nonzero baselineValue
                then ((currentValue - baselineValue) / baselineValue) * 100 else 0;
              improved := lt (currentValue - baselineValue) 0 |}
  | _, _ => None
  end.
Proof.
  rewrite calculateWebVitalsDiffs_fold,
    (lookup_diffs_visited _ _ _ Object_keys_NoDup (Object_keys_all k)).
  unfold diff_step.
  destruct (get k baselineWebVitals), (get k currentWebVitals);
    by rewrite ?lookup_insert_eq, ?lookup_empty.
Qed.

Lemma lookup_calculateWebVitalsDiffs_other (s : string) :
  (forall k, s <> key_name k) ->
  calculateWebVitalsDiffs baselineWebVitals currentWebVitals !! s = None.
Proof.
  intros Hs. rewrite calculateWebVitalsDiffs_fold, lookup_diffs_unvisited; [done|].
  intros k _. apply Hs.
Qed.

Lemma generateWebVitalsComparisonRows_fold :
  generateWebVitalsComparisonRows baselineWebVitals currentWebVitals =
  foldl (row_step baselineWebVitals currentWebVitals) [] webVitalsInfo.
Proof. reflexivity. Qed.

(** One entry of [webVitalsInfo] adds a row for its metric iff both
    values are present. *)
Lemma row_step_key rows entry k :
  (exists r, r ∈ row_step baselineWebVitals currentWebVitals rows entry /\ row_key r = k)
  <-> (exists r, r ∈ rows /\ row_key r = k)
      \/ (k = entry.1 /\ both_present baselineWebVitals currentWebVitals k).
Proof.
  destruct entry as [key [name unit]]. unfold row_step, both_present. simpl.
  destruct (get key baselineWebVitals) as [bv|] eqn:Eb;
    [destruct (get key currentWebVitals) as [cv|] eqn:Ec|].
  - split.
    + intros (r & [Hr|Hr]%elem_of_app & Hk); [left; eauto|].
      apply list_elem_of_singleton in Hr. subst r. simpl in Hk. subst k.
      right. rewrite Eb, Ec. eauto.
    + intros [(r & Hr & Hk)|[-> _]].
      * exists r. split; [|done]. apply elem_of_app. by left.
      * eexists. split; [apply elem_of_app; right; apply list_elem_of_singleton; done|].
        done.
  - split; [by left|]. intros [H|[-> [_ [? ?]]]]; [done|congruence].
  - split; [by left|]. intros [H|[-> [[? ?] _]]]; [done|congruence].
Qed.

Lemma rows_fold_key info rows k :
  (exists r, r ∈ foldl (row_step baselineWebVitals currentWebVitals) rows info
             /\ row_key r = k)
  <-> (exists r, r ∈ rows /\ row_key r = k)
      \/ (k ∈ info.*1 /\ both_present baselineWebVitals currentWebVitals k).
Proof.
  revert rows. induction info as [|entry info IH]; intros rows; simpl.
  - split; [by left|]. intros [H|[H _]]; [done|]. by apply elem_of_nil in H.
  - rewrite IH, row_step_key, elem_of_cons. tauto.
Qed.

Lemma webVitalsInfo_all k : k ∈ webVitalsInfo.*1.
Proof. destruct k; by apply (bool_decide_unpack _). Qed.

End VitalDiffs.

(** C4: for every baseline and current record and every metric present in
    both, the entry of the diff map has the absolute delta
    [current - baseline]; its percentage delta is
    [delta / baseline * 100] when the baseline value is not zero and is
    exactly [0] when it is zero; and its [improved] flag is [delta < 0],
    whatever the metric (CLS included). *)
Theorem comparator_metric_entry (baselineWebVitals currentWebVitals : WebVitalsMetrics)
    (k : MetricKey) (baselineValue currentValue : number) :
  get k baselineWebVitals = Some baselineValue ->
  get k currentWebVitals = Some currentValue ->
  exists d,
    ComparisonReporter.calculateWebVitalsDiffs baselineWebVitals currentWebVitals
      !! key_name k = Some d
    /\ ComparisonReporter.absolute d = currentValue - baselineValue
    /\ (~ baselineValue == 0 ->
        ComparisonReporter.percentage d
        = (currentValue - baselineValue) / baselineValue * 100)
    /\ (baselineValue == 0 -> ComparisonReporter.percentage d = 0)
    /\ (ComparisonReporter.improved d = true <-> currentValue - baselineValue < 0).
Proof.
  intros Hb Hc. eexists. rewrite lookup_calculateWebVitalsDiffs, Hb, Hc.
  split; [reflexivity|]. simpl. split; [reflexivity|].
  split; [|split].
  - intros Hnz. apply nonzero_true in Hnz. by rewrite Hnz.
  - intros Hz. apply nonzero_false in Hz. by rewrite Hz.
  - apply lt_true.
Qed.

(** The example of the specification: LCP 4000 against 2500 gives the
    delta -1500, the percentage -37.5 and [improved]. *)
Lemma comparator_metric_entry_witness :
  exists d,
    ComparisonReporter.calculateWebVitalsDiffs
      (mkMetrics None (Some 4000) None None None None None)
      (mkMetrics None (Some 2500) None None None None None) !! "LCP"%string = Some d
    /\ ComparisonReporter.absolute d == -1500
    /\ ComparisonReporter.percentage d == -37.5
    /\ ComparisonReporter.improved d = true.
Proof.
  destruct (comparator_metric_entry
              (mkMetrics None (Some 4000) None None None None None)
              (mkMetrics None (Some 2500) None None None None None)
              kLCP 4000 2500 eq_refl eq_refl) as (d & Hd & Ha & Hp & _ & Hi).
  exists d. split; [exact Hd|]. split; [by rewrite Ha|].
  split; [by rewrite Hp|]. by apply Hi.
Defined.

(** The division guard: baseline 0 against current 5 has percentage 0. *)
Example comparator_zero_baseline :
  ComparisonReporter.calculateWebVitalsDiffs
    (mkMetrics None None (Some 0) None None None None)
    (mkMetrics None None (Some 5) None None None None) !! "CLS"%string
  = Some {| ComparisonReporter.absolute := 5 - 0;
            ComparisonReporter.percentage := 0;
            ComparisonReporter.improved := false |}.
Proof. by rewrite (lookup_calculateWebVitalsDiffs _ _ kCLS). Qed.

(** C5: for every pair of records, the diff map has an entry under a key
    iff the key names a metric that both records have a value for, and the
    comparison table has a row for a metric iff both records have a value
    for it. *)
Theorem comparison_entry_iff_both_present (baselineWebVitals currentWebVitals : WebVitalsMetrics) :
  (forall s : string,
     is_Some (ComparisonReporter.calculateWebVitalsDiffs baselineWebVitals currentWebVitals
                !! s)
     <-> exists k, s = key_name k /\ both_present baselineWebVitals currentWebVitals k)
  /\ (forall k,
        (exists r,
           r ∈ ComparisonReporter.generateWebVitalsComparisonRows
                 baselineWebVitals currentWebVitals
           /\ ComparisonReporter.row_key r = k)
        <-> both_present baselineWebVitals currentWebVitals k).
Proof.
  split.
  - intros s. destruct (key_name_cases s) as [[k ->]|Hno].
    + rewrite lookup_calculateWebVitalsDiffs. unfold both_present. split.
      * intros Hs. exists k. split; [done|].
        destruct (get k baselineWebVitals), (get k currentWebVitals);
          try (by destruct Hs); eauto.
      * intros (k' & ->%key_name_inj & [b Hb] & [c Hc]). rewrite Hb, Hc. eauto.
    + rewrite lookup_calculateWebVitalsDiffs_other by done. split.
      * intros [? ?]. discriminate.
      * intros (k & Hk & _). by destruct (Hno k).
  - intros k. rewrite generateWebVitalsComparisonRows_fold, rows_fold_key. split.
    + intros [(r & Hr & _)|[_ H]]; [by apply elem_of_nil in Hr|done].
    + intros H. right. split; [apply webVitalsInfo_all|done].
Qed.

(** ** The comparator: category scores *)

Section ScoreDiffs.

Import ComparisonReporter.

Lemma or_zero_Some c : or_zero (Some c) == c.
Proof.
  unfold or_zero. destruct (nonzero c) eqn:E; [reflexivity|].
  apply nonzero_false in E. by rewrite E.
Qed.

(** A loop that stores [f k v] under each key of an association list
    without repeated keys. *)
Lemma lookup_foldl_insert {A B} (f : string -> A -> B) (l : list (string * A))
    (acc : gmap string B) (s : string) :
  NoDup l.*1 ->
  foldl (fun (m : gmap string B) '(k, v) => <[k := f k v]> m) acc l !! s =
  match (list_to_map l : gmap string A) !! s with
  | Some v => Some (f s v)
  | None => acc !! s
  end.
Proof.
  revert acc. induction l as [|[k v] l IH]; intros acc Hnd; [done|].
  rewrite fmap_cons in Hnd. apply NoDup_cons in Hnd as [Hk Hnd].
  change (foldl (fun (m : gmap string B) '(k, v) => <[k := f k v]> m)
                (<[k := f k v]> acc) l !! s
          = match <[k := v]> (list_to_map l : gmap string A) !! s with
            | Some v => Some (f s v)
            | None => acc !! s
            end).
  rewrite IH by done.
  destruct (decide (s = k)) as [->|Hne].
  - rewrite (not_elem_of_list_to_map_1 _ _ Hk), !lookup_insert_eq. done.
  - by rewrite !lookup_insert_ne.
Qed.

(** The entry of the score diff map. *)
Lemma lookup_calculateScoreDiffs (baselineScores currentScores : gmap string number)
    (category : string) :
  calculateScoreDiffs baselineScores currentScores !! category =
  (fun score => or_zero (currentScores !! category) - score)
    <$> baselineScores !! category.
Proof.
  unfold calculateScoreDiffs, Object_entries.
  rewrite (lookup_foldl_insert (fun category score =>
                                  or_zero (currentScores !! category) - score))
    by apply NoDup_fst_map_to_list.
  rewrite list_to_map_to_list.
  by destruct (baselineScores !! category).
Qed.

Lemma category_class_spec delta :
  (if gt delta 1 then improvement else if lt delta (-1) then regression else neutral)
  = category_class delta.
Proof.
  unfold category_class, gt.
  destruct (lt 1 delta) eqn:E1.
  - apply lt_true in E1. by rewrite decide_True.
  - apply lt_false in E1. rewrite decide_False by by apply Qle_not_lt.
    destruct (lt delta (-1)) eqn:E2.
    + apply lt_true in E2. by rewrite decide_True.
    + apply lt_false in E2. by rewrite decide_False by by apply Qle_not_lt.
Qed.

Lemma category_class_cases delta :
  (category_class delta = improvement <-> 1 < delta)
  /\ (category_class delta = regression <-> delta < -1)
  /\ (category_class delta = neutral <-> -1 <= delta /\ delta <= 1).
Proof.
  unfold category_class. repeat case_decide.
  - repeat split; try done; intros; lra.
  - repeat split; try done; intros; lra.
  - repeat split; try done; intros; lra.
Qed.

End ScoreDiffs.



(** ** The comparator: summary counts *)

Section Summary.

Import ComparisonReporter.

Lemma count_cons {A} (P : A -> Prop) `{!forall x, Decision (P x)} x l :
  count P (x :: l) = ((if decide (P x) then 1 else 0) + count P l)%nat.
Proof.
  unfold count. rewrite filter_cons. by case_decide.
Qed.

(** A loop over two counters, the second tested only when the first
    test fails. *)
Lemma count_loop {A} (P Q : A -> Prop)
    `{!forall x, Decision (P x)} `{!forall x, Decision (Q x)} (p q : A -> bool) :
  (forall x, p x = true <-> P x) ->
  (forall x, q x = true <-> Q x) ->
  (forall x, P x -> ~ Q x) ->
  forall l a b,
    foldl (fun '(a, b) x =>
             if p x then (S a, b) else if q x then (a, S b) else (a, b))
          (a, b) l
    = ((a + count P l)%nat, (b + count Q l)%nat).
Proof.
  intros Hp Hq Hex l. induction l as [|x l IH]; intros a b.
  - unfold count. simpl. by rewrite !Nat.add_0_r.
  - simpl. rewrite !count_cons.
    destruct (p x) eqn:Ep.
    + apply Hp in Ep. rewrite IH, decide_True, decide_False by auto.
      f_equal; lia.
    + assert (~ P x) by (rewrite <- Hp; congruence).
      destruct (q x) eqn:Eq.
      * apply Hq in Eq. rewrite IH, decide_False, decide_True by auto.
        f_equal; lia.
      * assert (~ Q x) by (rewrite <- Hq; congruence).
        rewrite IH, !decide_False by auto. f_equal; lia.
Qed.

End Summary.

(** C7: the summary counts a metric as an improvement iff its [improved]
    flag is set, and as a regression iff the flag is not set and the
    absolute value of its percentage delta exceeds 1; it counts a category
    as an improvement iff its raw delta is above 1 and as a regression iff
    it is below -1.  The four counters are computed independently of each
    other. *)
Theorem summary_counts (scoreDiffs : gmap string number)
    (webVitalsDiffs : gmap string ComparisonReporter.VitalDiff) :
  let stats := ComparisonReporter.generateSummaryStats scoreDiffs webVitalsDiffs in
  ComparisonReporter.improvedScores stats
  = count (fun delta => 1 < delta) (ComparisonReporter.Object_values scoreDiffs)
  /\ ComparisonReporter.regressedScores stats
     = count (fun delta => delta < -1) (ComparisonReporter.Object_values scoreDiffs)
  /\ ComparisonReporter.improvedWebVitals stats
     = count (fun d => ComparisonReporter.improved d = true)
             (ComparisonReporter.Object_values webVitalsDiffs)
  /\ ComparisonReporter.regressedWebVitals stats
     = count (fun d => ComparisonReporter.improved d = false
                       /\ 1 < Qabs (ComparisonReporter.percentage d))
             (ComparisonReporter.Object_values webVitalsDiffs).
Proof.
  intros stats. subst stats. unfold ComparisonReporter.generateSummaryStats.
  rewrite (count_loop (fun delta => 1 < delta) (fun delta => delta < -1)).
  - rewrite (count_loop (fun d => ComparisonReporter.improved d = true)
                        (fun d => ComparisonReporter.improved d = false
                                  /\ 1 < Qabs (ComparisonReporter.percentage d))).
    + done.
    + done.
    + intros d. unfold gt, Math_abs. rewrite andb_true_iff, negb_true_iff, lt_true. done.
    + intros d Hd [Hd' _]. congruence.
  - intros delta. apply lt_true.
  - intros delta. apply lt_true.
  - intros delta H1 H2. lra.
Qed.

(** ** The run loop *)

Section RunLoop.

Import Index.

Lemma bind_inr {A B} (m : M A) (f : A -> M B) t b :
  m ≫= f = (t, inr b) ->
  exists t1 a t2, m = (t1, inr a) /\ f a = (t2, inr b) /\ t = t1 ++ t2.
Proof.
  unfold mbind, M_bind, bind. destruct m as [t1 [e|a]]; [discriminate|].
  destruct (f a) as [t2 r] eqn:Ef. intros [= <- ->]. eauto 6.
Qed.

Lemma bind_ok {A B} (m : M A) (f : A -> M B) t1 a :
  m = (t1, inr a) -> m ≫= f = (t1 ++ (f a).1, (f a).2).
Proof.
  intros ->. unfold mbind, M_bind, bind. by destruct (f a).
Qed.

Lemma bind_trace {A B} (m : M A) (f : A -> M B) :
  (m ≫= f).1 = m.1 ++ match m.2 with
                      | inr a => (f a).1
                      | inl _ => []
                      end.
Proof.
  unfold mbind, M_bind, bind. destruct m as [t [e|a]]; simpl.
  - by rewrite app_nil_r.
  - by destruct (f a).
Qed.

Lemma bind_snd {A B} (m : M A) (f : A -> M B) :
  (m ≫= f).2 = match m.2 with
               | inr a => (f a).2
               | inl e => inl e
               end.
Proof.
  unfold mbind, M_bind, bind. destruct m as [t [e|a]]; simpl; [done|].
  by destruct (f a).
Qed.

Lemma pushed_cons c cats lhr (scores : gmap string (list number)) :
  pushed (c :: cats) lhr scores =
  pushed cats lhr
    match WebVitals.categories lhr !! c with
    | Some score => alter (fun l => l ++ [Double.mul score 100]) c scores
    | None => scores
    end.
Proof. reflexivity. Qed.

Lemma alter_push (scores : gmap string (list number)) c l x :
  scores !! c = Some l ->
  alter (fun l => l ++ [x]) c scores = <[c := l ++ [x]]> scores.
Proof.
  intros Hl. apply map_eq. intros c'. destruct (decide (c = c')) as [<-|].
  - by rewrite lookup_alter_eq, lookup_insert_eq, Hl.
  - by rewrite lookup_alter_ne, lookup_insert_ne.
Qed.

(** The score collection performs no external call; it completes when
    every configured category has a score list. *)
Lemma collect_scores_ok cats lhr (scores : gmap string (list number)) :
  (forall c, c ∈ cats -> is_Some (scores !! c)) ->
  collect_scores cats lhr scores = ([], inr (pushed cats lhr scores)).
Proof.
  revert scores. induction cats as [|c cats IH]; intros scores Hdom; [done|].
  rewrite pushed_cons. simpl.
  destruct (WebVitals.categories lhr !! c) as [s|] eqn:Ec.
  - destruct (Hdom c) as [l Hl]; [left|]. rewrite Hl. simpl.
    rewrite (alter_push _ _ _ _ Hl), IH; [done|].
    intros c' Hc'. destruct (decide (c = c')) as [<-|].
    + rewrite lookup_insert_eq. eauto.
    + rewrite lookup_insert_ne by done. apply Hdom. by right.
  - apply IH. intros c' Hc'. apply Hdom. by right.
Qed.

Lemma collect_scores_inr cats lhr (scores : gmap string (list number)) t scores' :
  collect_scores cats lhr scores = (t, inr scores') ->
  t = [] /\ scores' = pushed cats lhr scores.
Proof.
  revert scores. induction cats as [|c cats IH]; intros scores.
  - by intros [= <- <-].
  - rewrite pushed_cons. simpl.
    destruct (WebVitals.categories lhr !! c) as [s|] eqn:Ec; [|apply IH].
    destruct (scores !! c) as [l|] eqn:Hl; [|discriminate].
    simpl. rewrite (alter_push _ _ _ _ Hl).
    destruct (collect_scores cats lhr _) as [t' r] eqn:E.
    intros [= <- ->]. by apply IH in E.
Qed.

(** The score list of each category after one run. *)
Lemma lookup_pushed cats lhr (scores : gmap string (list number)) (c : string) :
  pushed cats lhr scores !! c = (fun l => l ++ contribution cats c lhr) <$> scores !! c.
Proof.
  revert scores. induction cats as [|c' cats IH]; intros scores.
  - unfold contribution, count. simpl.
    destruct (scores !! c), (WebVitals.categories lhr !! c); simpl; by rewrite ?app_nil_r.
  - rewrite pushed_cons, IH. unfold contribution.
    destruct (decide (c' = c)) as [->|Hne].
    + destruct (WebVitals.categories lhr !! c) as [s|] eqn:Ec; [|done].
      rewrite lookup_alter_eq, count_cons, decide_True by done.
      destruct (scores !! c); [|done]. simpl. by rewrite <- app_assoc.
    + rewrite count_cons, decide_False by done. simpl.
      destruct (WebVitals.categories lhr !! c') as [s'|]; [|done].
      by rewrite lookup_alter_ne.
Qed.

Lemma call_ok w c : rejects w c = false -> call w c = ([Called c], inr tt).
Proof. unfold call. by intros ->. Qed.

(** What a completed run leaves in the loop state. *)
Lemma run_once_inr w config i st t st' :
  run_once w config i st = (t, inr st') ->
  scores st' = pushed (categories config) (audit w i) (scores st)
  /\ webVitalsResults st' = webVitalsResults st ++ [result_of config (audit w i)].
Proof.
  unfold run_once. intros H.
  do 4 (apply bind_inr in H as (? & ? & ? & _ & H & _)).
  apply bind_inr in H as (t1 & scores' & t2 & Hc & H & _).
  apply collect_scores_inr in Hc as [_ ->].
  injection H as _ <-. done.
Qed.

(** A run completes when its calls are accepted and every configured
    category has a score list. *)
Lemma run_once_ok w config i st :
  (forall c, rejects w c = false) ->
  (forall c, c ∈ categories config -> is_Some (scores st !! c)) ->
  exists t,
    run_once w config i st =
    (t, inr {| scores := pushed (categories config) (audit w i) (scores st);
               webVitalsResults :=
                 webVitalsResults st ++ [result_of config (audit w i)] |}).
Proof.
  intros Hw Hdom. unfold run_once.
  rewrite (bind_ok _ _ _ _ (call_ok w _ (Hw _))).
  rewrite (bind_ok _ _ _ _ (call_ok w _ (Hw _))).
  rewrite (bind_ok _ _ _ _ (call_ok w _ (Hw _))).
  assert (exists t, (if bool_decide (accessibilityIssues (audit w i) = [])
                     then mret tt else call w (WriteAccessibilityIssues i))
                    = (t, inr tt)) as [t Ht].
  { case_bool_decide; [by exists []|]. eexists. apply call_ok, Hw. }
  rewrite (bind_ok _ _ _ _ Ht).
  rewrite (bind_ok _ _ _ _ (collect_scores_ok _ _ _ Hdom)).
  simpl. eauto.
Qed.

Lemma run_loop_inr w config n i st t st' :
  run_loop w config n i st = (t, inr st') ->
  scores st' = foldl (fun s lhr => pushed (categories config) lhr s) (scores st)
                     (audit w <$> seq i n)
  /\ webVitalsResults st' =
     webVitalsResults st ++ (result_of config <$> (audit w <$> seq i n)).
Proof.
  revert i st t. induction n as [|n IH]; intros i st t; simpl.
  - intros [= _ <-]. by rewrite app_nil_r.
  - intros H. apply bind_inr in H as (t1 & st1 & t2 & H1 & H2 & _).
    apply run_once_inr in H1 as [Hs Hr]. apply IH in H2 as [-> ->].
    rewrite Hs, Hr, <- app_assoc. done.
Qed.

Lemma lookup_foldl_pushed cats runs (scores : gmap string (list number)) (c : string) :
  foldl (fun s lhr => pushed cats lhr s) scores runs !! c =
  (fun l => l ++ flat_map (contribution cats c) runs) <$> scores !! c.
Proof.
  revert scores. induction runs as [|lhr runs IH]; intros scores; simpl.
  - destruct (scores !! c); simpl; by rewrite ?app_nil_r.
  - rewrite IH, lookup_pushed. destruct (scores !! c); simpl; [|done].
    by rewrite <- app_assoc.
Qed.

Lemma run_loop_ok w config n i st :
  (forall c, rejects w c = false) ->
  (forall c, c ∈ categories config -> is_Some (scores st !! c)) ->
  exists t st', run_loop w config n i st = (t, inr st').
Proof.
  intros Hw. revert i st. induction n as [|n IH]; intros i st Hdom; simpl.
  - by exists [], st.
  - destruct (run_once_ok w config i st Hw Hdom) as [t1 H1].
    rewrite (bind_ok _ _ _ _ H1).
    edestruct (IH (S i)) as (t2 & st2 & H2); [|rewrite H2; simpl; eauto].
    simpl. intros c Hc. rewrite lookup_pushed. apply fmap_is_Some. by apply Hdom.
Qed.

End RunLoop.

(** ** The averaging loop *)

Section Average.

Import Index.

Lemma averaged_cons c cats (scores : gmap string (list number)) acc :
  averaged (c :: cats) scores acc =
  averaged cats scores
    match scores !! c with
    | Some (x :: l) =>
        <[c := Double.div (reduce_sum (x :: l))
                          (inject_Z (Z.of_nat (length (x :: l))))]> acc
    | _ => acc
    end.
Proof. reflexivity. Qed.

(** The averaging loop performs no external call; when it completes,
    every configured category has a score list. *)
Lemma average_inr cats (scores : gmap string (list number)) acc t avgScores :
  average cats scores acc = (t, inr avgScores) ->
  t = [] /\ avgScores = averaged cats scores acc
  /\ forall c, c ∈ cats -> is_Some (scores !! c).
Proof.
  revert acc. induction cats as [|c cats IH]; intros acc.
  - intros [= <- <-]. repeat split. intros c Hc. by apply elem_of_nil in Hc.
  - rewrite averaged_cons. simpl.
    destruct (scores !! c) as [l|] eqn:Hl; [|discriminate]. simpl.
    assert (forall acc',
               (let '(t2, r) := average cats scores acc' in ([] ++ t2, r))
               = (t, inr avgScores) ->
               t = [] /\ avgScores = averaged cats scores acc'
               /\ forall c', c' ∈ c :: cats -> is_Some (scores !! c')) as Hstep.
    { intros acc'. destruct (average cats scores acc') as [t' r] eqn:E.
      intros [= <- ->]. apply IH in E as (-> & -> & Hdom).
      repeat split. intros c' [->|Hc']%elem_of_cons; eauto. }
    destruct l as [|x l]; simpl; apply Hstep.
Qed.

Lemma average_ok cats (scores : gmap string (list number)) acc :
  (forall c, c ∈ cats -> is_Some (scores !! c)) ->
  average cats scores acc = ([], inr (averaged cats scores acc)).
Proof.
  revert acc. induction cats as [|c cats IH]; intros acc Hdom; [done|].
  rewrite averaged_cons. simpl.
  destruct (Hdom c) as [l Hl]; [left|]. rewrite Hl. simpl.
  assert (forall c', c' ∈ cats -> is_Some (scores !! c')) as Hdom'.
  { intros c' Hc'. apply Hdom. by right. }
  destruct l as [|x l]; simpl; by rewrite IH.
Qed.

(** The average stored for each category. *)
Lemma lookup_averaged cats (scores : gmap string (list number)) acc (c : string) :
  averaged cats scores acc !! c =
  if decide (c ∈ cats)
  then match scores !! c with
       | Some (x :: l) =>
           Some (Double.div (reduce_sum (x :: l))
                            (inject_Z (Z.of_nat (length (x :: l)))))
       | _ => acc !! c
       end
  else acc !! c.
Proof.
  revert acc. induction cats as [|c' cats IH]; intros acc.
  - rewrite decide_False; [done|]. apply not_elem_of_nil.
  - rewrite averaged_cons, IH. destruct (decide (c = c')) as [->|Hne].
    + rewrite (decide_True (P := c' ∈ c' :: cats)) by left.
      destruct (scores !! c') as [[|x l]|]; try by case_decide.
      rewrite lookup_insert_eq. by case_decide.
    + assert (match scores !! c' with
              | Some (x :: l) =>
                  <[c' := Double.div (reduce_sum (x :: l))
                                     (inject_Z (Z.of_nat (length (x :: l))))]>
                    acc
              | _ => acc
              end !! c = acc !! c) as ->.
      { destruct (scores !! c') as [[|x l]|]; try done. by rewrite lookup_insert_ne. }
      destruct (decide (c ∈ cats)) as [Hin|Hin].
      * rewrite decide_True by by right. done.
      * rewrite decide_False; [done|]. intros [?|?]%elem_of_cons; done.
Qed.

(** *** Means *)

Lemma length_flat_replicate {A} k (l : list A) :
  length (flat_map (replicate k) l) = (k * length l)%nat.
Proof.
  induction l as [|x l IH]; simpl; [lia|].
  rewrite length_app, length_replicate, IH. lia.
Qed.

Lemma flat_replicate_once {A} (l : list A) : flat_map (replicate 1) l = l.
Proof. induction l as [|x l IH]; simpl; [done|by f_equal]. Qed.

(** A category of a list without duplicates occurs once in it. *)
Lemma count_NoDup cats (c : string) :
  NoDup cats -> c ∈ cats -> count (fun c' => c' = c) cats = 1%nat.
Proof.
  induction 1 as [|a cats Hnot Hnd IH]; [by intros ?%elem_of_nil|].
  rewrite count_cons. intros [->|Hc]%elem_of_cons.
  - rewrite decide_True by done.
    assert (count (fun c' => c' = a) cats = 0%nat) as ->; [|done].
    clear IH Hnd. induction cats as [|b cats IH]; [done|].
    rewrite count_cons, decide_False.
    + apply IH. intros H. apply Hnot. by right.
    + intros ->. apply Hnot. by left.
  - rewrite decide_False, IH; [done..|]. intros ->. done.
Qed.

(** Whole numbers are added up exactly, as long as their sum stays below
    [2^53]. *)
Lemma sum_whole (a : Z) (zs : list Z) :
  (0 <= a)%Z -> Forall (fun z => 0 <= z)%Z zs -> (a + foldr Z.add 0%Z zs < 2 ^ 53)%Z ->
  foldl Double.add (inject_Z a) (inject_Z <$> zs) = inject_Z (a + foldr Z.add 0%Z zs).
Proof.
  revert a. induction zs as [|z zs IH]; intros a Ha Hzs Hsum; simpl in *.
  - by rewrite Z.add_0_r.
  - apply Forall_cons in Hzs as [Hz Hzs].
    assert (0 <= foldr Z.add 0%Z zs)%Z as Hrest.
    { clear -Hzs. induction Hzs; simpl; lia. }
    unfold Double.add at 2.
    rewrite (round_whole _ (a + z)); [|by rewrite inject_Z_plus|lia].
    rewrite IH; [f_equal; lia|lia|done|lia].
Qed.

(** The mean of whole numbers is their exact arithmetic mean, rounded
    once to the nearest double. *)
Lemma mean_whole (zs : list Z) :
  Forall (fun z => 0 <= z)%Z zs -> (foldr Z.add 0%Z zs < 2 ^ 53)%Z ->
  mean (inject_Z <$> zs)
  = Double.round (inject_Z (foldr Z.add 0%Z zs) / inject_Z (Z.of_nat (length zs))).
Proof.
  intros Hzs Hsum. unfold mean, Double.div.
  change 0 with (inject_Z 0). rewrite sum_whole, length_fmap by (done || lia).
  by rewrite Z.add_0_l.
Qed.

(** The score list of a category is its present scores, each repeated
    as often as the category is configured. *)
Lemma flat_map_contribution cats c runs :
  flat_map (contribution cats c) runs =
  flat_map (replicate (count (fun c' => c' = c) cats)) (present_scores c runs).
Proof.
  unfold present_scores, contribution.
  induction runs as [|lhr runs IH]; [done|]. simpl.
  destruct (WebVitals.categories lhr !! c); simpl; by rewrite IH.
Qed.

Lemma count_pos cats (c : string) : c ∈ cats -> (0 < count (fun c' => c' = c) cats)%nat.
Proof.
  induction cats as [|c' cats IH]; [by intros ?%elem_of_nil|].
  rewrite count_cons. intros [->|Hc]%elem_of_cons.
  - rewrite decide_True by done. lia.
  - specialize (IH Hc). lia.
Qed.

Lemma initial_scores_known (c : string) :
  initial_scores !! c = if decide (known_category c) then Some [] else None.
Proof.
  unfold initial_scores, known_category.
  destruct (decide (c = "seo")) as [->|]; [by rewrite lookup_insert_eq, decide_True by auto|].
  rewrite lookup_insert_ne by done.
  destruct (decide (c = "best-practices")) as [->|];
    [by rewrite lookup_insert_eq, decide_True by auto|].
  rewrite lookup_insert_ne by done.
  destruct (decide (c = "accessibility")) as [->|];
    [by rewrite lookup_insert_eq, decide_True by auto|].
  rewrite lookup_insert_ne by done.
  destruct (decide (c = "performance")) as [->|];
    [by rewrite lookup_insert_eq, decide_True by auto|].
  rewrite lookup_insert_ne, lookup_empty by done.
  rewrite decide_False; [done|]. intros [?|[?|[?|?]]]; done.
Qed.

End Average.

(** ** The events of a session *)

Section Session.

Import Index.

Lemma elem_of_bind_trace {A B} (m : M A) (f : A -> M B) ev :
  ev ∈ (m ≫= f).1 -> ev ∈ m.1 \/ exists a, m = (m.1, inr a) /\ ev ∈ (f a).1.
Proof.
  unfold mbind, M_bind, bind. destruct m as [t1 [e|a]]; simpl; [by left|].
  destruct (f a) as [t2 r] eqn:Ef. simpl. intros [H|H]%elem_of_app; [by left|].
  right. exists a. by rewrite Ef.
Qed.

Lemma elem_of_call w c ev : ev ∈ (call w c).1 -> ev = Called c.
Proof. simpl. by intros ->%list_elem_of_singleton. Qed.

Lemma collect_scores_trace cats lhr (scores : gmap string (list number)) :
  (collect_scores cats lhr scores).1 = [].
Proof.
  revert scores. induction cats as [|c cats IH]; intros scores; [done|]. simpl.
  destruct (WebVitals.categories lhr !! c) as [x|]; [|apply IH].
  destruct (scores !! c) as [l|]; [|done]. simpl.
  specialize (IH (<[c := l ++ [Double.mul x 100]]> scores)).
  by destruct (collect_scores cats lhr _).
Qed.

Lemma average_trace cats (scores : gmap string (list number)) acc :
  (average cats scores acc).1 = [].
Proof.
  revert acc. induction cats as [|c cats IH]; intros acc; [done|]. simpl.
  destruct (scores !! c) as [l|]; [|done]. simpl.
  case_bool_decide.
  - specialize (IH (<[c := Double.div (reduce_sum l) (inject_Z (Z.of_nat (length l)))]> acc)).
    by destruct (average cats scores _).
  - specialize (IH acc). by destruct (average cats scores _).
Qed.

(** The run loop only performs external calls. *)
Lemma run_once_trace w config i st ev :
  ev ∈ (run_once w config i st).1 -> exists c, ev = Called c.
Proof.
  unfold run_once. intros H.
  do 3 (apply elem_of_bind_trace in H as [H|(? & _ & H)];
        [apply elem_of_call in H; eauto|]).
  apply elem_of_bind_trace in H as [H|(? & _ & H)].
  { case_bool_decide; [by apply elem_of_nil in H|].
    apply elem_of_call in H. eauto. }
  apply elem_of_bind_trace in H as [H|(? & _ & H)].
  - rewrite collect_scores_trace in H. by apply elem_of_nil in H.
  - by apply elem_of_nil in H.
Qed.

Lemma run_loop_trace w config n i st ev :
  ev ∈ (run_loop w config n i st).1 -> exists c, ev = Called c.
Proof.
  revert i st. induction n as [|n IH]; intros i st; simpl.
  - by intros ?%elem_of_nil.
  - intros [H|(st' & _ & H)]%elem_of_bind_trace; [by eapply run_once_trace|].
    by eapply IH.
Qed.

(** The last element of the results of [n] runs. *)
Lemma last_result_runs config w n :
  ReportGenerator.last_result (result_of config <$> runs_of w n) =
  match n with
  | O => None
  | S _ => Some (result_of config (audit w n))
  end.
Proof.
  unfold ReportGenerator.last_result, runs_of.
  rewrite !length_fmap, length_seq, !list_lookup_fmap.
  destruct n as [|n]; [done|].
  rewrite lookup_seq_lt by lia. simpl. do 3 f_equal. lia.
Qed.

Lemma defined_inr {A} (o : option A) t a : defined o = (t, inr a) -> o = Some a.
Proof. destruct o; [|discriminate]. by intros [= _ ->]. Qed.

(** The state in which the run loop of a session ends. *)
Lemma session_loop_inr w config t st :
  run_loop w config (testCount config) 1
           {| scores := initial_scores; webVitalsResults := [] |} = (t, inr st) ->
  scores st = final_scores w config
  /\ webVitalsResults st = result_of config <$> runs_of w (testCount config).
Proof. intros H. by apply run_loop_inr in H as [-> ->]. Qed.

(** Every event of the [try] block is an external call or a report on
    the aggregated result. *)
Lemma session_events w config ev :
  ev ∈ (session w config).1 -> expected_event w config ev.
Proof.
  unfold session. intros H.
  apply elem_of_bind_trace in H as [H|(? & _ & H)];
    [by apply elem_of_call in H as ->|].
  apply elem_of_bind_trace in H as [H|(st & Hst & H)];
    [by apply run_loop_trace in H as [c ->]|].
  apply session_loop_inr in Hst as [Hscores Hresults].
  apply elem_of_bind_trace in H as [H|(avgScores & Havg & H)];
    [rewrite average_trace in H; by apply elem_of_nil in H|].
  apply average_inr in Havg as (_ & -> & Hdom).
  assert (all_known config) as Hknown.
  { intros c Hc. apply Hdom in Hc. rewrite Hscores in Hc. unfold final_scores in Hc.
    rewrite lookup_foldl_pushed, initial_scores_known in Hc.
    case_decide; [done|]. by destruct Hc. }
  apply elem_of_bind_trace in H as [H|(? & _ & H)];
    [by apply elem_of_call in H as ->|].
  apply elem_of_bind_trace in H as [H|(last & Hlast & H)].
  { destruct (ReportGenerator.last_result _); by apply elem_of_nil in H. }
  apply defined_inr in Hlast. rewrite Hresults, last_result_runs in Hlast.
  destruct (testCount config) as [|n] eqn:HN; [discriminate|].
  injection Hlast as <-. rewrite Hscores, Hresults in H.
  change {| TestResult.url := url config;
            TestResult.device := device config;
            TestResult.scores :=
              averaged (categories config) (final_scores w config) ∅;
            TestResult.webVitals := metrics (result_of config (audit w (S n))) |}
    with (TestResult.mk (url config) (device config)
            (averaged (categories config) (final_scores w config) ∅)
            (extractWebVitals (audit w (S n)))) in H.
  assert (TestResult.mk (url config) (device config)
            (averaged (categories config) (final_scores w config) ∅)
            (extractWebVitals (audit w (S n))) = aggregated w config) as Hagg.
  { unfold aggregated. by rewrite HN. }
  rewrite Hagg in H. clear Hagg.
  apply elem_of_bind_trace in H as [H|(? & _ & H)].
  { destruct (saveHistory config); [|by apply elem_of_nil in H].
    apply elem_of_bind_trace in H as [H|(? & _ & H)];
      [by apply elem_of_call in H as ->|].
    apply elem_of_bind_trace in H as [H|(? & _ & H)].
    { apply list_elem_of_singleton in H as ->. simpl. split; [lia|split; [done|]]; done. }
    apply elem_of_bind_trace in H as [H|(? & _ & H)];
      [by apply elem_of_call in H as ->|].
    case_bool_decide; [|by apply elem_of_nil in H].
    apply elem_of_bind_trace in H as [H|(? & _ & H)];
      [by apply elem_of_call in H as ->|].
    apply list_elem_of_singleton in H as ->. simpl. split; [lia|split; [done|]]; done. }
  apply elem_of_bind_trace in H as [H|(? & _ & H)].
  { unfold generateDetailedReport in H.
    apply elem_of_bind_trace in H as [H|(d & Hd & H)].
    { destruct (ReportGenerator.reportData _ _); by apply elem_of_nil in H. }
    apply defined_inr in Hd.
    apply elem_of_bind_trace in H as [H|(? & _ & H)];
      [by apply elem_of_call in H as ->|].
    apply list_elem_of_singleton in H as ->. simpl. split; [lia|split; [done|]].
    by rewrite HN. }
  destruct (compareUrl config) as [u|] eqn:Hu; [|by apply elem_of_nil in H].
  apply elem_of_bind_trace in H as [H|(? & _ & H)];
    [by apply elem_of_call in H as ->|].
  unfold generateComparisonReport in H.
  apply elem_of_bind_trace in H as [H|(? & _ & H)];
    [by apply elem_of_call in H as ->|].
  apply list_elem_of_singleton in H as ->. simpl. split; [lia|split; [done|]].
  unfold compared. by rewrite Hu.
Qed.

Lemma bind_result_throw {A B} (m : M A) (f : A -> M B) e :
  m.2 = inl e -> (m ≫= f).2 = inl e.
Proof. destruct m as [t [e'|a]]; simpl; [|discriminate]. by intros [= ->]. Qed.

Lemma final_scores_defined w config c :
  known_category c -> is_Some (final_scores w config !! c).
Proof.
  intros Hc. unfold final_scores.
  rewrite lookup_foldl_pushed, initial_scores_known, decide_True by done. eauto.
Qed.

(** A session in which no call is rejected, over known categories and
    with at least one run, completes and writes the detailed report. *)
Lemma session_ok w config :
  (forall c, rejects w c = false) ->
  all_known config ->
  (0 < testCount config)%nat ->
  exists t,
    session w config = (t, inr tt)
    /\ (exists d, DetailedReport d ∈ t)
    /\ (saveHistory config = true -> HistorySaved (aggregated w config) ∈ t)
    /\ (is_Some (compareUrl config) -> exists h, ComparisonReport h ∈ t).
Proof.
  intros Hw Hk HN.
  pose proof (call_ok w EnsureDirs (Hw _)) as H1.
  destruct (run_loop_ok w config (testCount config) 1
              {| scores := initial_scores; webVitalsResults := [] |} Hw)
    as (t2 & st & H2).
  { intros c Hc. simpl. rewrite initial_scores_known, decide_True by auto. eauto. }
  destruct (session_loop_inr _ _ _ _ H2) as [Hs Hr].
  assert (average (categories config) (scores st) ∅
          = ([], inr (averaged (categories config) (final_scores w config) ∅))) as H3.
  { rewrite Hs. apply average_ok. intros c Hc. by apply final_scores_defined, Hk. }
  pose proof (call_ok w Screenshot (Hw _)) as H4.
  assert (ReportGenerator.last_result (webVitalsResults st)
          = Some (result_of config (audit w (testCount config)))) as Hlast.
  { rewrite Hr, last_result_runs. destruct (testCount config); [lia|done]. }
  assert (defined (ReportGenerator.last_result (webVitalsResults st))
          = ([], inr (result_of config (audit w (testCount config))))) as H5
    by by rewrite Hlast.
  unfold session.
  rewrite (bind_ok _ _ _ _ H1). cbv beta.
  rewrite (bind_ok _ _ _ _ H2). cbv beta.
  rewrite (bind_ok _ _ _ _ H3). cbv beta.
  rewrite (bind_ok _ _ _ _ H4). cbv beta.
  rewrite (bind_ok _ _ _ _ H5). cbv beta.
  change {| TestResult.url := url config;
            TestResult.device := device config;
            TestResult.scores :=
              averaged (categories config) (final_scores w config) ∅;
            TestResult.webVitals :=
              metrics (result_of config (audit w (testCount config))) |}
    with (aggregated w config).
  assert (exists t,
             (if saveHistory config
              then
                call w WriteHistory;;
                emit (HistorySaved (aggregated w config));;
                call w ReadHistory;;
                (if bool_decide (1 < length (history w ++ [aggregated w config]))%nat
                 then call w WriteTrendReport;;
                      emit (TrendReport (history w ++ [aggregated w config]))
                 else mret tt)
              else mret tt) = (t, inr tt)
             /\ (saveHistory config = true -> HistorySaved (aggregated w config) ∈ t))
    as (t6 & H6 & Hhist).
  { destruct (saveHistory config); [|by exists []].
    unfold mbind, M_bind, bind, call, emit. rewrite !Hw.
    case_bool_decide; rewrite ?Hw; simpl;
      eexists; (split; [reflexivity|]); intros _;
      apply elem_of_cons; right; apply elem_of_cons; by left. }
  rewrite (bind_ok _ _ _ _ H6). cbv beta.
  assert (exists d, ReportGenerator.reportData (aggregated w config) (webVitalsResults st)
                    = Some d) as [d Hd].
  { unfold ReportGenerator.reportData. rewrite Hlast. eauto. }
  assert (generateDetailedReport w (aggregated w config) (webVitalsResults st)
          = ([Called WriteDetailedReport; DetailedReport d], inr tt)) as H7.
  { unfold generateDetailedReport, mbind, M_bind, bind, call, emit.
    rewrite Hd. simpl. by rewrite Hw. }
  rewrite (bind_ok _ _ _ _ H7). cbv beta.
  assert (exists t,
             match compareUrl config with
             | Some _ =>
                 call w CompareLighthouse;;
                 generateComparisonReport w (aggregated w config) (compared w config)
             | None => ret tt
             end = (t, inr tt)
             /\ (is_Some (compareUrl config) -> exists h, ComparisonReport h ∈ t))
    as (t8 & H8 & Hcmp).
  { destruct (compareUrl config); [|exists []; split; [done|by intros [? ?]]].
    unfold generateComparisonReport, mbind, M_bind, bind, call, emit.
    rewrite !Hw. simpl. eexists. split; [reflexivity|]. intros _.
    eexists. do 2 (apply elem_of_cons; right). apply elem_of_cons. by left. }
  change (match compareUrl config with
          | Some _ =>
              call w CompareLighthouse;;
              generateComparisonReport w (aggregated w config)
                {| TestResult.url := default "" (compareUrl config);
                   TestResult.device := device config;
                   TestResult.scores :=
                     compareScores (categories config) (compareAudit w);
                   TestResult.webVitals := extractWebVitals (compareAudit w) |}
          | None => ret tt
          end)
    with (match compareUrl config with
          | Some _ =>
              call w CompareLighthouse;;
              generateComparisonReport w (aggregated w config) (compared w config)
          | None => ret tt
          end).
  rewrite H8. simpl fst. simpl snd.
  eexists. split; [reflexivity|].
  split; [exists d|split; [intros Hh; specialize (Hhist Hh)
                          |intros Hc; destruct (Hcmp Hc) as [h Hh]; exists h]];
    repeat (rewrite elem_of_app || rewrite elem_of_cons); tauto.
Qed.

End Session.

(** ** The whole program *)

Section Main.

Import Index.

(** The trace of the program, by the place of the first error. *)
Lemma main_unfold w config :
  main w config =
  if rejects w ParseArgs
  then [Called ParseArgs; ConsoleError (Rejected ParseArgs); Exit 1]
  else if rejects w LaunchChrome
  then [Called ParseArgs; Called LaunchChrome;
        ConsoleError (Rejected LaunchChrome); Exit 1]
  else [Called ParseArgs; Called LaunchChrome]
       ++ (session w config).1
       ++ match (session w config).2 with
          | inl e => [LoggedError e]
          | inr _ => []
          end
       ++ [Called KillChrome] ++ ending w.
Proof.
  unfold main, runLighthouseTest, try_catch_finally, ending, mbind, M_bind, bind, call.
  destruct (rejects w ParseArgs); [done|].
  destruct (rejects w LaunchChrome); [done|].
  destruct (session w config) as [t [e|[]]]; simpl;
    destruct (rejects w KillChrome); simpl;
    repeat (rewrite <- app_assoc; simpl); rewrite ?app_nil_r; done.
Qed.

Lemma exit_code_app t code : exit_code (t ++ [Exit code]) = Some code.
Proof. unfold exit_code. by rewrite last_snoc. Qed.

(** The exit code of the program. *)
Lemma exit_code_main w config :
  exit_code (main w config) =
  Some (if rejects w ParseArgs || rejects w LaunchChrome || rejects w KillChrome
        then 1 else 0)%Z.
Proof.
  rewrite main_unfold. unfold ending.
  destruct (rejects w ParseArgs); [done|].
  destruct (rejects w LaunchChrome); [done|]. simpl.
  destruct (rejects w KillChrome).
  - rewrite !app_comm_cons.
    change [Called KillChrome; ConsoleError (Rejected KillChrome); Exit 1]
      with ([Called KillChrome; ConsoleError (Rejected KillChrome)] ++ [Exit 1]).
    rewrite !app_assoc. apply exit_code_app.
  - rewrite !app_comm_cons.
    change [Called KillChrome; Exit 0] with ([Called KillChrome] ++ [Exit 0]).
    rewrite !app_assoc. apply exit_code_app.
Qed.

(** The reports of the program are those of the session. *)
Lemma main_report w config ev :
  is_report ev -> ev ∈ main w config -> ev ∈ (session w config).1.
Proof.
  intros Hr. rewrite main_unfold. unfold ending.
  destruct (rejects w ParseArgs).
  { intros H. repeat (apply elem_of_cons in H as [->|H]; [done|]).
    by apply elem_of_nil in H. }
  destruct (rejects w LaunchChrome).
  { intros H. repeat (apply elem_of_cons in H as [->|H]; [done|]).
    by apply elem_of_nil in H. }
  intros H. repeat (apply elem_of_cons in H as [->|H]; [done|]).
  apply elem_of_app in H as [H|H]; [done|].
  apply elem_of_app in H as [H|H].
  { destruct (session w config).2; [|by apply elem_of_nil in H].
    apply list_elem_of_singleton in H as ->. done. }
  apply elem_of_cons in H as [->|H]; [done|].
  destruct (rejects w KillChrome);
    repeat (apply elem_of_cons in H as [->|H]; [done|]); by apply elem_of_nil in H.
Qed.

Lemma session_in_main w config ev :
  rejects w ParseArgs = false -> rejects w LaunchChrome = false ->
  ev ∈ (session w config).1 -> ev ∈ main w config.
Proof.
  intros H1 H2 H. rewrite main_unfold, H1, H2.
  do 2 (apply elem_of_cons; right). apply elem_of_app. by left.
Qed.

End Main.

(** ** The aggregated result *)

Section Aggregation.

Import Index.

(** The averages of a session over known categories. *)
Lemma averaged_mean_of_present w config :
  all_known config ->
  mean_of_present (categories config) (runs_of w (testCount config))
                  (TestResult.scores (aggregated w config)).
Proof.
  intros Hk c. simpl. rewrite lookup_averaged, lookup_empty.
  split.
  - intros Hc Hp. rewrite decide_True by done. unfold final_scores.
    rewrite lookup_foldl_pushed, initial_scores_known, decide_True by by apply Hk.
    simpl. rewrite flat_map_contribution.
    fold (collected_scores (categories config) c (runs_of w (testCount config))).
    pose proof (count_pos _ _ Hc) as Hpos.
    pose proof (length_flat_replicate (count (fun c' => c' = c) (categories config))
                  (present_scores c (runs_of w (testCount config)))) as Hlen.
    fold (collected_scores (categories config) c (runs_of w (testCount config))) in Hlen.
    assert (NoDup (categories config) ->
            collected_scores (categories config) c (runs_of w (testCount config))
            = present_scores c (runs_of w (testCount config))) as Hnd.
    { intros Hnd. unfold collected_scores.
      by rewrite count_NoDup, flat_replicate_once. }
    destruct (collected_scores _ _ _) as [|x l] eqn:E.
    + destruct (present_scores c (runs_of w (testCount config))); [done|].
      simpl in Hlen. lia.
    + eexists. split; [done|]. split; [done|].
      intros Hnd'. by rewrite <- (Hnd Hnd').
  - intros [Hc|Hp]; [by rewrite decide_False|].
    case_decide; [|done]. unfold final_scores.
    rewrite lookup_foldl_pushed, flat_map_contribution, Hp, initial_scores_known.
    by case_decide.
Qed.

Lemma reportData_fields results (webVitalsResults : list WebVitalsResult) d :
  ReportGenerator.reportData results webVitalsResults = Some d ->
  exists r,
    ReportGenerator.last_result webVitalsResults = Some r
    /\ ReportGenerator.scores d = TestResult.scores results
    /\ ReportGenerator.webVitals d = metrics r
    /\ ReportGenerator.evaluations d = evaluateWebVitals (metrics r)
    /\ ReportGenerator.recommendations d
       = generateWebVitalsRecommendations (metrics r) (evaluateWebVitals (metrics r)).
Proof.
  unfold ReportGenerator.reportData.
  destruct (ReportGenerator.last_result webVitalsResults) as [r|]; [|discriminate].
  intros [= <-]. by exists r.
Qed.

(** What a detailed report of the program contains. *)
Lemma main_detailed_report w config d :
  DetailedReport d ∈ main w config ->
  (0 < testCount config)%nat /\ all_known config
  /\ ReportGenerator.scores d = TestResult.scores (aggregated w config)
  /\ ReportGenerator.webVitals d = extractWebVitals (audit w (testCount config))
  /\ ReportGenerator.evaluations d
     = evaluateWebVitals (extractWebVitals (audit w (testCount config)))
  /\ ReportGenerator.recommendations d
     = generateWebVitalsRecommendations
         (extractWebVitals (audit w (testCount config)))
         (evaluateWebVitals (extractWebVitals (audit w (testCount config)))).
Proof.
  intros H. apply main_report in H; [|done].
  apply session_events in H as (HN & Hk & Hd).
  apply reportData_fields in Hd as (r & Hr & ? & ? & ? & ?).
  rewrite last_result_runs in Hr.
  destruct (testCount config) as [|n]; [lia|]. injection Hr as <-. done.
Qed.

(** A program run in which no call is rejected writes its detailed
    report. *)
Lemma main_ok w config :
  (forall c, rejects w c = false) -> all_known config -> (0 < testCount config)%nat ->
  (exists d, DetailedReport d ∈ main w config)
  /\ (saveHistory config = true -> HistorySaved (aggregated w config) ∈ main w config).
Proof.
  intros Hw Hk HN.
  destruct (session_ok w config Hw Hk HN) as (t & Ht & [d Hd] & Hh & _).
  split.
  - exists d. apply session_in_main; [done..|]. by rewrite Ht.
  - intros Hs. apply session_in_main; [done..|]. rewrite Ht. by apply Hh.
Qed.

End Aggregation.

(** C8: for every sequence of runs, the aggregated score of each category
    is the arithmetic mean of the rescaled scores of that category over
    the runs in which it is present; a run without the category
    contributes nothing, and a category present in no run has no
    aggregated score.  The rescaled score is the double [score * 100] and
    the mean is computed in double arithmetic, so that the value is the
    one the program stores.  This holds for the scores of every detailed
    report and of every history entry the program writes; and the program
    does write them when no call is rejected, the configured categories
    are among the four known ones and there is at least one run.  For
    whole-number scores, such as 80, 100 and 60, that mean is the exact
    arithmetic mean, rounded once to the nearest double. *)
Theorem aggregated_category_mean (w : Index.World) (config : Index.TestConfig) :
  let runs := runs_of w (Index.testCount config) in
  (forall d, Index.DetailedReport d ∈ Index.main w config ->
             mean_of_present (Index.categories config) runs (ReportGenerator.scores d))
  /\ (forall r, Index.HistorySaved r ∈ Index.main w config ->
                mean_of_present (Index.categories config) runs (TestResult.scores r))
  /\ ((forall c, Index.rejects w c = false) -> all_known config ->
      (0 < Index.testCount config)%nat ->
      exists d, Index.DetailedReport d ∈ Index.main w config)
  /\ (forall zs : list Z,
        Forall (fun z => 0 <= z)%Z zs -> (foldr Z.add 0%Z zs < 2 ^ 53)%Z ->
        mean (inject_Z <$> zs)
        = Double.round (inject_Z (foldr Z.add 0%Z zs) / inject_Z (Z.of_nat (length zs)))).
Proof.
  intros runs. split; [|split; [|split]].
  - intros d (_ & Hk & -> & _)%main_detailed_report.
    by apply averaged_mean_of_present.
  - intros r H. apply main_report in H; [|done].
    apply session_events in H as (_ & Hk & ->). by apply averaged_mean_of_present.
  - intros Hw Hk HN. by apply main_ok.
  - apply mean_whole.
Qed.

Lemma default_categories_known n : all_known (Examples.config_of n).
Proof.
  intros c Hc. unfold known_category. simpl in Hc.
  repeat (apply elem_of_cons in Hc as [->|Hc]; [tauto|]).
  by apply elem_of_nil in Hc.
Qed.

(** Three runs scoring 80, 100 and 60 in performance have the mean 80; the
    accessibility scores 90 and 70 of the first and third run have the mean
    80 although the second run has none; a category that no run has gets no
    score. *)
Lemma aggregated_category_mean_witness :
  exists d,
    Index.DetailedReport d ∈ Index.main Examples.calm (Examples.config_of 3)
    /\ ReportGenerator.scores d !! "performance" = Some 80
    /\ ReportGenerator.scores d !! "accessibility" = Some 80
    /\ ReportGenerator.scores d !! "seo" = None.
Proof.
  destruct (aggregated_category_mean Examples.calm (Examples.config_of 3))
    as (Hd & _ & Hlive & _).
  destruct Hlive as [d Hin];
    [intros c; reflexivity | apply default_categories_known | simpl; lia |].
  exists d. split; [exact Hin|]. specialize (Hd d Hin). split; [|split].
  - destruct (Hd "performance") as [H _].
    destruct H as (v & Hv & Hmean & _);
      [by apply (bool_decide_unpack _) | vm_compute; discriminate |].
    rewrite Hv, Hmean. vm_compute. reflexivity.
  - destruct (Hd "accessibility") as [H _].
    destruct H as (v & Hv & Hmean & _);
      [by apply (bool_decide_unpack _) | vm_compute; discriminate |].
    rewrite Hv, Hmean. vm_compute. reflexivity.
  - destruct (Hd "seo") as [_ H]. apply H. right. vm_compute. reflexivity.
Defined.

(** The mean of the scores 80, 100 and 60 is exactly 80. *)
Example mean_80_100_60 : mean [80; 100; 60] = 80.
Proof. vm_compute. reflexivity. Qed.

(** The score 0.58 is rescaled to 57.99999999999999, the double just
    below 58, as in the program; the scores 0.8 and 0.59 are rescaled to
    80 and 59. *)
Example rescaled_058 :
  Double.mul (Double.round 0.58) 100 == 58 - Double.pow2 (-47)
  /\ Double.mul (Double.round 0.8) 100 = 80
  /\ Double.mul (Double.round 0.59) 100 = 59.
Proof. vm_compute. done. Qed.

(** A session of one run scoring 0.58, compared with a page scoring 0.59:
    the delta of 59 against 57.99999999999999 is above 1, and the
    comparison report shows an improvement. *)
Example rescaled_058_improvement :
  exists h,
    Index.ComparisonReport h ∈ Index.main Examples.one_run_058 Examples.compared_config
    /\ ComparisonReporter.scoreDiffClass <$> ComparisonReporter.scoreRows h
       = [ComparisonReporter.improvement]
    /\ ComparisonReporter.improvedScores (ComparisonReporter.summary h) = 1%nat.
Proof.
  eexists. split.
  - apply list_elem_of_lookup. exists 11%nat. vm_compute. reflexivity.
  - vm_compute. done.
Qed.

(** C9: the metrics record of the aggregated result is the record
    extracted from the last run: every history entry and every detailed
    report the program writes carries it, the evaluations and the
    recommendations of the report are computed from it, and the comparison
    table takes it as its baseline.  The program does write the detailed
    report when no call is rejected, the configured categories are known
    and there is at least one run. *)
Theorem last_run_metrics (w : Index.World) (config : Index.TestConfig) :
  let last := extractWebVitals (Index.audit w (Index.testCount config)) in
  (forall r, Index.HistorySaved r ∈ Index.main w config -> TestResult.webVitals r = last)
  /\ (forall d, Index.DetailedReport d ∈ Index.main w config ->
                ReportGenerator.webVitals d = last
                /\ ReportGenerator.evaluations d = evaluateWebVitals last
                /\ ReportGenerator.recommendations d
                   = generateWebVitalsRecommendations last (evaluateWebVitals last))
  /\ (forall h, Index.ComparisonReport h ∈ Index.main w config ->
                ComparisonReporter.webVitalsRows h
                = ComparisonReporter.generateWebVitalsComparisonRows
                    last (extractWebVitals (Index.compareAudit w)))
  /\ ((forall c, Index.rejects w c = false) -> all_known config ->
      (0 < Index.testCount config)%nat ->
      exists d, Index.DetailedReport d ∈ Index.main w config).
Proof.
  intros last. split; [|split; [|split]].
  - intros r H. apply main_report in H; [|done].
    by apply session_events in H as (_ & _ & ->).
  - intros d (_ & _ & _ & ? & ? & ?)%main_detailed_report. done.
  - intros h H. apply main_report in H; [|done].
    by apply session_events in H as (_ & _ & ->).
  - intros Hw Hk HN. by apply main_ok.
Qed.

(** Three runs with the First Contentful Paint 1000, 2000 and 3000: the
    report carries 3000, the value of the last run, not the mean 2000. *)
Lemma last_run_metrics_witness :
  exists d,
    Index.DetailedReport d ∈ Index.main Examples.calm (Examples.config_of 3)
    /\ FCP (ReportGenerator.webVitals d) = Some 3000.
Proof.
  destruct (last_run_metrics Examples.calm (Examples.config_of 3))
    as (_ & Hd & _ & Hlive).
  destruct Hlive as [d Hin];
    [intros c; reflexivity | apply default_categories_known | simpl; lia |].
  exists d. split; [exact Hin|].
  destruct (Hd d Hin) as (-> & _). vm_compute. reflexivity.
Defined.

(** ** Failures *)

Section Failures.

Import Index.

Lemma run_once_calls w config i st ev :
  ev ∈ (run_once w config i st).1 -> exists c, ev = Called c /\ run_call i c.
Proof.
  unfold run_once, run_call. intros H.
  do 3 (apply elem_of_bind_trace in H as [H|(? & _ & H)];
        [apply elem_of_call in H; eauto 7|]).
  apply elem_of_bind_trace in H as [H|(? & _ & H)].
  { case_bool_decide; [by apply elem_of_nil in H|].
    apply elem_of_call in H. eauto 7. }
  apply elem_of_bind_trace in H as [H|(? & _ & H)].
  - rewrite collect_scores_trace in H. by apply elem_of_nil in H.
  - by apply elem_of_nil in H.
Qed.

(** A rejected audit ends its run at once. *)
Lemma run_once_rejected w config i st :
  rejects w (Lighthouse i) = true ->
  run_once w config i st = ([Called (Lighthouse i)], inl (Rejected (Lighthouse i))).
Proof.
  intros Hr. unfold run_once, mbind, M_bind, bind, call. by rewrite Hr.
Qed.

(** A rejected audit ends the run loop: the loop throws, and has only
    made calls of the runs up to the failing one. *)
Lemma run_loop_rejected w config n i0 i st :
  rejects w (Lighthouse i) = true ->
  (i0 <= i < i0 + n)%nat ->
  (exists e, (run_loop w config n i0 st).2 = inl e)
  /\ forall ev, ev ∈ (run_loop w config n i0 st).1 ->
                exists c j, ev = Called c /\ (j <= i)%nat /\ run_call j c.
Proof.
  intros Hr. revert i0 st. induction n as [|n IH]; intros i0 st Hi; [lia|].
  simpl. destruct (decide (i0 = i)) as [->|Hne].
  - rewrite run_once_rejected by done. split; [by eexists|].
    intros ev ->%list_elem_of_singleton. exists (Lighthouse i), i.
    split; [done|]. split; [lia|]. by left.
  - destruct (run_once w config i0 st) as [t [e|st']] eqn:E.
    + split; [by eexists|]. intros ev Hev.
      change t with (t, @inl Error Collected e).1 in Hev. rewrite <- E in Hev.
      apply run_once_calls in Hev as (c & -> & Hc). exists c, i0.
      split; [done|]. split; [lia|done].
    + rewrite (bind_ok _ _ t st') by done.
      destruct (IH (S i0) st') as [He Hev]; [lia|]. split; [exact He|].
      intros ev [H|H]%elem_of_app; [|by apply Hev].
      change t with (t, @inr Error Collected st').1 in H. rewrite <- E in H.
      apply run_once_calls in H as (c & -> & Hc). exists c, i0.
      split; [done|]. split; [lia|done].
Qed.

(** A rejected audit ends the session. *)
Lemma session_rejected w config i :
  rejects w (Lighthouse i) = true ->
  (1 <= i <= testCount config)%nat ->
  (exists e, (session w config).2 = inl e)
  /\ forall ev, ev ∈ (session w config).1 -> aborted_at i ev.
Proof.
  intros Hr Hi. unfold session.
  destruct (run_loop_rejected w config (testCount config) 1 i
              {| scores := initial_scores; webVitalsResults := [] |} Hr)
    as [[e He] Hev]; [lia|].
  assert (forall c j, (j <= i)%nat -> run_call j c -> aborted_at i (Called c)) as Hab.
  { intros c j Hj Hc. unfold aborted_at. split; [by intros []|].
    split.
    - intros [= ->]. destruct Hc as [?|[?|[?|?]]]; discriminate.
    - intros j' Hj' [= ->]. destruct Hc as [[= ->]|[?|[?|?]]]; try discriminate. lia. }
  destruct (rejects w EnsureDirs) eqn:Hd.
  - unfold mbind, M_bind, bind, call. rewrite Hd. split; [by eexists|].
    intros ev ->%list_elem_of_singleton. unfold aborted_at.
    split; [by intros []|]. split; [discriminate|]. intros; discriminate.
  - rewrite (bind_ok _ _ _ _ (call_ok w _ Hd)). cbv beta.
    split.
    + exists e. simpl. by apply bind_result_throw.
    + simpl. intros ev [->|H]%elem_of_cons.
      { unfold aborted_at. split; [by intros []|]. split; [discriminate|].
        intros; discriminate. }
      apply elem_of_bind_trace in H as [H|(st & Hst & _)].
      * apply Hev in H as (c & j & -> & Hj & Hc). by eapply Hab.
      * rewrite Hst in He. discriminate.
Qed.

(** *** Where an error is raised *)

#[local] Abbreviation stops w m := (forall e, m.2 = inl e -> raised_at_end w e m.1).

Lemma stops_bind {A B} w (m : M A) (f : A -> M B) :
  stops w m -> (forall a, stops w (f a)) -> stops w (m ≫= f).
Proof.
  intros Hm Hf e. rewrite bind_snd, bind_trace.
  destruct m as [t [e'|a]]; simpl in *.
  - intros [= ->]. rewrite app_nil_r. by apply Hm.
  - intros He. specialize (Hf a e He). destruct e as [c|]; [|done].
    destruct Hf as [Hr [t' Ht']]. split; [done|].
    exists (t ++ t'). by rewrite Ht', app_assoc.
Qed.

Lemma stops_call w c : stops w (call w c).
Proof.
  intros e. unfold call. simpl. destruct (rejects w c) eqn:Hr; [|discriminate].
  intros [= <-]. split; [done|]. by exists [].
Qed.

Lemma stops_ret {A} w (a : A) : stops w (mret a : M A).
Proof. discriminate. Qed.

Lemma stops_emit w ev : stops w (emit ev).
Proof. discriminate. Qed.

Lemma stops_defined {A} w (o : option A) : stops w (defined o).
Proof. destruct o; [discriminate|]. by intros e [= <-]. Qed.

Lemma stops_collect_scores w cats lhr (scores : gmap string (list number)) :
  stops w (collect_scores cats lhr scores).
Proof.
  revert scores. induction cats as [|c cats IH]; intros scores; [discriminate|].
  simpl. destruct (WebVitals.categories lhr !! c) as [x|]; [|apply IH].
  apply stops_bind; [apply stops_defined|]. intros l. apply IH.
Qed.

Lemma stops_average w cats (scores : gmap string (list number)) acc :
  stops w (average cats scores acc).
Proof.
  revert acc. induction cats as [|c cats IH]; intros acc; [discriminate|].
  simpl. apply stops_bind; [apply stops_defined|]. intros l.
  case_bool_decide; apply IH.
Qed.

Lemma stops_run_once w config i st : stops w (run_once w config i st).
Proof.
  unfold run_once.
  do 3 (apply stops_bind; [apply stops_call|intros _]).
  apply stops_bind; [case_bool_decide; [apply stops_ret|apply stops_call]|intros _].
  apply stops_bind; [apply stops_collect_scores|intros scores]. apply stops_ret.
Qed.

Lemma stops_run_loop w config n i st : stops w (run_loop w config n i st).
Proof.
  revert i st. induction n as [|n IH]; intros i st; [discriminate|].
  simpl. apply stops_bind; [apply stops_run_once|]. intros st'. apply IH.
Qed.

(** An error thrown by the session was raised where the trace of the
    session ends. *)
Lemma stops_session w config : stops w (session w config).
Proof.
  unfold session, generateDetailedReport, generateComparisonReport.
  apply stops_bind; [apply stops_call|intros _].
  apply stops_bind; [apply stops_run_loop|intros st].
  apply stops_bind; [apply stops_average|intros avgScores].
  apply stops_bind; [apply stops_call|intros _].
  apply stops_bind; [apply stops_defined|intros last].
  apply stops_bind.
  { destruct (saveHistory config); [|apply stops_ret].
    apply stops_bind; [apply stops_call|intros _].
    apply stops_bind; [apply stops_emit|intros _].
    apply stops_bind; [apply stops_call|intros _].
    case_bool_decide; [|apply stops_ret].
    apply stops_bind; [apply stops_call|intros _]. apply stops_emit. }
  intros _. apply stops_bind.
  { apply stops_bind; [apply stops_defined|intros reportData].
    apply stops_bind; [apply stops_call|intros _]. apply stops_emit. }
  intros _. destruct (compareUrl config); [|apply stops_ret].
  apply stops_bind; [apply stops_call|intros _].
  apply stops_bind; [apply stops_call|intros _]. apply stops_emit.
Qed.

End Failures.




(** When the write of the detailed report fails, the history entry has
    already been saved: the reports written before the error stay. *)
Example report_write_fails_after_history :
  exists r t,
    Index.main Examples.report_write_fails (Examples.config_of 3)
    = t ++ [Index.HistorySaved r; Index.Called Index.ReadHistory;
            Index.Called Index.WriteDetailedReport;
            Index.LoggedError (Index.Rejected Index.WriteDetailedReport);
            Index.Called Index.KillChrome; Index.Exit 0].
Proof.
  eexists. eexists (_ :: _ :: _ :: _ :: _ :: _ :: _ :: _ :: _ :: _ :: _ :: _ :: _ :: _ :: []).
  vm_compute. reflexivity.
Qed.

(** ** Further examples *)

(** An audit without a numeric value, an audit with a null score and a
    missing audit all give an absent metric; a scored audit gives its
    numeric value. *)
Lemma extractor_absent_or_value_witness :
  get kFCP (extractWebVitals (Examples.lhr_of 1 None 1234)) = Some 1234
  /\ get kLCP (extractWebVitals (Examples.lhr_of 1 None 1234)) = None.
Proof.
  split.
  - apply (proj2 (extractor_absent_or_value (Examples.lhr_of 1 None 1234) kFCP)
                 (mkAudit (Some 1) (Some 1234)) 1234);
      [reflexivity | simpl; eauto | reflexivity].
  - apply (proj1 (extractor_absent_or_value (Examples.lhr_of 1 None 1234) kLCP)).
    left. reflexivity.
Defined.

(** The two counting rules differ: a layout shift going from 0.1 to 0.2 is
    a raw delta of 0.1 but a change of 100 percent, and is counted as a
    regression; a category delta of 0.5 is counted as nothing. *)
Example summary_counts_asymmetry :
  ComparisonReporter.generateSummaryStats
    (<["performance" := 0.5]> ∅)
    (ComparisonReporter.calculateWebVitalsDiffs
       (mkMetrics None None (Some 0.1) None None None None)
       (mkMetrics None None (Some 0.2) None None None None))
  = {| ComparisonReporter.improvedScores := 0;
       ComparisonReporter.regressedScores := 0;
       ComparisonReporter.improvedWebVitals := 0;
       ComparisonReporter.regressedWebVitals := 1 |}.
Proof. vm_compute. reflexivity. Qed.

(** * Further properties *)

(** ** Recommendations and report cards *)

Section Recommendations.

Lemma generateWebVitalsRecommendations_steps metrics evaluations :
  generateWebVitalsRecommendations metrics evaluations =
  rec_step "TTFB" ["优化服务器处理时间"; "使用CDN"; "预连接到所需的源"; "使用缓存"]
           (TTFB metrics) evaluations
    (rec_step "TBT" ["减少主线程工作"; "减少JavaScript执行时间"; "优化第三方脚本的影响"]
              (TBT metrics) evaluations
      (rec_step "TTI" ["减少JavaScript的体积"; "移除未使用的JavaScript"; "使用代码分割";
                       "延迟加载非关键JavaScript"]
                (TTI metrics) evaluations
        (rec_step "FID" ["减少JavaScript执行时间"; "拆分长任务"; "优化事件处理程序"]
                  (FID metrics) evaluations
          (rec_step "CLS" ["为图片和视频元素设置明确的宽高"; "避免在已有内容上方插入内容";
                           "使用transform动画代替影响布局的属性"]
                    (CLS metrics) evaluations
            (rec_step "LCP" ["优化最大内容元素的加载"; "使用图片懒加载";
                             "优化服务器响应时间"; "预加载关键资源"]
                      (LCP metrics) evaluations
              (rec_step "FCP" ["优化服务器响应时间"; "移除阻塞渲染的资源";
                               "优化关键渲染路径"]
                        (FCP metrics) evaluations ∅)))))).
Proof. reflexivity. Qed.

Lemma lookup_rec_step name advice value evaluations recommendations (s : string) :
  rec_step name advice value evaluations recommendations !! s =
  if decide (s = name)
  then if needs_advice value (evaluations !! name) then Some advice
       else recommendations !! s
  else recommendations !! s.
Proof.
  unfold rec_step. destruct (needs_advice _ _); case_decide; subst;
    by rewrite ?lookup_insert_eq, ?lookup_insert_ne.
Qed.

(** The advice stored for a metric is not empty, and is stored exactly
    when the metric needs advice. *)
Lemma lookup_recommendations metrics evaluations k :
  exists advice,
    advice <> []
    /\ generateWebVitalsRecommendations metrics evaluations !! key_name k =
       if needs_advice (get k metrics) (evaluations !! key_name k)
       then Some advice else None.
Proof.
  rewrite generateWebVitalsRecommendations_steps, !lookup_rec_step.
  destruct k; simpl; repeat case_decide; try congruence;
    (eexists; split; [|destruct (needs_advice _ _); [reflexivity|apply lookup_empty]]);
    discriminate.
Qed.

Lemma lookup_recommendations_other metrics evaluations (s : string) :
  (forall k, s <> key_name k) ->
  generateWebVitalsRecommendations metrics evaluations !! s = None.
Proof.
  intros Hs. rewrite generateWebVitalsRecommendations_steps, !lookup_rec_step.
  pose proof (Hs kFCP). pose proof (Hs kLCP). pose proof (Hs kCLS).
  pose proof (Hs kFID). pose proof (Hs kTTI). pose proof (Hs kTBT).
  pose proof (Hs kTTFB). simpl in *.
  repeat case_decide; try congruence. apply lookup_empty.
Qed.

(** A metric evaluated by [evaluateWebVitals] needs advice iff it is
    present and not below its lower threshold. *)
Lemma needs_advice_evaluated metrics k :
  needs_advice (get k metrics) (evaluateWebVitals metrics !! key_name k) = true
  <-> exists v, get k metrics = Some v /\ (thresholds k).1 <= v.
Proof.
  rewrite lookup_evaluateWebVitals. unfold needs_advice.
  destruct (get k metrics) as [v|]; simpl.
  - rewrite negb_true_iff, bool_decide_eq_false.
    destruct (classify_band _ _ v (thresholds_ordered k)) as (Hg & _ & _).
    simpl in Hg. split.
    + intros Hne. exists v. split; [done|].
      destruct (Qlt_le_dec v (thresholds k).1) as [Hlt|Hle]; [|done].
      destruct Hne. f_equal. by apply Hg.
    + intros (v' & [= <-] & Hle) [= Heq]. apply Hg in Heq. lra.
  - split; [discriminate|]. intros (v & Hv & _). discriminate.
Qed.

End Recommendations.

(** X1: with the evaluations computed by the evaluator, the recommendation
    map has an entry under a key iff the key names a metric that is present
    and whose value is at least its lower threshold (its band is not
    [good]); the advice list of an entry is never empty. *)
Theorem recommendations_iff_not_good (metrics : WebVitalsMetrics) (s : string) :
  (is_Some (generateWebVitalsRecommendations metrics (evaluateWebVitals metrics) !! s)
   <-> exists k v, s = key_name k /\ get k metrics = Some v /\ (thresholds k).1 <= v)
  /\ generateWebVitalsRecommendations metrics (evaluateWebVitals metrics) !! s
     <> Some [].
Proof.
  destruct (key_name_cases s) as [[k ->]|Hno].
  - destruct (lookup_recommendations metrics (evaluateWebVitals metrics) k)
      as (advice & Hne & ->).
    pose proof (needs_advice_evaluated metrics k) as Hiff.
    destruct (needs_advice _ _); split; try congruence.
    + split; [|by eauto]. intros _. destruct Hiff as [(v & Hv & Hle) _]; [done|].
      by exists k, v.
    + split; [by intros [? ?]|].
      intros (k' & v & ->%key_name_inj & Hv & Hle).
      destruct Hiff as [_ Hiff]. discriminate Hiff. eauto.
  - rewrite lookup_recommendations_other by done. split; [|done]. split.
    + by intros [? ?].
    + intros (k & v & -> & _). by destruct (Hno k).
Qed.

(** X2: without evaluations (an empty evaluation map), every present
    metric gets advice, whatever its value: a missing evaluation is not the
    label [good]. *)
Theorem recommendations_without_evaluations (metrics : WebVitalsMetrics) (k : MetricKey) :
  is_Some (generateWebVitalsRecommendations metrics ∅ !! key_name k)
  <-> is_Some (get k metrics).
Proof.
  destruct (lookup_recommendations metrics ∅ k) as (advice & _ & ->).
  rewrite lookup_empty. unfold needs_advice.
  destruct (get k metrics); simpl; split; eauto; by intros [? ?].
Qed.

Section Cards.

Variable metrics : WebVitalsMetrics.
Variable evaluations : gmap string string.
Variable recommendations : gmap string (list string).

Lemma generateWebVitalCards_fold :
  ReportGenerator.generateWebVitalCards metrics evaluations recommendations =
  foldl (card_step metrics evaluations recommendations) [] Object_keys.
Proof. reflexivity. Qed.

Lemma card_step_app html key :
  card_step metrics evaluations recommendations html key =
  html ++ card_step metrics evaluations recommendations [] key.
Proof.
  unfold card_step. destruct (get key metrics); [done|]. by rewrite app_nil_r.
Qed.

Lemma cards_foldl html keys :
  foldl (card_step metrics evaluations recommendations) html keys =
  html ++ flat_map (card_step metrics evaluations recommendations []) keys.
Proof.
  revert html. induction keys as [|key keys IH]; intros html; simpl.
  - by rewrite app_nil_r.
  - rewrite IH, card_step_app, <- app_assoc. done.
Qed.

Lemma cards_flat_map :
  ReportGenerator.generateWebVitalCards metrics evaluations recommendations =
  flat_map (card_step metrics evaluations recommendations []) Object_keys.
Proof. by rewrite generateWebVitalCards_fold, cards_foldl. Qed.

Lemma card_keys keys :
  ReportGenerator.card_key
    <$> flat_map (card_step metrics evaluations recommendations []) keys
  = List.filter (present metrics) keys.
Proof.
  induction keys as [|key keys IH]; [done|]. simpl.
  rewrite fmap_app, IH. unfold card_step, present.
  by destruct (get key metrics).
Qed.

(** A card is the card of its own metric. *)
Lemma elem_of_cards card :
  card ∈ ReportGenerator.generateWebVitalCards metrics evaluations recommendations ->
  card_step metrics evaluations recommendations [] (ReportGenerator.card_key card)
  = [card].
Proof.
  rewrite cards_flat_map. intros (key & _ & Hin)%list_elem_of_In%in_flat_map.
  unfold card_step in *. destruct (get key metrics) as [v|] eqn:E; [|by destruct Hin].
  destruct Hin as [<-|[]]. simpl. by rewrite E.
Qed.

End Cards.

(** X3: whatever the evaluations and the recommendations, the cards of the
    detailed report are those of the present metrics, one card each, in the
    order FCP, LCP, CLS, FID, TTI, TBT, TTFB. *)
Theorem cards_of_present_metrics (metrics : WebVitalsMetrics)
    (evaluations : gmap string string) (recommendations : gmap string (list string)) :
  ReportGenerator.card_key
    <$> ReportGenerator.generateWebVitalCards metrics evaluations recommendations
  = List.filter (present metrics) Object_keys.
Proof. rewrite cards_flat_map. apply card_keys. Qed.

(** X4: in the detailed report, where the cards are built from the
    evaluator and the recommendation generator, every card shows the value
    of its metric, carries the CSS class of the band of that value (never
    the empty class of an unevaluated metric), and lists advice iff the band
    is not [good]. *)
Theorem report_card_band (metrics : WebVitalsMetrics) (card : ReportGenerator.VitalCard) :
  card ∈ report_cards metrics ->
  let k := ReportGenerator.card_key card in
  let v := ReportGenerator.card_value card in
  get k metrics = Some v
  /\ (exists b, band_of metrics k b
                /\ ReportGenerator.evaluation card = band_label b
                /\ ReportGenerator.evaluationClass card = band_class b)
  /\ (ReportGenerator.recommendationList card = [] <-> v < (thresholds k).1).
Proof.
  intros Hin k v. apply elem_of_cards in Hin. fold k in Hin.
  unfold card_step in Hin.
  destruct (get k metrics) as [x|] eqn:Hx; [|discriminate].
  assert (card_eq : forall c1 c2 : ReportGenerator.VitalCard, [] ++ [c1] = [c2] -> c1 = c2)
    by (intros ? ? [= ->]; done).
  apply card_eq in Hin. clear card_eq.
  assert (x = v) as -> by (subst v; by rewrite <- Hin).
  split; [done|].
  pose proof (lookup_evaluateWebVitals metrics k) as Hev. rewrite Hx in Hev.
  simpl in Hev.
  destruct (lookup_recommendations metrics (evaluateWebVitals metrics) k)
    as (advice & Hadv & Hrec).
  pose proof (needs_advice_evaluated metrics k) as Hneed.
  rewrite Hev in Hin. rewrite Hrec in Hin.
  destruct (classify_band _ _ v (thresholds_ordered k)) as (Hg & Hn & Hp).
  split.
  - unfold band_of. rewrite Hev.
    unfold classify in *.
    destruct (lt v (thresholds k).1); [|destruct (lt v (thresholds k).2)].
    + exists good. rewrite <- Hin. by vm_compute.
    + exists needs_improvement. rewrite <- Hin. by vm_compute.
    + exists poor. rewrite <- Hin. by vm_compute.
  - rewrite <- Hin. simpl.
    destruct (needs_advice _ _) eqn:E; simpl.
    + destruct Hneed as [(v' & Hv' & Hle) _]; [done|].
      rewrite Hx in Hv'. injection Hv' as <-.
      split; [done|]. intros Hlt. lra.
    + split; [intros _|done].
      destruct (Qlt_le_dec v (thresholds k).1) as [Hlt|Hle]; [done|].
      destruct Hneed as [_ Hneed]. discriminate Hneed. eauto.
Qed.

(** A record whose First Contentful Paint is 2000: its card shows 2000
    and lists advice. *)
Lemma report_card_band_witness :
  exists card,
    card ∈ report_cards (mkMetrics (Some 2000) None None None None None None)
    /\ get (ReportGenerator.card_key card)
           (mkMetrics (Some 2000) None None None None None None)
       = Some (ReportGenerator.card_value card)
    /\ (ReportGenerator.recommendationList card = []
        <-> ReportGenerator.card_value card
            < (thresholds (ReportGenerator.card_key card)).1).
Proof.
  assert (exists card,
             report_cards (mkMetrics (Some 2000) None None None None None None) = [card])
    as [card Hcard] by (vm_compute; eexists; reflexivity).
  exists card.
  assert (card ∈ report_cards (mkMetrics (Some 2000) None None None None None None))
    as Hin by (rewrite Hcard; apply list_elem_of_singleton; reflexivity).
  split; [exact Hin|].
  destruct (report_card_band _ card Hin) as (Hv & _ & Hr). split; [exact Hv|exact Hr].
Defined.

(** ** The comparison tables *)

Section Rows.

Import ComparisonReporter.

Variables baselineWebVitals currentWebVitals : WebVitalsMetrics.

Lemma row_step_app rows entry :
  row_step baselineWebVitals currentWebVitals rows entry =
  rows ++ row_step baselineWebVitals currentWebVitals [] entry.
Proof.
  destruct entry as [key [name unit]]. unfold row_step.
  destruct (get key baselineWebVitals), (get key currentWebVitals);
    by rewrite ?app_nil_r.
Qed.

Lemma rows_foldl rows info :
  foldl (row_step baselineWebVitals currentWebVitals) rows info =
  rows ++ flat_map (row_step baselineWebVitals currentWebVitals []) info.
Proof.
  revert rows. induction info as [|entry info IH]; intros rows; simpl.
  - by rewrite app_nil_r.
  - rewrite IH, row_step_app, <- app_assoc. done.
Qed.

Lemma rows_flat_map :
  generateWebVitalsComparisonRows baselineWebVitals currentWebVitals =
  flat_map (row_step baselineWebVitals currentWebVitals []) webVitalsInfo.
Proof. by rewrite generateWebVitalsComparisonRows_fold, rows_foldl. Qed.

Lemma row_keys info :
  row_key <$> flat_map (row_step baselineWebVitals currentWebVitals []) info
  = List.filter (fun key =>
                   match get key baselineWebVitals, get key currentWebVitals with
                   | Some _, Some _ => true
                   | _, _ => false
                   end) info.*1.
Proof.
  induction info as [|[key [name unit]] info IH]; [done|]. simpl.
  rewrite fmap_app, IH. unfold row_step.
  by destruct (get key baselineWebVitals), (get key currentWebVitals).
Qed.

(** A row is the row of its own metric, which both records have. *)
Lemma elem_of_rows r :
  r ∈ generateWebVitalsComparisonRows baselineWebVitals currentWebVitals ->
  exists name unit baselineValue currentValue,
    get (row_key r) baselineWebVitals = Some baselineValue
    /\ get (row_key r) currentWebVitals = Some currentValue
    /\ row_step baselineWebVitals currentWebVitals [] (row_key r, (name, unit)) = [r].
Proof.
  rewrite rows_flat_map.
  intros ([key [name unit]] & _ & Hin)%list_elem_of_In%in_flat_map.
  unfold row_step in *.
  destruct (get key baselineWebVitals) as [bv|] eqn:Eb; [|by destruct Hin].
  destruct (get key currentWebVitals) as [cv|] eqn:Ec; [|by destruct Hin].
  destruct Hin as [<-|[]]. simpl. exists name, unit, bv, cv. by rewrite Eb, Ec.
Qed.

End Rows.

(** X5: the Web-Vitals table and the radar chart of the comparison report
    show the same metrics: the rows of the table and the labels of the
    chart are the metrics present in both records, once each, in the order
    FCP, LCP, CLS, FID, TTI, TBT, TTFB. *)
Theorem table_and_chart_metrics (baselineWebVitals currentWebVitals : WebVitalsMetrics) :
  ComparisonReporter.row_key
    <$> ComparisonReporter.generateWebVitalsComparisonRows
          baselineWebVitals currentWebVitals
  = ComparisonChart.labels (ComparisonChart.radar baselineWebVitals currentWebVitals).
Proof. rewrite rows_flat_map, row_keys. reflexivity. Qed.

(** X6: every row of the Web-Vitals table agrees with the entry of the
    diff map for the same metric: same percentage, and the row is shown as
    an improvement iff the entry has the [improved] flag.  The table has no
    dead zone: a row is neutral only when the two values are equal, and
    every metric that the summary counts as a regression is shown as
    one. *)
Theorem rows_agree_with_diffs (baselineWebVitals currentWebVitals : WebVitalsMetrics)
    (r : ComparisonReporter.VitalRow) :
  r ∈ ComparisonReporter.generateWebVitalsComparisonRows
        baselineWebVitals currentWebVitals ->
  exists d baselineValue currentValue,
    get (ComparisonReporter.row_key r) baselineWebVitals = Some baselineValue
    /\ get (ComparisonReporter.row_key r) currentWebVitals = Some currentValue
    /\ ComparisonReporter.calculateWebVitalsDiffs baselineWebVitals currentWebVitals
         !! key_name (ComparisonReporter.row_key r) = Some d
    /\ ComparisonReporter.percentDiff r = ComparisonReporter.percentage d
    /\ (ComparisonReporter.diffClass r = ComparisonReporter.improvement
        <-> ComparisonReporter.improved d = true)
    /\ (ComparisonReporter.diffClass r = ComparisonReporter.neutral
        <-> currentValue == baselineValue)
    /\ (ComparisonReporter.improved d = false
        /\ 1 < Qabs (ComparisonReporter.percentage d)
        -> ComparisonReporter.diffClass r = ComparisonReporter.regression).
Proof.
  intros (name & unit & bv & cv & Hb & Hc & Hr)%elem_of_rows.
  eexists _, bv, cv. rewrite lookup_calculateWebVitalsDiffs, Hb, Hc.
  split; [done|]. split; [done|]. split; [reflexivity|].
  unfold row_step in Hr. rewrite Hb, Hc in Hr.
  assert (row_eq : forall r1 r2 : ComparisonReporter.VitalRow, [] ++ [r1] = [r2] -> r1 = r2)
    by (intros ? ? [= ->]; done).
  apply row_eq in Hr. rewrite <- Hr. simpl. clear Hr row_eq.
  split; [reflexivity|]. unfold gt.
  destruct (lt (cv - bv) 0) eqn:E1.
  - apply lt_true in E1. split; [done|]. split.
    + split; [discriminate|]. intros Heq. lra.
    + intros [? _]. discriminate.
  - apply lt_false in E1. destruct (lt 0 (cv - bv)) eqn:E2.
    + apply lt_true in E2. split; [split; discriminate|].
      split; [|done]. split; [discriminate|]. intros Heq. lra.
    + apply lt_false in E2. split; [split; discriminate|].
      split; [split; [intros _; lra|done]|].
      intros [_ Habs]. assert (cv - bv == 0) as Hz by lra.
      destruct (nonzero bv).
      * assert ((cv - bv) / bv * 100 == 0) as Hp by (rewrite Hz; unfold Qdiv; ring).
        rewrite Hp in Habs. discriminate.
      * discriminate.
Qed.

(** The row of a Largest Contentful Paint going from 4000 to 2500 is an
    improvement, as its entry in the diff map. *)
Lemma rows_agree_with_diffs_witness :
  exists r d,
    r ∈ ComparisonReporter.generateWebVitalsComparisonRows
          (mkMetrics None (Some 4000) None None None None None)
          (mkMetrics None (Some 2500) None None None None None)
    /\ ComparisonReporter.calculateWebVitalsDiffs
         (mkMetrics None (Some 4000) None None None None None)
         (mkMetrics None (Some 2500) None None None None None)
         !! key_name (ComparisonReporter.row_key r) = Some d
    /\ ComparisonReporter.percentDiff r = ComparisonReporter.percentage d.
Proof.
  assert (exists r,
             ComparisonReporter.generateWebVitalsComparisonRows
               (mkMetrics None (Some 4000) None None None None None)
               (mkMetrics None (Some 2500) None None None None None) = [r])
    as [r Hr] by (vm_compute; eexists; reflexivity).
  assert (r ∈ ComparisonReporter.generateWebVitalsComparisonRows
                (mkMetrics None (Some 4000) None None None None None)
                (mkMetrics None (Some 2500) None None None None None))
    as Hin by (rewrite Hr; apply list_elem_of_singleton; reflexivity).
  destruct (rows_agree_with_diffs _ _ r Hin) as (d & _ & _ & _ & _ & Hd & Hp & _).
  exists r, d. split; [exact Hin|]. split; [exact Hd|exact Hp].
Defined.

(** ** Score diffs and summary bounds *)

Section ScoreTable.

Import ComparisonReporter.

Lemma length_filter_le {A} (P : A -> Prop) `{!forall x, Decision (P x)} (l : list A) :
  (count P l <= length l)%nat.
Proof. unfold count. apply length_filter. Qed.

(** Two properties that exclude each other are counted on disjoint
    elements. *)
Lemma count_disjoint {A} (P Q : A -> Prop)
    `{!forall x, Decision (P x)} `{!forall x, Decision (Q x)} (l : list A) :
  (forall x, P x -> ~ Q x) -> (count P l + count Q l <= length l)%nat.
Proof.
  intros Hex. induction l as [|x l IH]; [done|].
  rewrite !count_cons. simpl.
  destruct (decide (P x)) as [HP|HP], (decide (Q x)) as [HQ|HQ];
    try (by destruct (Hex x)); lia.
Qed.

Lemma length_Object_values {A} (m : gmap string A) :
  length (Object_values m) = size m.
Proof. unfold Object_values. by rewrite length_fmap, length_map_to_list. Qed.

Lemma size_diff_step b c (diffs : gmap string VitalDiff) key :
  (size (diff_step b c diffs key) <= S (size diffs))%nat.
Proof.
  unfold diff_step. destruct (get key b), (get key c); try lia.
  destruct (diffs !! key_name key) eqn:E.
  - rewrite map_size_insert_Some; [lia|eauto].
  - rewrite map_size_insert_None by done. lia.
Qed.

Lemma size_diffs_fold b c keys (diffs : gmap string VitalDiff) :
  (size (foldl (diff_step b c) diffs keys) <= size diffs + length keys)%nat.
Proof.
  revert diffs. induction keys as [|key keys IH]; intros diffs; simpl; [lia|].
  specialize (IH (diff_step b c diffs key)).
  pose proof (size_diff_step b c diffs key). lia.
Qed.

Lemma dom_calculateScoreDiffs (baselineScores currentScores : gmap string number) :
  dom (calculateScoreDiffs baselineScores currentScores) = dom baselineScores.
Proof.
  apply set_eq. intros c. rewrite !elem_of_dom, lookup_calculateScoreDiffs.
  apply fmap_is_Some.
Qed.

End ScoreTable.

(** X7: the score diff map has exactly the categories of the baseline; a
    category that only the current result has is ignored, and a category
    that the current result lacks is compared with the score 0, so that its
    delta is minus the baseline score and its row is shown as a regression
    iff the baseline score is above 1. *)
Theorem score_diff_missing_current (data : ComparisonReporter.ComparisonData)
    (category : string) (b : number) :
  let baselineScores := TestResult.scores (ComparisonReporter.baseline data) in
  let currentScores := TestResult.scores (ComparisonReporter.current data) in
  dom (ComparisonReporter.calculateScoreDiffs baselineScores currentScores)
  = dom baselineScores
  /\ (baselineScores !! category = Some b -> currentScores !! category = None ->
      ComparisonReporter.calculateScoreDiffs baselineScores currentScores !! category
      = Some (0 - b)
      /\ (ComparisonReporter.scoreDiffClass
            (ComparisonReporter.scoreRow data (category, b))
          = ComparisonReporter.regression <-> 1 < b)).
Proof.
  intros baselineScores currentScores. split; [apply dom_calculateScoreDiffs|].
  intros Hb Hc. split.
  - by rewrite lookup_calculateScoreDiffs, Hb, Hc.
  - unfold ComparisonReporter.scoreRow. simpl. fold currentScores. rewrite Hc. simpl.
    rewrite category_class_spec.
    destruct (category_class_cases (0 - b)) as (_ & Hr & _). rewrite Hr.
    split; intros; lra.
Qed.

(** A baseline with a performance score of 70 compared with a result
    without that category: the delta is -70 and the row is a regression. *)
Lemma score_diff_missing_current_witness :
  ComparisonReporter.calculateScoreDiffs
    (TestResult.scores (ComparisonReporter.baseline Examples.scores_70)) ∅
    !! "performance" = Some (0 - 70).
Proof.
  apply (proj2 (score_diff_missing_current
                  {| ComparisonReporter.baseline :=
                       ComparisonReporter.baseline Examples.scores_70;
                     ComparisonReporter.current :=
                       TestResult.mk "" "" ∅ Examples.no_metrics |}
                  "performance" 70));
    vm_compute; reflexivity.
Defined.

Section SummaryBounds.

Import ComparisonReporter.

Lemma generateSummaryStats_counts (scoreDiffs : gmap string number)
    (webVitalsDiffs : gmap string VitalDiff) :
  generateSummaryStats scoreDiffs webVitalsDiffs =
  {| improvedScores := count (fun delta => 1 < delta) (Object_values scoreDiffs);
     regressedScores := count (fun delta => delta < -1) (Object_values scoreDiffs);
     improvedWebVitals :=
       count (fun d => improved d = true) (Object_values webVitalsDiffs);
     regressedWebVitals :=
       count (fun d => improved d = false /\ 1 < Qabs (percentage d))
             (Object_values webVitalsDiffs) |}.
Proof.
  unfold generateSummaryStats.
  rewrite (count_loop (fun delta => 1 < delta) (fun delta => delta < -1)).
  - rewrite (count_loop (fun d => improved d = true)
                        (fun d => improved d = false /\ 1 < Qabs (percentage d))).
    + done.
    + done.
    + intros d. unfold gt, Math_abs. rewrite andb_true_iff, negb_true_iff, lt_true. done.
    + intros d Hd [Hd' _]. congruence.
  - intros delta. apply lt_true.
  - intros delta. apply lt_true.
  - intros delta H1 H2. lra.
Qed.

(** The diff map has one entry for each metric present in both records. *)
Lemma size_diffs_filter b c keys (diffs : gmap string VitalDiff) :
  NoDup keys ->
  (forall k, k ∈ keys -> diffs !! key_name k = None) ->
  size (foldl (diff_step b c) diffs keys)
  = (size diffs
     + length (List.filter (fun key => match get key b, get key c with
                                       | Some _, Some _ => true
                                       | _, _ => false
                                       end) keys))%nat.
Proof.
  revert diffs. induction keys as [|key keys IH]; intros diffs Hnd Hfresh; simpl; [lia|].
  apply NoDup_cons in Hnd as [Hkey Hnd].
  rewrite IH; [|done|].
  - unfold diff_step. destruct (get key b), (get key c); simpl; try lia.
    rewrite map_size_insert_None; [lia|]. apply Hfresh. left.
  - intros k Hk. rewrite lookup_diff_step.
    + apply Hfresh. by right.
    + intros ->%key_name_inj. done.
Qed.

Lemma size_calculateWebVitalsDiffs b c :
  size (calculateWebVitalsDiffs b c) = length (generateWebVitalsComparisonRows b c).
Proof.
  rewrite calculateWebVitalsDiffs_fold, size_diffs_filter.
  - rewrite map_size_empty. simpl.
    rewrite <- (length_fmap row_key (generateWebVitalsComparisonRows b c)).
    rewrite rows_flat_map, row_keys. reflexivity.
  - apply Object_keys_NoDup.
  - intros k _. apply lookup_empty.
Qed.

End SummaryBounds.

(** X8: in the comparison report, the improvements and the regressions
    counted by the summary are counted on different rows: for the
    categories their sum is at most the number of rows of the score table,
    for the metrics at most the number of rows of the Web-Vitals table,
    which has at most seven rows. *)
Theorem summary_within_tables (data : ComparisonReporter.ComparisonData) :
  let h := ComparisonReporter.generateComparisonHtml data in
  let stats := ComparisonReporter.summary h in
  (ComparisonReporter.improvedScores stats + ComparisonReporter.regressedScores stats
   <= length (ComparisonReporter.scoreRows h))%nat
  /\ (ComparisonReporter.improvedWebVitals stats
      + ComparisonReporter.regressedWebVitals stats
      <= length (ComparisonReporter.webVitalsRows h))%nat
  /\ (length (ComparisonReporter.webVitalsRows h) <= 7)%nat.
Proof.
  intros h stats. subst h stats. simpl.
  rewrite generateSummaryStats_counts. simpl. split; [|split].
  - etrans; [apply count_disjoint; intros delta H1 H2; lra|].
    rewrite length_Object_values, length_fmap. unfold ComparisonReporter.Object_entries.
    rewrite length_map_to_list.
    rewrite <- (size_dom (ComparisonReporter.calculateScoreDiffs _ _)),
      dom_calculateScoreDiffs, size_dom. done.
  - etrans; [apply count_disjoint; intros d H1 [H2 _]; congruence|].
    by rewrite length_Object_values, size_calculateWebVitalsDiffs.
  - rewrite <- size_calculateWebVitalsDiffs, calculateWebVitalsDiffs_fold.
    etrans; [apply size_diffs_fold|]. rewrite map_size_empty. simpl. lia.
Qed.

(** ** Console output *)

Section Console.

Lemma ge_true a b : Cli.ge a b = true <-> b <= a.
Proof. unfold Cli.ge. apply Qle_bool_iff. Qed.

Lemma ge_false a b : Cli.ge a b = false <-> a < b.
Proof.
  unfold Cli.ge. rewrite <- not_true_iff_false, Qle_bool_iff.
  split; [apply Qnot_le_lt | apply Qlt_not_le].
Qed.

(** The colour chosen by [formatWebVital] for a named metric. *)
Lemma formatWebVital_colour k v unit :
  Cli.colour (Cli.formatWebVital (key_name k) (Some v) unit) =
  if lt v (thresholds k).1 then Cli.green
  else if lt v (thresholds k).2 then Cli.yellow else Cli.red.
Proof. destruct k; reflexivity. Qed.

End Console.

(** X9: the console and the report agree: for every present metric, the
    colour in which [formatWebVital] prints the value is the colour of the
    band the evaluator assigns to it (green for good, yellow for
    needs-improvement, red for poor); an absent value is printed in gray as
    not available, and a name that is not a metric in blue. *)
Theorem console_colour_agrees_with_band (metrics : WebVitalsMetrics) (k : MetricKey)
    (v : number) (unit : string) :
  get k metrics = Some v ->
  (exists b, band_of metrics k b
             /\ Cli.colour (Cli.formatWebVital (key_name k) (Some v) unit)
                = band_colour b)
  /\ Cli.formatWebVital (key_name k) None unit
     = Cli.mkColoured (key_name k) Cli.gray Cli.not_available
  /\ (forall name, (forall k', name <> key_name k') ->
                   Cli.colour (Cli.formatWebVital name (Some v) unit) = Cli.blue).
Proof.
  intros Hv. split; [|split].
  - rewrite formatWebVital_colour. unfold band_of.
    rewrite lookup_evaluateWebVitals, Hv. simpl. unfold classify.
    destruct (lt v (thresholds k).1); [by exists good|].
    destruct (lt v (thresholds k).2); [by exists needs_improvement|by exists poor].
  - reflexivity.
  - intros name Hname. unfold Cli.formatWebVital.
    pose proof (Hname kFCP). pose proof (Hname kLCP). pose proof (Hname kCLS).
    pose proof (Hname kFID). pose proof (Hname kTTI). pose proof (Hname kTBT).
    pose proof (Hname kTTFB). simpl in *.
    repeat case_bool_decide; try congruence. reflexivity.
Qed.

(** A Largest Contentful Paint of exactly 2500 is yellow. *)
Lemma console_colour_agrees_with_band_witness :
  exists b,
    band_of (mkMetrics None (Some 2500) None None None None None) kLCP b
    /\ Cli.colour (Cli.formatWebVital "LCP" (Some 2500) "ms") = band_colour b.
Proof.
  exact (proj1 (console_colour_agrees_with_band
                  (mkMetrics None (Some 2500) None None None None None)
                  kLCP 2500 "ms" eq_refl)).
Defined.

(** X10: the console and the detailed report agree on category scores:
    a score of 90 or more is green on the console and [good] on its card,
    a score from 50 up to 90 is yellow and [needs-improvement], and a
    lower score is red and [poor]; the bounds 90 and 50 belong to the
    better class. *)
Theorem score_colour_agrees_with_card (category : string) (score : number) :
  let card := DetailedHtml.scoreCard (category, score) in
  let shown := Cli.formatScore score in
  (90 <= score /\ Cli.colour shown = Cli.green
   /\ DetailedHtml.scoreClass card = "good")
  \/ (50 <= score < 90 /\ Cli.colour shown = Cli.yellow
      /\ DetailedHtml.scoreClass card = "needs-improvement")
  \/ (score < 50 /\ Cli.colour shown = Cli.red
      /\ DetailedHtml.scoreClass card = "poor").
Proof.
  intros card shown. subst card shown.
  unfold DetailedHtml.scoreCard, Cli.formatScore. simpl.
  destruct (Cli.ge score 90) eqn:E1; [apply ge_true in E1; by left|].
  apply ge_false in E1. right.
  destruct (Cli.ge score 50) eqn:E2; [apply ge_true in E2; by left|].
  apply ge_false in E2. by right.
Qed.

Section Time.

(** The floor of a number between two consecutive integers. *)
Lemma Qfloor_between (x : number) (n : Z) :
  inject_Z n <= x -> x < inject_Z (n + 1) -> Qfloor x = n.
Proof.
  intros Hlo Hhi.
  pose proof (Qfloor_le x) as H1. pose proof (Qlt_floor x) as H2.
  assert (inject_Z (Qfloor x) < inject_Z (n + 1)) as H3 by lra.
  assert (inject_Z n < inject_Z (Qfloor x + 1)) as H4 by lra.
  rewrite <- Zlt_Qlt in H3, H4. lia.
Qed.

Lemma inject_Z_add_1 (n : Z) : inject_Z (n + 1) == inject_Z n + 1.
Proof. rewrite inject_Z_plus. reflexivity. Qed.

Lemma trunc_nonneg (x : number) : 0 <= x -> Cli.trunc x = Qfloor x.
Proof.
  intros Hx. unfold Cli.trunc.
  destruct (Qle_bool 0 x) eqn:E; [done|].
  apply not_true_iff_false in E. destruct E. by apply Qle_bool_iff.
Qed.

(** Minutes and seconds of a non-negative duration, in exact
    arithmetic. *)
Lemma minutes_seconds (seconds : number) :
  0 <= seconds ->
  let mins := Qfloor (seconds / 60) in
  let secs := Cli.Math_floor (Cli.rem seconds 60) in
  (0 <= mins /\ 0 <= secs < 60 /\ 60 * mins + secs = Qfloor seconds)%Z.
Proof.
  intros Hs mins secs. subst mins secs. unfold Cli.Math_floor, Cli.rem.
  assert (0 <= seconds / 60) as Hq.
  { unfold Qdiv. apply Qmult_le_0_compat; [done|]. discriminate. }
  rewrite trunc_nonneg by done.
  set (m := Qfloor (seconds / 60)).
  pose proof (Qfloor_le (seconds / 60)) as H1. fold m in H1.
  pose proof (Qlt_floor (seconds / 60)) as H2. fold m in H2.
  rewrite inject_Z_add_1 in H2.
  assert (seconds == seconds / 60 * 60) as Hmul by (field; discriminate).
  assert (inject_Z m * 60 <= seconds) as H3 by lra.
  assert (seconds < (inject_Z m + 1) * 60) as H4 by lra.
  assert (0 <= m)%Z as Hm.
  { subst m. change 0%Z with (Qfloor 0). by apply Qfloor_resp_le. }
  pose proof (Qfloor_le seconds) as H5. pose proof (Qlt_floor seconds) as H6.
  rewrite inject_Z_add_1 in H6.
  set (f := Qfloor seconds) in *.
  assert (inject_Z (60 * m) == inject_Z m * 60) as Hm60.
  { rewrite inject_Z_mult. change (inject_Z 60) with 60. ring. }
  assert (Qfloor (seconds - 60 * inject_Z m) = (f - 60 * m)%Z) as Hsecs.
  { apply Qfloor_between.
    - unfold Z.sub. rewrite inject_Z_plus, inject_Z_opp, Hm60. lra.
    - rewrite inject_Z_add_1. unfold Z.sub.
      rewrite inject_Z_plus, inject_Z_opp, Hm60. lra. }
  rewrite Hsecs. split; [done|].
  assert (inject_Z (60 * m) < inject_Z (f + 1)) as H7.
  { rewrite inject_Z_add_1, Hm60. lra. }
  assert (inject_Z f < inject_Z (60 * m + 60)) as H8.
  { rewrite inject_Z_plus, Hm60. change (inject_Z 60) with 60. lra. }
  rewrite <- Zlt_Qlt in H7, H8. lia.
Qed.

(** Seconds below 60 are shown with two characters. *)
Lemma two_digits (secs : Z) :
  (0 <= secs < 60)%Z ->
  String.length (Cli.padStart 2 "0"%char (Cli.toString secs)) = 2%nat.
Proof.
  intros Hs. rewrite <- (Z2Nat.id secs) by lia.
  assert (Z.to_nat secs < 60)%nat as Hn by lia.
  remember (Z.to_nat secs) as n eqn:Heqn. clear Heqn Hs.
  do 60 (destruct n as [|n]; [vm_compute; reflexivity|]). lia.
Qed.

End Time.

(** X11: for a duration that is a double, not negative and below [2^53],
    [formatTime] prints the whole minutes, a colon and the remaining whole
    seconds: the rounding of the quotient by 60 does not change its whole
    part, the minutes are a whole number below [2^53], the seconds are
    below 60 and always take two characters, and minutes and seconds add
    up to the duration rounded down. *)
Theorem formatTime_minutes_seconds (seconds : number) :
  Double.round seconds == seconds -> 0 <= seconds -> seconds < Double.pow2 53 ->
  exists secs : Z,
    Cli.seconds_text (Cli.formatTime seconds)
    = Cli.padStart 2 "0"%char (Cli.toString secs)
    /\ String.length (Cli.seconds_text (Cli.formatTime seconds)) = 2%nat
    /\ Cli.minutes (Cli.formatTime seconds) = Qfloor (seconds / 60)
    /\ (0 <= Cli.minutes (Cli.formatTime seconds) < 2 ^ 53
        /\ 0 <= secs < 60
        /\ 60 * Cli.minutes (Cli.formatTime seconds) + secs = Qfloor seconds)%Z.
Proof.
  intros Hd Hs Hhi. destruct (minutes_seconds seconds Hs) as (Hm & Hsecs & Hsum).
  exists (Cli.Math_floor (Cli.rem seconds 60)).
  change (Cli.seconds_text (Cli.formatTime seconds))
    with (Cli.padStart 2 "0"%char (Cli.toString (Cli.Math_floor (Cli.rem seconds 60)))).
  change (Cli.minutes (Cli.formatTime seconds)) with (Qfloor (Double.div seconds 60)).
  rewrite floor_div_60 by done.
  split; [reflexivity|]. split; [by apply two_digits|]. split; [reflexivity|].
  split; [|done]. split; [done|].
  rewrite Zlt_Qlt. pose proof (Qfloor_le (seconds / 60)) as H1.
  apply Qle_lt_trans with (seconds / 60); [exact H1|].
  apply Qle_lt_trans with seconds; [|exact Hhi].
  assert (seconds == seconds / 60 * 60) as Hmul by (field; discriminate). lra.
Qed.

(** 75.5 seconds are printed as one minute and fifteen seconds. *)
Lemma formatTime_minutes_seconds_witness :
  exists secs : Z,
    Cli.seconds_text (Cli.formatTime 75.5)
    = Cli.padStart 2 "0"%char (Cli.toString secs)
    /\ String.length (Cli.seconds_text (Cli.formatTime 75.5)) = 2%nat
    /\ Cli.minutes (Cli.formatTime 75.5) = Qfloor (75.5 / 60)
    /\ (0 <= Cli.minutes (Cli.formatTime 75.5) < 2 ^ 53
        /\ 0 <= secs < 60
        /\ 60 * Cli.minutes (Cli.formatTime 75.5) + secs = Qfloor 75.5)%Z.
Proof.
  apply (formatTime_minutes_seconds 75.5); [reflexivity|discriminate|reflexivity].
Defined.

Example formatTime_75 :
  Cli.formatTime 75.5 = {| Cli.minutes := 1; Cli.seconds_text := "15" |}.
Proof. vm_compute. reflexivity. Qed.

(** The bound matters: for a duration of [10^21] seconds the minutes are
    the double that the program prints as 16666666666666666000, which is
    not the whole part of the exact quotient. *)
Example formatTime_1e21 :
  inject_Z (Cli.minutes (Cli.formatTime 1e21)) == Double.round 16666666666666666000
  /\ Cli.seconds_text (Cli.formatTime 1e21) = "40"
  /\ Cli.minutes (Cli.formatTime 1e21) <> Qfloor (1e21 / 60).
Proof. vm_compute. done. Qed.

Section Progress.

Lemma Math_round_int (n : Z) : ComparisonReporter.Math_round (inject_Z n) = n.
Proof.
  unfold ComparisonReporter.Math_round. apply Qfloor_between.
  - lra.
  - rewrite inject_Z_add_1. lra.
Qed.

Lemma Math_round_mono (x y : number) :
  x <= y -> (ComparisonReporter.Math_round x <= ComparisonReporter.Math_round y)%Z.
Proof.
  intros Hxy. unfold ComparisonReporter.Math_round. apply Qfloor_resp_le. lra.
Qed.

End Progress.



(** X13: an error message is never suppressed: at every level the logger
    prints it, in red, on the error stream; a debug message is printed only
    at the level [DEBUG]; and a message printed at some level is printed at
    every level below it. *)
Theorem logger_levels (level : Cli.LogLevel) (message : string) (err : option string) :
  (exists rest,
     Cli.error level message err
     = Cli.mkLine true Cli.red ("[错误] " +:+ message) :: rest)
  /\ (Cli.debug level message <> [] <-> level = Cli.DEBUG)
  /\ (forall lower,
        (Cli.level_value lower <= Cli.level_value level)%Z ->
        (Cli.info level message <> [] -> Cli.info lower message <> [])
        /\ (Cli.success level message <> [] -> Cli.success lower message <> [])
        /\ (Cli.warning level message <> [] -> Cli.warning lower message <> [])).
Proof.
  split; [|split].
  - destruct level; simpl; eauto.
  - unfold Cli.debug, Cli.enabled. destruct level; simpl; split; congruence.
  - intros lower Hle. unfold Cli.info, Cli.success, Cli.warning, Cli.enabled.
    destruct level, lower; simpl in *; try lia; repeat split; congruence.
Qed.

(** ** The radar chart *)

Section RadarChart.

Import ComparisonChart.

Variables baselineWebVitals currentWebVitals : WebVitalsMetrics.

(** The reference value used for a metric other than CLS is its entry in
    the table; the maximum of the two values is never needed. *)
Lemma normalized_reference key value :
  key <> kCLS ->
  exists ref,
    referenceValues key = Some ref /\ 0 < ref
    /\ normalized baselineWebVitals currentWebVitals key value
       = Qmax 0 (Qmin 100 (100 - (value / ref * 100))).
Proof.
  intros Hk. destruct key; try done; eexists; (split; [reflexivity|]); split; reflexivity.
Qed.

Lemma clamp_bounds x : 0 <= Qmax 0 (Qmin 100 x) <= 100.
Proof.
  split.
  - apply Q.le_max_l.
  - apply Q.max_lub; [discriminate|apply Q.le_min_l].
Qed.

Lemma clamp_mono x y : x <= y -> Qmax 0 (Qmin 100 x) <= Qmax 0 (Qmin 100 y).
Proof.
  intros Hxy. apply Q.max_le_compat_l. by apply Q.min_le_compat_l.
Qed.

(** A point of a data set is the normalized value of its label. *)
Lemma radar_point i key :
  labels (radar baselineWebVitals currentWebVitals) !! i = Some key ->
  exists b c,
    get key baselineWebVitals = Some b /\ get key currentWebVitals = Some c
    /\ baselineData (radar baselineWebVitals currentWebVitals) !! i
       = Some (normalized baselineWebVitals currentWebVitals key b)
    /\ currentData (radar baselineWebVitals currentWebVitals) !! i
       = Some (normalized baselineWebVitals currentWebVitals key c).
Proof.
  simpl. intros Hi.
  assert (key ∈ webVitalsKeys baselineWebVitals currentWebVitals) as Hin
    by (eapply list_elem_of_lookup_2; exact Hi).
  apply list_elem_of_In, filter_In in Hin as [_ Hin].
  destruct (get key baselineWebVitals) as [b|] eqn:Eb; [|discriminate].
  destruct (get key currentWebVitals) as [c|] eqn:Ec; [|discriminate].
  exists b, c. rewrite !list_lookup_fmap, Hi. simpl. by rewrite Eb, Ec.
Qed.

End RadarChart.

(** X14: on the radar chart, every point of a metric other than CLS lies
    between 0 and 100; it is 100 for a value of 0 or less and 0 for a value
    at or above the reference value of the metric, and a smaller (better)
    value never gives a lower point. *)
Theorem radar_points_in_range (baselineWebVitals currentWebVitals : WebVitalsMetrics)
    (i : nat) (key : MetricKey) (x : number) :
  ComparisonChart.labels (ComparisonChart.radar baselineWebVitals currentWebVitals) !! i
  = Some key ->
  key <> kCLS ->
  (ComparisonChart.baselineData (ComparisonChart.radar baselineWebVitals currentWebVitals)
     !! i = Some x
   \/ ComparisonChart.currentData (ComparisonChart.radar baselineWebVitals currentWebVitals)
        !! i = Some x) ->
  0 <= x <= 100
  /\ (forall v ref, ComparisonChart.referenceValues key = Some ref ->
        (v <= 0 ->
         ComparisonChart.normalized baselineWebVitals currentWebVitals key v == 100)
        /\ (ref <= v ->
            ComparisonChart.normalized baselineWebVitals currentWebVitals key v == 0))
  /\ (forall v1 v2, v1 <= v2 ->
        ComparisonChart.normalized baselineWebVitals currentWebVitals key v2
        <= ComparisonChart.normalized baselineWebVitals currentWebVitals key v1).
Proof.
  intros Hi Hk Hx.
  destruct (radar_point _ _ _ _ Hi) as (b & c & _ & _ & Hb & Hc).
  split; [|split].
  - destruct Hx as [Hx|Hx]; [rewrite Hb in Hx|rewrite Hc in Hx]; injection Hx as <-;
      destruct (normalized_reference baselineWebVitals currentWebVitals key b Hk)
        as (ref & _ & _ & Hnb);
      destruct (normalized_reference baselineWebVitals currentWebVitals key c Hk)
        as (ref' & _ & _ & Hnc);
      rewrite ?Hnb, ?Hnc; apply clamp_bounds.
  - intros v ref Href.
    destruct (normalized_reference baselineWebVitals currentWebVitals key v Hk)
      as (ref' & Href' & Hpos & ->).
    rewrite Href in Href'. injection Href' as <-.
    assert (forall y, y / ref * 100 == y * (100 / ref)) as Hdiv
      by (intros y; field; lra).
    assert (0 < 100 / ref) as Hq by (apply Qlt_shift_div_l; lra).
    split.
    + intros Hv. assert (100 <= 100 - v / ref * 100) as Hge by (rewrite Hdiv; nra).
      rewrite Q.min_l by done. rewrite Q.max_r by discriminate. reflexivity.
    + intros Hv. assert (100 - v / ref * 100 <= 0) as Hle.
      { rewrite Hdiv. assert (ref * (100 / ref) == 100) as Hr by (field; lra). nra. }
      rewrite Q.min_r by lra. rewrite Q.max_l by done. reflexivity.
  - intros v1 v2 Hv.
    destruct (normalized_reference baselineWebVitals currentWebVitals key v1 Hk)
      as (ref & Href & Hpos & ->).
    destruct (normalized_reference baselineWebVitals currentWebVitals key v2 Hk)
      as (ref' & Href' & _ & ->).
    rewrite Href in Href'. injection Href' as <-.
    apply clamp_mono.
    assert (forall y, y / ref * 100 == y * (100 / ref)) as Hdiv
      by (intros y; field; lra).
    assert (0 < 100 / ref) as Hq by (apply Qlt_shift_div_l; lra).
    rewrite !Hdiv. nra.
Qed.

(** X15: the CLS points of the radar chart are not clamped: in both data
    sets, that of the baseline and that of the current result, the point
    is [100 - 400 * value], so that a layout shift above 0.25 is drawn
    below zero. *)
Theorem radar_cls_unclamped (baselineWebVitals currentWebVitals : WebVitalsMetrics)
    (i : nat) (baselineValue currentValue : number) :
  ComparisonChart.labels (ComparisonChart.radar baselineWebVitals currentWebVitals) !! i
  = Some kCLS ->
  get kCLS baselineWebVitals = Some baselineValue ->
  get kCLS currentWebVitals = Some currentValue ->
  exists x y,
    ComparisonChart.baselineData (ComparisonChart.radar baselineWebVitals currentWebVitals)
      !! i = Some x
    /\ ComparisonChart.currentData (ComparisonChart.radar baselineWebVitals currentWebVitals)
         !! i = Some y
    /\ x == 100 - 400 * baselineValue
    /\ y == 100 - 400 * currentValue
    /\ (x < 0 <-> 0.25 < baselineValue)
    /\ (y < 0 <-> 0.25 < currentValue).
Proof.
  intros Hi Hb Hc.
  destruct (radar_point _ _ _ _ Hi) as (b & c & Hb' & Hc' & Hx & Hy).
  simpl in Hb, Hb', Hc, Hc'. rewrite Hb in Hb'. rewrite Hc in Hc'.
  injection Hb' as <-. injection Hc' as <-.
  assert (forall value,
             ComparisonChart.normalized baselineWebVitals currentWebVitals kCLS value
             == 100 - 400 * value) as Heq.
  { intros value. simpl. field. }
  do 2 eexists. split; [exact Hx|]. split; [exact Hy|].
  split; [apply Heq|]. split; [apply Heq|].
  rewrite !Heq. split; split; intros; lra.
Qed.

Lemma radar_points_in_range_witness :
  0 <= ComparisonChart.normalized
         (mkMetrics (Some 1500) None (Some 0.5) None None None None)
         (mkMetrics (Some 3500) None (Some 0.1) None None None None) kFCP 1500
    <= 100.
Proof.
  exact (proj1 (radar_points_in_range
                  (mkMetrics (Some 1500) None (Some 0.5) None None None None)
                  (mkMetrics (Some 3500) None (Some 0.1) None None None None)
                  0 kFCP _ eq_refl ltac:(discriminate) (or_introl eq_refl))).
Defined.

(** A layout shift of 0.5 is drawn at -100 and one of 0.3 at -20. *)
Lemma radar_cls_unclamped_witness :
  exists x y,
    ComparisonChart.baselineData
      (ComparisonChart.radar
         (mkMetrics (Some 1500) None (Some 0.5) None None None None)
         (mkMetrics (Some 3500) None (Some 0.3) None None None None)) !! 1%nat = Some x
    /\ ComparisonChart.currentData
         (ComparisonChart.radar
            (mkMetrics (Some 1500) None (Some 0.5) None None None None)
            (mkMetrics (Some 3500) None (Some 0.3) None None None None)) !! 1%nat = Some y
    /\ x == 100 - 400 * 0.5
    /\ y == 100 - 400 * 0.3
    /\ (x < 0 <-> 0.25 < 0.5)
    /\ (y < 0 <-> 0.25 < 0.3).
Proof.
  exact (radar_cls_unclamped
           (mkMetrics (Some 1500) None (Some 0.5) None None None None)
           (mkMetrics (Some 3500) None (Some 0.3) None None None None)
           1 0.5 0.3 eq_refl eq_refl eq_refl).
Defined.

(** ** The comparison audit *)

Section CompareScores.

Import Index.

Lemma lookup_compareScores_fold cats lhr (acc : gmap string number) (c : string) :
  foldl (fun (compareScores : gmap string number) category =>
           match WebVitals.categories lhr !! category with
           | Some score => <[category := Double.mul score 100]> compareScores
           | None => compareScores
           end) acc cats !! c =
  if decide (c ∈ cats)
  then match WebVitals.categories lhr !! c with
       | Some score => Some (Double.mul score 100)
       | None => acc !! c
       end
  else acc !! c.
Proof.
  revert acc. induction cats as [|c' cats IH]; intros acc; [done|].
  simpl foldl. rewrite IH. destruct (decide (c = c')) as [->|Hne].
    + rewrite (decide_True (P := c' ∈ c' :: cats)) by left.
      destruct (WebVitals.categories lhr !! c') eqn:E.
      * case_decide; [done|]. apply lookup_insert_eq.
      * case_decide; done.
    + assert (match WebVitals.categories lhr !! c' with
              | Some score => <[c' := Double.mul score 100]> acc
              | None => acc
              end !! c = acc !! c) as ->.
      { destruct (WebVitals.categories lhr !! c'); [|done]. by rewrite lookup_insert_ne. }
      destruct (decide (c ∈ cats)) as [Hin|Hin].
      * by rewrite decide_True by by right.
      * rewrite decide_False; [done|]. intros [?|?]%elem_of_cons; done.
Qed.

End CompareScores.

(** X16: the scores of the comparison audit are those of its single run:
    a category has a score iff it is configured and the audit result has
    it, and the score is the double product of the audit score and 100
    (57.99999999999999 for a score of 0.58), however often the category
    is configured. *)
Theorem compare_scores_single_run (cats : list string) (lhr : Lhr) (c : string)
    (x : number) :
  Index.compareScores cats lhr !! c = Some x
  <-> c ∈ cats /\ exists s, categories lhr !! c = Some s /\ x = Double.mul s 100.
Proof.
  unfold Index.compareScores. rewrite lookup_compareScores_fold, lookup_empty.
  case_decide as Hc.
  - destruct (categories lhr !! c) as [s|]; split.
    + intros [= <-]. eauto.
    + intros (_ & s' & [= <-] & ->). done.
    + discriminate.
    + intros (_ & s' & ? & _). discriminate.
  - split; [discriminate|]. intros [? _]. done.
Qed.

(** ** The order of the calls *)

Section Traces.

Import Index.

Lemma session_split w config :
  session w config =
  (call w EnsureDirs;;
   st ← run_loop w config (testCount config) 1
          {| scores := initial_scores; webVitalsResults := [] |};
   after_loop w config st).
Proof. reflexivity. Qed.

Lemma audit_calls_app t1 t2 : audit_calls (t1 ++ t2) = audit_calls t1 ++ audit_calls t2.
Proof. apply omap_app. Qed.

Lemma audit_calls_none t :
  (forall ev i, ev ∈ t -> ev <> Called (Lighthouse i)) -> audit_calls t = [].
Proof.
  induction t as [|ev t IH]; intros Hno; [done|].
  unfold audit_calls in *. simpl.
  destruct ev as [[]| | | | | | |]; try (apply IH; intros ev' j Hin; apply Hno; by right).
  destruct (Hno (Called (Lighthouse i)) i); [left|done].
Qed.

(** Every event that follows the run loop is of the expected kind. *)
Lemma after_loop_events w config st ev :
  ev ∈ (after_loop w config st).1 -> after_loop_event config ev.
Proof.
  unfold after_loop. intros H.
  apply elem_of_bind_trace in H as [H|(avgScores & _ & H)];
    [rewrite average_trace in H; by apply elem_of_nil in H|].
  apply elem_of_bind_trace in H as [H|(? & _ & H)];
    [by apply elem_of_call in H as ->|].
  apply elem_of_bind_trace in H as [H|(last & _ & H)].
  { destruct (ReportGenerator.last_result _); by apply elem_of_nil in H. }
  apply elem_of_bind_trace in H as [H|(? & _ & H)].
  { destruct (saveHistory config) eqn:Hs; [|by apply elem_of_nil in H].
    apply elem_of_bind_trace in H as [H|(? & _ & H)];
      [by apply elem_of_call in H as ->|].
    apply elem_of_bind_trace in H as [H|(? & _ & H)];
      [by apply list_elem_of_singleton in H as ->|].
    apply elem_of_bind_trace in H as [H|(? & _ & H)];
      [by apply elem_of_call in H as ->|].
    case_bool_decide as Hlen; [|by apply elem_of_nil in H].
    apply elem_of_bind_trace in H as [H|(? & _ & H)];
      [by apply elem_of_call in H as ->|].
    apply list_elem_of_singleton in H as ->. simpl. split; [done|lia]. }
  apply elem_of_bind_trace in H as [H|(? & _ & H)].
  { unfold generateDetailedReport in H.
    apply elem_of_bind_trace in H as [H|(d & _ & H)].
    { destruct (ReportGenerator.reportData _ _); by apply elem_of_nil in H. }
    apply elem_of_bind_trace in H as [H|(? & _ & H)];
      [by apply elem_of_call in H as ->|].
    by apply list_elem_of_singleton in H as ->. }
  destruct (compareUrl config) as [u|] eqn:Hu; [|by apply elem_of_nil in H].
  apply elem_of_bind_trace in H as [H|(? & _ & H)];
    [apply elem_of_call in H as ->; simpl; eauto|].
  unfold generateComparisonReport in H.
  apply elem_of_bind_trace in H as [H|(? & _ & H)];
    [apply elem_of_call in H as ->; simpl; eauto|].
  apply list_elem_of_singleton in H as ->. simpl. eauto.
Qed.

Lemma after_loop_no_audit w config st :
  audit_calls (after_loop w config st).1 = [].
Proof.
  apply audit_calls_none. intros ev i Hin ->.
  by apply after_loop_events in Hin.
Qed.

(** A run makes one audit call, its first call. *)
Lemma run_once_audit_calls w config i st :
  audit_calls (run_once w config i st).1 = [i].
Proof.
  unfold run_once. rewrite bind_trace, audit_calls_app.
  change (audit_calls (call w (Lighthouse i)).1) with [i].
  change ((call w (Lighthouse i)).2)
    with (if rejects w (Lighthouse i)
          then @inl Error unit (Rejected (Lighthouse i)) else inr tt).
  destruct (rejects w (Lighthouse i)); [done|].
  rewrite audit_calls_none; [done|]. intros ev j Hin ->.
  do 2 (apply elem_of_bind_trace in Hin as [Hin|(? & _ & Hin)];
        [by apply elem_of_call in Hin|]).
  apply elem_of_bind_trace in Hin as [Hin|(? & _ & Hin)].
  { case_bool_decide; [by apply elem_of_nil in Hin|]. by apply elem_of_call in Hin. }
  apply elem_of_bind_trace in Hin as [Hin|(? & _ & Hin)].
  - rewrite collect_scores_trace in Hin. by apply elem_of_nil in Hin.
  - by apply elem_of_nil in Hin.
Qed.

(** The run loop audits the runs in order, and all of them when it
    completes. *)
Lemma run_loop_audit_calls w config n i st :
  exists k,
    (k <= n)%nat
    /\ audit_calls (run_loop w config n i st).1 = seq i k
    /\ (forall st', (run_loop w config n i st).2 = inr st' -> k = n).
Proof.
  revert i st. induction n as [|n IH]; intros i st.
  - exists 0%nat. by repeat split.
  - simpl. rewrite bind_trace, bind_snd, audit_calls_app, run_once_audit_calls.
    destruct (run_once w config i st).2 as [e|st'].
    + exists 1%nat. split; [lia|]. split; [done|]. discriminate.
    + destruct (IH (S i) st') as (k & Hk & Hcalls & Hfull).
      exists (S k). split; [lia|]. split; [by rewrite Hcalls|].
      intros st'' Hst. f_equal. by eapply Hfull.
Qed.

(** The events of a session: the creation of the directories, the calls
    of the runs, and the events that follow the loop once it has
    completed. *)
Lemma session_event_kinds w config ev :
  ev ∈ (session w config).1 ->
  ev = Called EnsureDirs
  \/ (exists c i, ev = Called c /\ run_call i c)
  \/ ((exists st, (run_loop w config (testCount config) 1
                     {| scores := initial_scores; webVitalsResults := [] |}).2
                  = inr st)
      /\ after_loop_event config ev).
Proof.
  rewrite session_split. intros H.
  apply elem_of_bind_trace in H as [H|(? & _ & H)];
    [left; by apply elem_of_call in H|].
  right. apply elem_of_bind_trace in H as [H|(st & Hst & H)].
  - left. clear -H. revert H.
    generalize 1%nat, {| scores := initial_scores; webVitalsResults := [] |}.
    induction (testCount config) as [|n IH]; intros i st; simpl.
    + by intros ?%elem_of_nil.
    + intros [H|(st' & _ & H)]%elem_of_bind_trace.
      * apply run_once_calls in H as (c & -> & Hc). eauto.
      * by eapply IH.
  - right. split.
    + exists st. by rewrite Hst.
    + by eapply after_loop_events.
Qed.

End Traces.

(** The audits called by the program. *)
Lemma main_audit_calls (w : Index.World) (config : Index.TestConfig) :
  exists k,
    (k <= Index.testCount config)%nat
    /\ audit_calls (Index.main w config) = seq 1 k
    /\ (forall ev, ev ∈ Index.main w config -> is_report ev ->
                   k = Index.testCount config).
Proof.
  destruct (run_loop_audit_calls w config (Index.testCount config) 1
              {| Index.scores := Index.initial_scores; Index.webVitalsResults := [] |})
    as (k & Hk & Hcalls & Hfull).
  assert (audit_calls (Index.session w config).1
          = if Index.rejects w Index.EnsureDirs then [] else seq 1 k) as Hsession.
  { rewrite session_split, bind_trace, audit_calls_app. simpl.
    destruct (Index.rejects w Index.EnsureDirs); [done|].
    rewrite bind_trace, audit_calls_app, Hcalls.
    destruct (Index.run_loop _ _ _ _ _).2; [by rewrite app_nil_r|].
    by rewrite after_loop_no_audit, app_nil_r. }
  assert (audit_calls (Index.main w config)
          = if Index.rejects w Index.ParseArgs || Index.rejects w Index.LaunchChrome
            then [] else audit_calls (Index.session w config).1) as Hmain.
  { rewrite main_unfold. unfold ending.
    destruct (Index.rejects w Index.ParseArgs); [done|].
    destruct (Index.rejects w Index.LaunchChrome); [done|].
    rewrite !audit_calls_app. simpl.
    destruct (Index.session w config).2, (Index.rejects w Index.KillChrome);
      simpl; by rewrite app_nil_r. }
  assert (forall ev, ev ∈ Index.main w config -> is_report ev ->
                     audit_calls (Index.main w config) = seq 1 (Index.testCount config))
    as Hreport.
  { intros ev Hin Hr. assert (Hin' := Hin). apply main_report in Hin'; [|done].
    rewrite Hmain, Hsession.
    assert (Index.rejects w Index.ParseArgs = false
            /\ Index.rejects w Index.LaunchChrome = false) as [-> ->].
    { rewrite main_unfold in Hin.
      destruct (Index.rejects w Index.ParseArgs).
      { repeat (apply elem_of_cons in Hin as [->|Hin]; [done|]).
        by apply elem_of_nil in Hin. }
      destruct (Index.rejects w Index.LaunchChrome); [|done].
      repeat (apply elem_of_cons in Hin as [->|Hin]; [done|]).
      by apply elem_of_nil in Hin. }
    simpl.
    assert (Hkinds := Hin'). apply session_event_kinds in Hkinds.
    destruct Hkinds as [->|[(c & i & -> & _)|[[st Hst] _]]]; [done|done|].
    rewrite (Hfull st Hst).
    rewrite session_split, bind_trace in Hin'. simpl in Hin'.
    destruct (Index.rejects w Index.EnsureDirs); [|done].
    apply list_elem_of_singleton in Hin' as ->. done. }
  destruct (Index.rejects w Index.ParseArgs || Index.rejects w Index.LaunchChrome) eqn:E1.
  - exists 0%nat. split; [lia|]. split; [by rewrite Hmain|].
    intros ev Hin Hr. specialize (Hreport ev Hin Hr). rewrite Hmain in Hreport.
    by destruct (Index.testCount config).
  - destruct (Index.rejects w Index.EnsureDirs) eqn:E2.
    + exists 0%nat. split; [lia|]. split; [by rewrite Hmain, Hsession|].
      intros ev Hin Hr. specialize (Hreport ev Hin Hr).
      rewrite Hmain, Hsession in Hreport. by destruct (Index.testCount config).
    + exists k. split; [done|]. split; [by rewrite Hmain, Hsession|].
      intros ev Hin Hr. specialize (Hreport ev Hin Hr).
      rewrite Hmain, Hsession in Hreport.
      apply (f_equal length) in Hreport. by rewrite !length_seq in Hreport.
Qed.

(** X17: in every world, the audits of the runs are called in the order
    1, 2, ...: none is repeated or skipped, and there are never more than
    the configured number.  All of them have been called whenever a report
    or a history entry is written. *)
Theorem audits_in_order (w : Index.World) (config : Index.TestConfig) :
  exists k,
    (k <= Index.testCount config)%nat
    /\ audit_calls (Index.main w config) = seq 1 k
    /\ (forall ev, ev ∈ Index.main w config -> is_report ev ->
                   k = Index.testCount config).
Proof. apply main_audit_calls. Qed.

Example audits_of_three_runs :
  audit_calls (Index.main Examples.calm (Examples.config_of 3)) = [1; 2; 3]%nat
  /\ audit_calls (Index.main Examples.second_audit_fails (Examples.config_of 3))
     = [1; 2]%nat.
Proof. split; vm_compute; reflexivity. Qed.

Section Cleanup.

Import Index.

Lemma call_snd w c :
  (call w c).2 = if rejects w c then inl (Rejected c) else inr tt.
Proof. reflexivity. Qed.

Lemma session_no_chrome_call w config c :
  Called c ∈ (session w config).1 ->
  c <> ParseArgs /\ c <> LaunchChrome /\ c <> KillChrome.
Proof.
  intros [H|[(c' & i & Heq & Hc)|[_ H]]]%session_event_kinds.
  - injection H as ->. done.
  - injection Heq as ->. destruct Hc as [-> | [-> | [-> | ->]]]; done.
  - by destruct c.
Qed.

(** Only a thrown [TypeError] ends the score collection. *)
Lemma collect_scores_error cats lhr (scores : gmap string (list number)) e :
  (collect_scores cats lhr scores).2 = inl e -> e = TypeError.
Proof.
  revert scores. induction cats as [|c cats IH]; intros scores; [discriminate|].
  simpl. destruct (WebVitals.categories lhr !! c) as [x|]; [|apply IH].
  destruct (scores !! c) as [l|]; simpl; [|by intros [= <-]].
  specialize (IH (<[c := l ++ [Double.mul x 100]]> scores)).
  by destruct (collect_scores cats lhr _).
Qed.

Lemma average_error cats (scores : gmap string (list number)) acc e :
  (average cats scores acc).2 = inl e -> e = TypeError.
Proof.
  revert acc. induction cats as [|c cats IH]; intros acc; [discriminate|].
  simpl. destruct (scores !! c) as [l|]; simpl; [|by intros [= <-]].
  case_bool_decide.
  - specialize (IH (<[c := Double.div (reduce_sum l) (inject_Z (Z.of_nat (length l)))]> acc)).
    by destruct (average cats scores _).
  - specialize (IH acc). by destruct (average cats scores _).
Qed.

(** The averaging loop throws when a configured category has no score
    list. *)
Lemma average_missing cats (scores : gmap string (list number)) acc (c : string) :
  c ∈ cats -> scores !! c = None -> (average cats scores acc).2 = inl TypeError.
Proof.
  intros Hc Hmiss.
  destruct (average cats scores acc) as [t [e|avg]] eqn:E.
  - simpl. f_equal. eapply average_error. by rewrite E.
  - apply average_inr in E as (_ & _ & Hdom).
    destruct (Hdom c Hc) as [l Hl]. congruence.
Qed.

(** In a world that accepts every call, only a [TypeError] ends a run or
    the run loop. *)
Lemma run_once_accepted w config i st e :
  accepts_all w -> (run_once w config i st).2 = inl e -> e = TypeError.
Proof.
  intros Hw. unfold run_once.
  rewrite (bind_ok _ _ _ _ (call_ok w _ (Hw _))). cbv beta.
  rewrite (bind_ok _ _ _ _ (call_ok w _ (Hw _))). cbv beta.
  rewrite (bind_ok _ _ _ _ (call_ok w _ (Hw _))). cbv beta.
  assert (exists t, (if bool_decide (accessibilityIssues (audit w i) = [])
                     then mret tt else call w (WriteAccessibilityIssues i))
                    = (t, inr tt)) as [t Ht].
  { case_bool_decide; [by exists []|]. eexists. apply call_ok, Hw. }
  rewrite (bind_ok _ _ _ _ Ht). cbv beta. simpl snd.
  rewrite bind_snd.
  destruct (collect_scores _ _ _).2 as [e'|s] eqn:E; [|discriminate].
  intros [= <-]. by eapply collect_scores_error.
Qed.

Lemma run_loop_accepted w config n i st e :
  accepts_all w -> (run_loop w config n i st).2 = inl e -> e = TypeError.
Proof.
  intros Hw. revert i st. induction n as [|n IH]; intros i st; [discriminate|].
  simpl. rewrite bind_snd.
  destruct (run_once w config i st).2 as [e'|st'] eqn:E.
  - intros [= <-]. by eapply run_once_accepted.
  - apply IH.
Qed.

End Cleanup.

(** X18: Chrome is killed exactly when it has been launched: if the
    arguments are parsed and Chrome is launched, the program calls the kill
    of Chrome once, after every other call and every report, whether the
    session succeeded or failed; if the parsing or the launch is rejected,
    it never calls it, and makes no other call. *)
Theorem chrome_killed_once (w : Index.World) (config : Index.TestConfig) :
  (Index.rejects w Index.ParseArgs = false ->
   Index.rejects w Index.LaunchChrome = false ->
   exists before,
     Index.main w config = before ++ Index.Called Index.KillChrome :: ending w
     /\ (Index.Called Index.KillChrome ∉ before)
     /\ (forall ev, ev ∈ ending w ->
                    ~ is_report ev /\ forall c, ev <> Index.Called c))
  /\ (Index.rejects w Index.ParseArgs = true \/ Index.rejects w Index.LaunchChrome = true ->
      forall c, Index.Called c ∈ Index.main w config ->
                c = Index.ParseArgs \/ c = Index.LaunchChrome).
Proof.
  split.
  - intros Hp Hl. rewrite main_unfold, Hp, Hl.
    exists ([Index.Called Index.ParseArgs; Index.Called Index.LaunchChrome]
            ++ (Index.session w config).1
            ++ match (Index.session w config).2 with
               | inl e => [Index.LoggedError e]
               | inr _ => []
               end).
    split; [by rewrite <- !app_assoc|]. split.
    + intros [H|H]%elem_of_app.
      * repeat (apply elem_of_cons in H as [H|H]; [discriminate|]).
        by apply elem_of_nil in H.
      * apply elem_of_app in H as [H|H].
        -- apply session_no_chrome_call in H as (_ & _ & H). done.
        -- destruct (Index.session w config).2; [|by apply elem_of_nil in H].
           apply list_elem_of_singleton in H. discriminate.
    + intros ev Hev. unfold ending in Hev.
      destruct (Index.rejects w Index.KillChrome);
        repeat (apply elem_of_cons in Hev as [->|Hev]; [split; [tauto|discriminate]|]);
        by apply elem_of_nil in Hev.
  - intros Hrej c. rewrite main_unfold.
    destruct (Index.rejects w Index.ParseArgs).
    { intros H. apply elem_of_cons in H as [[= ->]|H]; [by left|].
      repeat (apply elem_of_cons in H as [H|H]; [discriminate|]).
      by apply elem_of_nil in H. }
    destruct (Index.rejects w Index.LaunchChrome); [|by destruct Hrej].
    intros H. apply elem_of_cons in H as [[= ->]|H]; [by left|].
    apply elem_of_cons in H as [[= ->]|H]; [by right|].
    repeat (apply elem_of_cons in H as [H|H]; [discriminate|]).
    by apply elem_of_nil in H.
Qed.

(** X19: a session of zero runs in a world that accepts every call makes
    no audit and writes no report: reading the metrics of the last run
    throws a [TypeError], which is logged, and the process exits with the
    code 0. *)
Theorem zero_runs (w : Index.World) (config : Index.TestConfig) :
  Index.testCount config = 0%nat ->
  accepts_all w ->
  Index.LoggedError Index.TypeError ∈ Index.main w config
  /\ audit_calls (Index.main w config) = []
  /\ (forall ev, ev ∈ Index.main w config -> ~ is_report ev)
  /\ Index.exit_code (Index.main w config) = Some 0%Z.
Proof.
  intros HN Hw.
  assert ((Index.session w config).2 = inl Index.TypeError) as Hthrow.
  { rewrite session_split, HN, !bind_snd, call_snd, Hw. cbv beta iota.
    change (Index.run_loop w config 0 1
              {| Index.scores := Index.initial_scores;
                 Index.webVitalsResults := [] |}).2
      with (@inr Index.Error Index.Collected
              {| Index.scores := Index.initial_scores; Index.webVitalsResults := [] |}).
    cbv beta iota. unfold after_loop. rewrite bind_snd.
    destruct (Index.average _ _ _).2 as [e|avg] eqn:E.
    - f_equal. by eapply average_error.
    - rewrite bind_snd, call_snd, Hw. cbv beta iota. by rewrite bind_snd. }
  split; [|split; [|split]].
  - rewrite main_unfold, !Hw, Hthrow.
    do 2 (apply elem_of_cons; right). apply elem_of_app. right.
    apply elem_of_cons. by left.
  - destruct (main_audit_calls w config) as (k & Hk & -> & _).
    rewrite HN in Hk. by destruct k; [|lia].
  - intros ev Hin Hr. apply main_report in Hin; [|done].
    apply session_events in Hin.
    destruct ev; try done; destruct Hin as [Hpos _]; rewrite HN in Hpos; lia.
  - by rewrite exit_code_main, !Hw.
Qed.

Lemma chrome_killed_once_witness :
  exists before,
    Index.main Examples.second_audit_fails (Examples.config_of 3)
    = before ++ Index.Called Index.KillChrome :: ending Examples.second_audit_fails
    /\ (Index.Called Index.KillChrome ∉ before).
Proof.
  destruct (proj1 (chrome_killed_once Examples.second_audit_fails (Examples.config_of 3))
              eq_refl eq_refl) as (before & Hmain & Hnot & _).
  exists before. split; [exact Hmain|exact Hnot].
Defined.

Lemma zero_runs_witness :
  Index.LoggedError Index.TypeError ∈ Index.main Examples.calm (Examples.config_of 0)
  /\ audit_calls (Index.main Examples.calm (Examples.config_of 0)) = [].
Proof.
  destruct (zero_runs Examples.calm (Examples.config_of 0) eq_refl)
    as (Hlog & Hcalls & _); [intros c; reflexivity|].
  split; [exact Hlog|exact Hcalls].
Defined.

Section Unknown.

Import Index.

(** A session over a category that has no score list throws a
    [TypeError] when every call is accepted. *)
Lemma session_unknown_category w config (c : string) :
  accepts_all w -> c ∈ categories config -> ~ known_category c ->
  (session w config).2 = inl TypeError.
Proof.
  intros Hw Hc Hunknown.
  rewrite session_split, !bind_snd, call_snd, Hw. cbv beta iota.
  destruct (run_loop w config (testCount config) 1
              {| scores := initial_scores; webVitalsResults := [] |})
    as [t [e|st]] eqn:E; cbv beta iota; simpl snd.
  - f_equal. eapply (run_loop_accepted w config); [done|]. by rewrite E.
  - apply session_loop_inr in E as [Hs _].
    unfold after_loop. rewrite bind_snd.
    rewrite (average_missing _ _ _ c Hc); [done|].
    rewrite Hs. unfold final_scores.
    rewrite lookup_foldl_pushed, initial_scores_known, decide_False by done. done.
Qed.

End Unknown.

(** X20: when a configured category is not one of performance,
    accessibility, best-practices and seo, the program writes no report and
    no history entry, whatever the audits return; when every call is
    accepted, the failure is a [TypeError], which is logged. *)
Theorem unknown_category_no_report (w : Index.World) (config : Index.TestConfig)
    (c : string) :
  c ∈ Index.categories config -> ~ known_category c ->
  (forall ev, ev ∈ Index.main w config -> ~ is_report ev)
  /\ (accepts_all w -> Index.LoggedError Index.TypeError ∈ Index.main w config).
Proof.
  intros Hc Hunknown. split.
  - intros ev Hin Hr. apply main_report in Hin; [|done].
    apply session_events in Hin.
    assert (all_known config -> False) as Hno by (intros Hk; by apply Hunknown, Hk).
    destruct ev; try done; destruct Hin as (_ & Hk & _); by apply Hno.
  - intros Hw. rewrite main_unfold, !Hw, (session_unknown_category w config c) by done.
    do 2 (apply elem_of_cons; right). apply elem_of_app. right.
    apply elem_of_cons. by left.
Qed.

Lemma unknown_category_no_report_witness :
  Index.LoggedError Index.TypeError
  ∈ Index.main Examples.calm
      (Index.mkConfig "https://playwright.dev" 3 ["performance"; "pwa"] "Desktop"
                      None true).
Proof.
  apply (unknown_category_no_report
           Examples.calm
           (Index.mkConfig "https://playwright.dev" 3 ["performance"; "pwa"] "Desktop"
                           None true) "pwa").
  - by apply (bool_decide_unpack _).
  - intros [H|[H|[H|H]]]; discriminate H.
  - intros c. reflexivity.
Defined.

(** X21: the history and the comparison are optional: the program saves a
    history entry, reads the history or writes a trend report only when
    saving the history is configured, writes a trend report only over two
    entries or more, and audits the comparison URL or writes a comparison
    report only when a comparison URL is configured. *)
Theorem history_and_comparison_optional (w : Index.World) (config : Index.TestConfig)
    (ev : Index.Event) :
  ev ∈ Index.main w config ->
  match ev with
  | Index.HistorySaved _ | Index.Called Index.WriteHistory
  | Index.Called Index.ReadHistory | Index.Called Index.WriteTrendReport =>
      Index.saveHistory config = true
  | Index.TrendReport historyData =>
      Index.saveHistory config = true /\ (2 <= length historyData)%nat
  | Index.ComparisonReport _ | Index.Called Index.CompareLighthouse
  | Index.Called Index.WriteComparisonReport => is_Some (Index.compareUrl config)
  | _ => True
  end.
Proof.
  intros Hin.
  assert (ev ∈ (Index.session w config).1 ->
          match ev with
          | Index.HistorySaved _ | Index.Called Index.WriteHistory
          | Index.Called Index.ReadHistory | Index.Called Index.WriteTrendReport =>
              Index.saveHistory config = true
          | Index.TrendReport historyData =>
              Index.saveHistory config = true /\ (2 <= length historyData)%nat
          | Index.ComparisonReport _ | Index.Called Index.CompareLighthouse
          | Index.Called Index.WriteComparisonReport =>
              is_Some (Index.compareUrl config)
          | _ => True
          end) as Hsession.
  { intros [->|[(c & i & -> & Hc)|[_ H]]]%session_event_kinds.
    - done.
    - destruct Hc as [-> | [-> | [-> | ->]]]; done.
    - destruct ev as [[]| | | | | | |]; done. }
  rewrite main_unfold in Hin. unfold ending in Hin.
  destruct (Index.rejects w Index.ParseArgs).
  { repeat (apply elem_of_cons in Hin as [->|Hin]; [done|]). by apply elem_of_nil in Hin. }
  destruct (Index.rejects w Index.LaunchChrome).
  { repeat (apply elem_of_cons in Hin as [->|Hin]; [done|]). by apply elem_of_nil in Hin. }
  repeat (apply elem_of_cons in Hin as [->|Hin]; [done|]).
  apply elem_of_app in Hin as [Hin|Hin]; [by apply Hsession|].
  apply elem_of_app in Hin as [Hin|Hin].
  { destruct (Index.session w config).2; [|by apply elem_of_nil in Hin].
    by apply list_elem_of_singleton in Hin as ->. }
  apply elem_of_cons in Hin as [->|Hin]; [done|].
  destruct (Index.rejects w Index.KillChrome);
    repeat (apply elem_of_cons in Hin as [->|Hin]; [done|]); by apply elem_of_nil in Hin.
Qed.

(** The session of three runs saves a history entry, and its
    configuration asks for it. *)
Lemma history_and_comparison_optional_witness :
  Index.saveHistory (Examples.config_of 3) = true.
Proof.
  exact (history_and_comparison_optional
           Examples.calm (Examples.config_of 3)
           (Index.Called Index.WriteHistory)
           ltac:(apply list_elem_of_lookup; exists 13%nat; vm_compute; reflexivity)).
Defined.


(** ** The command line *)

Section CommandLine.

Import Index.

(** When every call is accepted and the categories are known, the
    audits of all the runs are called. *)
Lemma main_all_audits w config :
  accepts_all w -> all_known config ->
  audit_calls (main w config) = seq 1 (testCount config).
Proof.
  intros Hw Hk.
  destruct (main_audit_calls w config) as (k & Hle & Hcalls & Hfull).
  rewrite Hcalls. f_equal.
  destruct (testCount config) as [|n] eqn:HN; [lia|].
  destruct (main_ok w config Hw Hk) as [[d Hd] _]; [lia|].
  by apply (Hfull (DetailedReport d)).
Qed.

Lemma passes_whole (n : nat) : Options.passes (inject_Z (Z.of_nat n)) = n.
Proof. unfold Options.passes. rewrite Qfloor_Z. lia. Qed.

Lemma passes_positive (c : number) : 1 <= c -> (1 <= Options.passes c)%nat.
Proof.
  intros Hc. unfold Options.passes.
  assert (1 <= Qfloor c)%Z; [|lia].
  change 1%Z with (Qfloor 1). by apply Qfloor_resp_le.
Qed.

Lemma passes_none (c : number) : c < 1 -> Options.passes c = 0%nat.
Proof.
  intros Hc. unfold Options.passes.
  pose proof (Qfloor_le c) as H.
  assert (inject_Z (Qfloor c) < inject_Z 1) as H1 by (change (inject_Z 1) with 1; lra).
  rewrite <- Zlt_Qlt in H1. lia.
Qed.

End CommandLine.

(** X22: a session started from the command line alone (no configuration
    file) audits the four known categories.  A count of 0, or one that is
    not a number, is replaced by 5; a count of at least 1 gives as many
    runs as its whole part; any other count gives no run.  When every call
    is accepted, the audits of all these runs are called, the detailed
    report is written if there is a run, and the process exits with the
    code 0. *)
Theorem command_line_run (w : Index.World) (argv : Options.Argv)
    (read : option Options.FileConfig) :
  Options.argv_config argv = None ->
  accepts_all w ->
  let config := Options.config argv (Options.fileConfig argv read) in
  all_known config
  /\ match Options.argv_count argv with
     | None => Index.testCount config = 5%nat
     | Some c =>
         (c == 0 -> Index.testCount config = 5%nat)
         /\ (1 <= c -> Index.testCount config = Z.to_nat (Qfloor c)
                       /\ (1 <= Index.testCount config)%nat)
         /\ (c < 1 -> ~ c == 0 -> Index.testCount config = 0%nat)
     end
  /\ audit_calls (Index.main w config) = seq 1 (Index.testCount config)
  /\ ((1 <= Index.testCount config)%nat ->
      exists d, Index.DetailedReport d ∈ Index.main w config)
  /\ Index.exit_code (Index.main w config) = Some 0%Z.
Proof.
  intros Hfile Hw config.
  assert (Options.fileConfig argv read = Options.empty) as Hempty.
  { unfold Options.fileConfig. by rewrite Hfile. }
  assert (all_known config) as Hk.
  { intros c Hc. unfold config in Hc. rewrite Hempty in Hc. simpl in Hc.
    unfold known_category.
    repeat (apply elem_of_cons in Hc as [->|Hc]; [tauto|]). by apply elem_of_nil in Hc. }
  split; [exact Hk|]. split.
  - unfold config. rewrite Hempty. simpl. unfold Options.testCount. simpl.
    destruct (Options.argv_count argv) as [c|]; [|done].
    unfold nonzero. destruct (Qeq_bool c 0) eqn:E; simpl.
    + apply Qeq_bool_iff in E. split; [done|]. split.
      * intros Hc. lra.
      * intros _ Hc. by destruct Hc.
    + apply Qeq_bool_neq in E. split; [by intros Hc|]. split.
      * intros Hc. split; [done|]. by apply passes_positive.
      * intros Hc _. by apply passes_none.
  - split; [by apply main_all_audits|]. split.
    + intros HN. by apply (main_ok w config Hw Hk).
    + by rewrite exit_code_main, !Hw.
Qed.

Lemma command_line_run_witness :
  audit_calls
    (Index.main Examples.calm
       (Options.config CommandLines.count_zero
          (Options.fileConfig CommandLines.count_zero None)))
  = [1; 2; 3; 4; 5]%nat.
Proof.
  destruct (command_line_run Examples.calm CommandLines.count_zero None eq_refl)
    as (_ & _ & Hcalls & _); [intros c; reflexivity|].
  exact Hcalls.
Defined.

(** A count of 2.5 gives two runs. *)
Example count_fraction_runs :
  Index.testCount
    (Options.config CommandLines.count_fraction
       (Options.fileConfig CommandLines.count_fraction None)) = 2%nat.
Proof. reflexivity. Qed.
